(** * Adaptive geometry simplification and export selection

    A shallow embedding of [src/ThreeJsUtils.jsx] and
    [src/simplifyMeshworker.js].

    JavaScript numbers are modelled by [num]: a rational number, one of the
    two infinities, or NaN (there is no negative zero).  The special values
    follow the IEEE rules the code relies on: [0/0] is NaN, [x/0] is an
    infinity, every comparison with NaN is false.  Every operation is
    rounded to a double in the vector arithmetic of the crease-aware
    normals, in the feature analysis (the draws, the measures of a sampled
    triangle, the thresholds, the ratios and the complexity of a profile)
    and in the scaling of a texture; the remaining finite arithmetic
    (vertex targets, bounding-box and loss ratios, group ranges, file
    sizes) is exact.  Typed arrays hold one vector per vertex, and the
    normals written by [toCreasedNormals] are stored in single precision.

    Calls into three.js or the browser ([mergeVertices],
    [SimplifyModifier.modify], [Box3], [Math.sqrt], [Math.random],
    [GLTFExporter.parse], ...) are parameters of the sections that use them. *)

From Stdlib Require Import QArith Qabs Qround Qpower ZArith List Bool String Ascii
  Lia Lqa Permutation.
Import ListNotations.

Set Implicit Arguments.

(** ** JavaScript numbers *)

Inductive num : Type :=
| Fin (q : Q)
| PInf
| NInf
| NaN.

Declare Scope num_scope.
Delimit Scope num_scope with num.
Bind Scope num_scope with num.

Definition of_Z (z : Z) : num := Fin (inject_Z z).
Definition of_nat (n : nat) : num := of_Z (Z.of_nat n).

Definition Qsign (q : Q) : comparison := Qcompare q 0.

Definition neg (a : num) : num :=
  match a with
  | Fin q => Fin (- q)
  | PInf => NInf
  | NInf => PInf
  | NaN => NaN
  end.

Definition add (a b : num) : num :=
  match a, b with
  | NaN, _ | _, NaN => NaN
  | Fin p, Fin q => Fin (p + q)
  | PInf, NInf | NInf, PInf => NaN
  | PInf, _ | _, PInf => PInf
  | NInf, _ | _, NInf => NInf
  end.

Definition sub (a b : num) : num := add a (neg b).

(** An infinity times a finite number: the sign of the product, NaN at 0. *)
Definition inf_times (pos : bool) (q : Q) : num :=
  match Qsign q with
  | Eq => NaN
  | Gt => if pos then PInf else NInf
  | Lt => if pos then NInf else PInf
  end.

Definition mul (a b : num) : num :=
  match a, b with
  | NaN, _ | _, NaN => NaN
  | Fin p, Fin q => Fin (p * q)
  | PInf, Fin q | Fin q, PInf => inf_times true q
  | NInf, Fin q | Fin q, NInf => inf_times false q
  | PInf, PInf | NInf, NInf => PInf
  | PInf, NInf | NInf, PInf => NInf
  end.

Definition div (a b : num) : num :=
  match a, b with
  | NaN, _ | _, NaN => NaN
  | Fin p, Fin q =>
      match Qsign q with
      | Eq => inf_times true p          (* p/0: +-Infinity, 0/0: NaN *)
      | _ => Fin (p / q)
      end
  | Fin _, (PInf | NInf) => Fin 0
  | PInf, Fin q => if Qle_bool 0 q then PInf else NInf
  | NInf, Fin q => if Qle_bool 0 q then NInf else PInf
  | (PInf | NInf), (PInf | NInf) => NaN
  end.

Definition Qlt_bool (p q : Q) : bool := negb (Qle_bool q p).

(** [a < b]; false as soon as one side is NaN. *)
Definition lt (a b : num) : bool :=
  match a, b with
  | NaN, _ | _, NaN => false
  | Fin p, Fin q => Qlt_bool p q
  | NInf, (Fin _ | PInf) => true
  | Fin _, PInf => true
  | _, _ => false
  end.

Definition gt (a b : num) : bool := lt b a.

(** [a <= b]; false as soon as one side is NaN. *)
Definition le (a b : num) : bool :=
  match a, b with
  | NaN, _ | _, NaN => false
  | Fin p, Fin q => Qle_bool p q
  | NInf, _ => true
  | _, PInf => true
  | _, _ => false
  end.

Definition ge (a b : num) : bool := le b a.

(** [Math.min] and [Math.max] of two arguments: NaN if either is NaN. *)
Definition js_min (a b : num) : num :=
  match a, b with
  | NaN, _ | _, NaN => NaN
  | _, _ => if lt b a then b else a
  end.

Definition js_max (a b : num) : num :=
  match a, b with
  | NaN, _ | _, NaN => NaN
  | _, _ => if lt a b then b else a
  end.

Definition js_abs (a : num) : num :=
  match a with
  | Fin q => Fin (Qabs q)
  | PInf | NInf => PInf
  | NaN => NaN
  end.

Definition js_floor (a : num) : num :=
  match a with
  | Fin q => of_Z (Qfloor q)
  | other => other
  end.

(** [Math.round]: the nearest integer, halves rounded up. *)
Definition js_round (a : num) : num :=
  match a with
  | Fin q => of_Z (Qfloor (q + (1 # 2)))
  | other => other
  end.

(** Numeric equality of two values, as [===] would decide it on numbers
    (NaN differs from itself). *)
Definition num_eqb (a b : num) : bool :=
  match a, b with
  | Fin p, Fin q => Qeq_bool p q
  | PInf, PInf | NInf, NInf => true
  | _, _ => false
  end.

(** The same number: equal rationals, or the same special value. *)
Definition num_eq (a b : num) : Prop :=
  match a, b with
  | Fin p, Fin q => p == q
  | PInf, PInf | NInf, NInf | NaN, NaN => True
  | _, _ => False
  end.

Infix "+" := add : num_scope.
Infix "-" := sub : num_scope.
Infix "*" := mul : num_scope.
Infix "/" := div : num_scope.
Infix "<?" := lt : num_scope.
Infix ">?" := gt (at level 70) : num_scope.
Infix "<=?" := le : num_scope.
Infix ">=?" := ge (at level 70) : num_scope.
Infix "==" := num_eq : num_scope.

(** Decimal literals of the source. *)
Definition dec (n : Z) (d : positive) : num := Fin (n # d).

(** ** Rounding to binary floating point

    The result of an operation on doubles, and a number stored into a
    [Float32Array], is rounded as IEEE 754 does: to the nearest number
    with [prec] significant bits, ties to the even one, with gradual
    underflow and overflow to an infinity. *)

(** [Math.pow(2, k)] for an integer [k] *)
Definition two_to (k : Z) : Q :=
  match k with
  | Zneg p => 1 # (2 ^ p)
  | _ => inject_Z (2 ^ k)
  end.

(** The integer [e] with [2^e <= q < 2^(e+1)], for a positive [q]. *)
Definition ilog2 (q : Q) : Z :=
  let e := (Z.log2 (Qnum q) - Z.log2 (Zpos (Qden q)))%Z in
  if Qle_bool (two_to e) q then e else (e - 1)%Z.

(** The nearest integer, the even one of two that are equally near. *)
Definition nearest_even (q : Q) : Z :=
  let f := Qfloor q in
  match Qcompare (q - inject_Z f) (1 # 2) with
  | Lt => f
  | Gt => (f + 1)%Z
  | Eq => if Z.even f then f else (f + 1)%Z
  end.

(** A positive rational rounded to [prec] bits; [emin] is the exponent of
    the smallest positive number of the format and [emax] that of its
    largest binade. *)
Definition round_pos (prec emin emax : Z) (q : Q) : num :=
  let u := Z.max (ilog2 q - (prec - 1)) emin in
  let r := Qred (inject_Z (nearest_even (q / two_to u)) * two_to u) in
  if Qle_bool (two_to (emax + 1)) r then PInf else Fin r.

Definition round_to (prec emin emax : Z) (q : Q) : num :=
  match Qcompare q 0 with
  | Eq => Fin 0
  | Gt => round_pos prec emin emax (Qred q)
  | Lt => neg (round_pos prec emin emax (Qred (- q)))
  end.

(** The double nearest to a number. *)
Definition to_double (a : num) : num :=
  match a with
  | Fin q => round_to 53 (-1074) 1023 q
  | other => other
  end.

(** [Math.fround], the conversion a [Float32Array] applies to what is
    stored into it. *)
Definition Math_fround (a : num) : num :=
  match a with
  | Fin q => round_to 24 (-149) 127 q
  | other => other
  end.

(** A decimal literal as the double it denotes. *)
Definition double (n : Z) (d : positive) : num := to_double (dec n d).

(** The arithmetic of doubles: the exact result, rounded. *)
Definition fl_add (a b : num) : num := to_double (a + b).
Definition fl_sub (a b : num) : num := to_double (a - b).
Definition fl_mul (a b : num) : num := to_double (a * b).
Definition fl_div (a b : num) : num := to_double (a / b).

(** ** Exceptions *)

Inductive exn : Type :=
| TypeError          (* reading a property of undefined, assigning to a const *)
| RangeError         (* DataView access outside the buffer *)
| ExternalError.     (* thrown by three.js or the browser *)

Inductive result (A : Type) : Type :=
| Ok (a : A)
| Throw (e : exn).

Arguments Ok {A} a.
Arguments Throw {A} e.

Definition bind {A B} (r : result A) (k : A -> result B) : result B :=
  match r with
  | Ok a => k a
  | Throw e => Throw e
  end.

Notation "x <- r ;; k" := (bind r (fun x => k))
  (at level 61, r at next level, right associativity).

(** [try { body } catch { handler }] *)
Definition try_catch {A} (body : result A) (handler : exn -> result A) : result A :=
  match body with
  | Ok a => Ok a
  | Throw e => handler e
  end.

(** ** Mesh buffers *)

Record Vector3 : Type := vec3 { vx : num; vy : num; vz : num }.

Record Group : Type := mkGroup {
  start : num;
  count : num;
  materialIndex : option nat
}.

(** A [THREE.BufferGeometry]: [position] and [normal] hold one vector per
    vertex (item size 3), [uv] one pair per vertex, [index] the triangle
    index array. *)
Record BufferGeometry : Type := mkGeometry {
  position : option (list Vector3);
  normal : option (list Vector3);
  uv : option (list (num * num));
  index : option (list nat);
  groups : list Group
}.

Definition set_groups (g : BufferGeometry) (gs : list Group) : BufferGeometry :=
  mkGeometry (position g) (normal g) (uv g) (index g) gs.

Definition set_normal (g : BufferGeometry) (n : list Vector3) : BufferGeometry :=
  mkGeometry (position g) (Some n) (uv g) (index g) (groups g).

(** [geometry.attributes.position.count]; reading it throws when the
    attribute is missing. *)
Definition position_count (g : BufferGeometry) : result nat :=
  match position g with
  | Some p => Ok (List.length p)
  | None => Throw TypeError
  end.

(** [geometry.index ? geometry.index.count : geometry.attributes.position.count] *)
Definition index_or_position_count (g : BufferGeometry) : result nat :=
  match index g with
  | Some ix => Ok (List.length ix)
  | None => position_count g
  end.

(** ** Material groups *)

(** A number after [JSON.parse(JSON.stringify(_))]: non-finite values are
    written as [null], which every later arithmetic use reads as 0. *)
Definition json_num (a : num) : num :=
  match a with
  | Fin q => Fin q
  | _ => Fin 0
  end.

Definition preserveMaterialGroups (geometry : BufferGeometry) : option (list Group) :=
  match groups geometry with
  | [] => None
  | gs => Some (map (fun g => mkGroup (json_num (start g)) (json_num (count g))
                                      (materialIndex g)) gs)
  end.

Definition scale_group (scaleFactor : num) (group : Group) : Group :=
  mkGroup (js_floor (start group * scaleFactor))
          (js_floor (count group * scaleFactor))
          (materialIndex group).

(** The [forEach] pass: [currentOffset] is the running offset. *)
Fixpoint repack (newIndexCount currentOffset : num) (gs : list Group) : list Group :=
  match gs with
  | [] => []
  | group :: rest =>
      let offset' := (currentOffset + count group)%num in
      let count' :=
        if (offset' >? newIndexCount)%num
        then (count group - (offset' - newIndexCount))%num
        else count group in
      mkGroup currentOffset count' (materialIndex group)
        :: repack newIndexCount offset' rest
  end.

Definition scaleFactor_of (geometry : BufferGeometry) : result num :=
  oldIndexCount <- index_or_position_count geometry ;;
  newIndexCount <- index_or_position_count geometry ;;
  Ok (of_nat newIndexCount / of_nat oldIndexCount)%num.

(** The groups as they are after the [map] and before the [forEach]. *)
Definition scaled_groups (geometry : BufferGeometry) (materialInfo : list Group)
  : result (list Group) :=
  scaleFactor <- scaleFactor_of geometry ;;
  Ok (map (scale_group scaleFactor) materialInfo).

Definition restoreMaterialGroups (geometry : BufferGeometry)
    (materialInfo : option (list Group)) : result BufferGeometry :=
  match materialInfo with
  | None => Ok geometry
  | Some originalGroups =>
      newIndexCount <- index_or_position_count geometry ;;
      scaled <- scaled_groups geometry originalGroups ;;
      Ok (set_groups geometry (repack (of_nat newIndexCount) (Fin 0) scaled))
  end.

(** ** External collaborators

    Everything the two source files call but do not define. *)

Record Externals : Type := mkExternals {
  (** [Math.sqrt] *)
  Math_sqrt : num -> num;
  (** [Math.cos((creaseAngle * Math.PI) / 180)] as a function of [creaseAngle] *)
  cos_degrees : num -> num;
  (** the value returned by the [k]-th call of [Math.random] that the
      sampling loops of [analyzeFeatureSizes] make; the calls three.js makes
      for its UUIDs fall between them and are not counted *)
  Math_random : nat -> num;
  (** [new THREE.Box3().setFromObject(new THREE.Mesh(geometry)).getSize(_)] *)
  Box3_size : BufferGeometry -> Vector3;
  (** [mergeVertices(geometry, tolerance)] imported from BufferGeometryUtils.js *)
  mergeVertices : BufferGeometry -> result BufferGeometry;
  (** [THREE.BufferGeometryUtils.mergeVertices(geometry, tolerance)], looked up
      on the [THREE] namespace object *)
  THREE_mergeVertices : BufferGeometry -> result BufferGeometry;
  (** [new SimplifyModifier().modify(geometry, count)] *)
  modify : BufferGeometry -> num -> result BufferGeometry;
  (** [geometry.computeVertexNormals()], which rewrites the normal attribute *)
  computeVertexNormals : BufferGeometry -> result BufferGeometry
}.

(** Number of iterations of [for (let i = 0; i < bound; i++)]. *)
Definition iterations (bound : num) : nat :=
  match bound with
  | Fin q => Z.to_nat (Qceiling q)
  | _ => 0%nat
  end.

(** ** THREE.Vector3 *)

Section Vectors.
Context (E : Externals).

Definition NaN3 : Vector3 := vec3 NaN NaN NaN.
Definition zero3 : Vector3 := vec3 (Fin 0) (Fin 0) (Fin 0).

Definition subVectors (a b : Vector3) : Vector3 :=
  vec3 (fl_sub (vx a) (vx b)) (fl_sub (vy a) (vy b)) (fl_sub (vz a) (vz b)).

Definition vadd (a b : Vector3) : Vector3 :=
  vec3 (fl_add (vx a) (vx b)) (fl_add (vy a) (vy b)) (fl_add (vz a) (vz b)).

Definition cross (a b : Vector3) : Vector3 :=
  vec3 (fl_sub (fl_mul (vy a) (vz b)) (fl_mul (vz a) (vy b)))
       (fl_sub (fl_mul (vz a) (vx b)) (fl_mul (vx a) (vz b)))
       (fl_sub (fl_mul (vx a) (vy b)) (fl_mul (vy a) (vx b))).

Definition dot (a b : Vector3) : num :=
  fl_add (fl_add (fl_mul (vx a) (vx b)) (fl_mul (vy a) (vy b))) (fl_mul (vz a) (vz b)).

Definition vlength (a : Vector3) : num :=
  Math_sqrt E (fl_add (fl_add (fl_mul (vx a) (vx a)) (fl_mul (vy a) (vy a)))
                      (fl_mul (vz a) (vz a))).

(** [x || 1] on numbers: 0 and NaN are falsy. *)
Definition or_one (a : num) : num :=
  match a with
  | NaN => Fin 1
  | Fin q => if Qeq_bool q 0 then Fin 1 else a
  | _ => a
  end.

Definition multiplyScalar (a : Vector3) (s : num) : Vector3 :=
  vec3 (fl_mul (vx a) s) (fl_mul (vy a) s) (fl_mul (vz a) s).

(** [normalize()] is [divideScalar(length() || 1)], and [divideScalar(s)]
    is [multiplyScalar(1 / s)]. *)
Definition normalize (a : Vector3) : Vector3 :=
  multiplyScalar a (fl_div (Fin 1) (or_one (vlength a))).

(** ** Crease-aware normals *)

(** [pX.fromBufferAttribute(pos, idx)]: reading past the array gives
    [undefined] components, which behave as NaN in the arithmetic. *)
Definition fromBufferAttribute (pos : list Vector3) (idx : option nat) : Vector3 :=
  match idx with
  | Some k => nth k pos NaN3
  | None => NaN3
  end.

(** [vertexFaces[idx].push(i)]; [vertexFaces[idx]] is [undefined] when
    [idx] is [undefined] or not a vertex, and the call throws. *)
Fixpoint push_at {A} (k : nat) (x : A) (l : list (list A)) : result (list (list A)) :=
  match l, k with
  | [], _ => Throw TypeError
  | xs :: rest, O => Ok ((xs ++ [x]) :: rest)
  | xs :: rest, S k' => rest' <- push_at k' x rest ;; Ok (xs :: rest')
  end.

Definition push_face {A} (idx : option nat) (x : A) (l : list (list A))
  : result (list (list A)) :=
  match idx with
  | Some k => push_at k x l
  | None => Throw TypeError
  end.

Definition face_vertex (indices : option (list nat)) (j : nat) : option nat :=
  match indices with
  | Some ix => nth_error ix j
  | None => Some j
  end.

(** The normal of face [i], as the first pass computes it. *)
Definition face_normal_of (pos : list Vector3) (indices : option (list nat)) (i : nat)
  : Vector3 :=
  let idxA := face_vertex indices (i * 3) in
  let idxB := face_vertex indices (i * 3 + 1) in
  let idxC := face_vertex indices (i * 3 + 2) in
  let pA := fromBufferAttribute pos idxA in
  let pB := fromBufferAttribute pos idxB in
  let pC := fromBufferAttribute pos idxC in
  let cb := subVectors pC pB in
  let ab := subVectors pA pB in
  normalize (cross cb ab).

(** One iteration of the first pass, for face [i]. *)
Definition face_pass (pos : list Vector3) (indices : option (list nat))
    (st : list Vector3 * list (list nat)) (i : nat)
  : result (list Vector3 * list (list nat)) :=
  let '(faceNormals, vertexFaces) := st in
  let idxA := face_vertex indices (i * 3) in
  let idxB := face_vertex indices (i * 3 + 1) in
  let idxC := face_vertex indices (i * 3 + 2) in
  let normal := face_normal_of pos indices i in
  vertexFaces1 <- push_face idxA i vertexFaces ;;
  vertexFaces2 <- push_face idxB i vertexFaces1 ;;
  vertexFaces3 <- push_face idxC i vertexFaces2 ;;
  Ok (faceNormals ++ [normal], vertexFaces3).

Fixpoint for_each {S A} (body : S -> A -> result S) (st : S) (l : list A) : result S :=
  match l with
  | [] => Ok st
  | a :: rest => st' <- body st a ;; for_each body st' rest
  end.

Record NormalGroup : Type := mkNormalGroup {
  reference : Vector3;
  normals : list Vector3
}.

(** The inner [for (const group of normalGroups)] with its [break]:
    [Some] of the updated groups when a group took the normal
    ([foundGroup]), [None] otherwise. *)
Fixpoint join_first_group (creaseDot : num) (nrm : Vector3) (normalGroups : list NormalGroup)
  : option (list NormalGroup) :=
  match normalGroups with
  | [] => None
  | group :: rest =>
      if (dot nrm (reference group) >? creaseDot)%num
      then Some (mkNormalGroup (reference group) (normals group ++ [nrm]) :: rest)
      else match join_first_group creaseDot nrm rest with
           | Some rest' => Some (group :: rest')
           | None => None
           end
  end.

Definition group_step (creaseDot : num) (normalGroups : list NormalGroup) (nrm : Vector3)
  : list NormalGroup :=
  match join_first_group creaseDot nrm normalGroups with
  | Some groups' => groups'
  | None => normalGroups ++ [mkNormalGroup nrm [nrm]]
  end.

Definition group_normals (creaseDot : num) (vertexFaceNormals : list Vector3)
  : list NormalGroup :=
  fold_left (group_step creaseDot) vertexFaceNormals [].

(** The scan for the group with most normals; a later group replaces the
    current one only when it is strictly longer. *)
Definition dominant_step (dominantGroup group : NormalGroup) : NormalGroup :=
  if (List.length (normals dominantGroup) <? List.length (normals group))%nat
  then group else dominantGroup.

Definition dominant (first : NormalGroup) (normalGroups : list NormalGroup) : NormalGroup :=
  fold_left dominant_step normalGroups first.

Definition sum_normals (l : list Vector3) : Vector3 := fold_left vadd l zero3.

(** The body of the third pass for one vertex; [None] is the [continue]
    that leaves the zero-initialised entry of the array untouched. *)
Definition vertex_normal (creaseDot : num) (vertexFaceNormals : list Vector3)
  : option Vector3 :=
  match vertexFaceNormals with
  | [] => None
  | _ =>
      match group_normals creaseDot vertexFaceNormals with
      | [] => None
      | (first :: _) as normalGroups =>
          Some (normalize (sum_normals (normals (dominant first normalGroups))))
      end
  end.

(** What the [Float32Array] holds for the vertex: the components of
    [avgNormal] rounded to single precision, or the zeros it was created
    with. *)
Definition stored_normal (creaseDot : num) (vertexFaceNormals : list Vector3) : Vector3 :=
  match vertex_normal creaseDot vertexFaceNormals with
  | Some n => vec3 (Math_fround (vx n)) (Math_fround (vy n)) (Math_fround (vz n))
  | None => zero3
  end.

Definition faceCount_of (pos : list Vector3) (indices : option (list nat)) : num :=
  match indices with
  | Some ix => (of_nat (List.length ix) / Fin 3)%num
  | None => (of_nat (List.length pos) / Fin 3)%num
  end.

(** First and second pass: the face normals gathered at each vertex. *)
Definition collect_vertex_normals (pos : list Vector3) (indices : option (list nat))
  : result (list (list Vector3)) :=
  let faceCount := faceCount_of pos indices in
  st <- for_each (face_pass pos indices)
          ([], repeat [] (List.length pos)) (seq 0 (iterations faceCount)) ;;
  let '(faceNormals, vertexFaces) := st in
  Ok (map (fun faces => map (fun faceIdx => nth faceIdx faceNormals NaN3) faces)
          vertexFaces).

Definition toCreasedNormals (geometry : BufferGeometry) (creaseAngle : num)
  : result BufferGeometry :=
  let creaseDot := cos_degrees E creaseAngle in
  match position geometry with
  | None => Throw TypeError
  | Some pos =>
      vertexNormals <- collect_vertex_normals pos (index geometry) ;;
      Ok (set_normal geometry (map (stored_normal creaseDot) vertexNormals))
  end.

End Vectors.

(** ** Feature-size analysis *)

Record FeatureProfile : Type := mkProfile {
  smallFeatureCount : nat;
  thinFeatureCount : nat;
  totalFeatures : nat;
  smallFeatureRatio : num;
  thinFeatureRatio : num;
  complexityRatio : num;
  geometryComplexity : num;
  isHighDetail : bool
}.

Record DensityEntry : Type := mkEntry {
  entry_count : nat;
  entry_small : bool;
  entry_thin : bool
}.

(** Two numbers print to the same string. *)
Definition same_string (a b : num) : bool :=
  match a, b with
  | NaN, NaN => true
  | _, _ => num_eqb a b
  end.

Definition PosKey : Type := (num * num * num)%type.

Definition posKey_eqb (a b : PosKey) : bool :=
  let '(a1, a2, a3) := a in
  let '(b1, b2, b3) := b in
  same_string a1 b1 && same_string a2 b2 && same_string a3 b3.

(** A number used as an array index: only a non-negative integer names an
    element. *)
Definition num_index (a : num) : option nat :=
  match a with
  | Fin q =>
      if Qeq_bool q (inject_Z (Qfloor q)) && (0 <=? Qfloor q)%Z
      then Some (Z.to_nat (Qfloor q)) else None
  | _ => None
  end.

Definition arr_get {A} (l : list A) (a : num) : option A :=
  match num_index a with
  | Some k => nth_error l k
  | None => None
  end.

Record SampleState : Type := mkSample {
  analyzedTriangles : list num;
  smallCount : nat;
  thinCount : nat;
  totalCount : nat;
  densityMap : list (PosKey * DensityEntry)
}.

(** [densityMap.get(posKey)] after the [has]/[set] that creates a missing
    entry, followed by the updates made through [mapEntry]; the map keeps
    insertion order. *)
Fixpoint density_update (posKey : PosKey) (small thin : bool)
    (m : list (PosKey * DensityEntry)) : list (PosKey * DensityEntry) :=
  match m with
  | [] => [(posKey, mkEntry 1 small thin)]
  | (k, e) :: rest =>
      if posKey_eqb posKey k
      then (k, mkEntry (S (entry_count e)) (entry_small e || small) (entry_thin e || thin))
             :: rest
      else (k, e) :: density_update posKey small thin rest
  end.

Section Analysis.
Context (E : Externals).

(** [Math.pow(a, 2)] *)
Definition pow2 (a : num) : num := fl_mul a a.

Definition distance (p q : Vector3) : num :=
  Math_sqrt E (fl_add (fl_add (pow2 (fl_sub (vx q) (vx p))) (pow2 (fl_sub (vy q) (vy p))))
                      (pow2 (fl_sub (vz q) (vz p)))).

(** The three corners of triangle [faceIndex], as the two branches of the
    sampling loop read them from [positions]. *)
Definition triangle_corners (positions : list Vector3) (indices : option (list nat))
    (faceIndex : num) : Vector3 * Vector3 * Vector3 :=
  match indices with
  | Some ix =>
      let corner k := fromBufferAttribute positions (arr_get ix (faceIndex * Fin 3 + of_nat k)%num) in
      (corner 0%nat, corner 1%nat, corner 2%nat)
  | None =>
      let corner k := fromBufferAttribute positions (num_index (faceIndex * Fin 3 + of_nat k)%num) in
      (corner 0%nat, corner 1%nat, corner 2%nat)
  end.

Record Triangle : Type := mkTriangle {
  side1 : num; side2 : num; side3 : num;
  area : num;
  posKey : PosKey
}.

Definition measure (corners : Vector3 * Vector3 * Vector3) : Triangle :=
  let '(p1, p2, p3) := corners in
  let side1 := distance p1 p2 in
  let side2 := distance p2 p3 in
  let side3 := distance p3 p1 in
  let s := fl_div (fl_add (fl_add side1 side2) side3) (Fin 2) in
  let area :=
    Math_sqrt E (js_max (Fin 0)
                   (fl_mul (fl_mul (fl_mul s (fl_sub s side1)) (fl_sub s side2))
                           (fl_sub s side3))) in
  let centerX := fl_div (fl_add (fl_add (vx p1) (vx p2)) (vx p3)) (Fin 3) in
  let centerY := fl_div (fl_add (fl_add (vy p1) (vy p2)) (vy p3)) (Fin 3) in
  let centerZ := fl_div (fl_add (fl_add (vz p1) (vz p2)) (vz p3)) (Fin 3) in
  mkTriangle side1 side2 side3 area
    (js_round (fl_mul centerX (Fin 100)), js_round (fl_mul centerY (Fin 100)),
     js_round (fl_mul centerZ (Fin 100))).

Definition is_small (smallFeatureThreshold : num) (t : Triangle) : bool :=
  (area t <? fl_mul smallFeatureThreshold smallFeatureThreshold)%num.

Definition is_thin (thinFeatureThreshold : num) (t : Triangle) : bool :=
  let minSide := js_min (js_min (side1 t) (side2 t)) (side3 t) in
  let maxSide := js_max (js_max (side1 t) (side2 t)) (side3 t) in
  let aspectRatio := if (minSide >? Fin 0)%num then fl_div maxSide minSide else PInf in
  (aspectRatio >? Fin 8)%num || (minSide <? thinFeatureThreshold)%num.

(** [Math.floor(Math.random() * triangleCount)] at the [k]-th draw. *)
Definition random_face (triangleCount : num) (k : nat) : num :=
  js_floor (fl_mul (Math_random E k) triangleCount).

(** One iteration of the sampling loop, which takes draw [k]. *)
Definition sample_step (positions : list Vector3) (indices : option (list nat))
    (triangleCount smallFeatureThreshold thinFeatureThreshold : num)
    (st : SampleState) (k : nat) : SampleState :=
  let faceIndex := random_face triangleCount k in
  if existsb (same_string faceIndex) (analyzedTriangles st) then st
  else
    let t := measure (triangle_corners positions indices faceIndex) in
    let small := is_small smallFeatureThreshold t in
    let thin := is_thin thinFeatureThreshold t in
    mkSample (analyzedTriangles st ++ [faceIndex])
             (if small then S (smallCount st) else smallCount st)
             (if thin then S (thinCount st) else thinCount st)
             (S (totalCount st))
             (density_update (posKey t) small thin (densityMap st)).

Definition is_high_detail_area (kv : PosKey * DensityEntry) : bool :=
  (2 <? entry_count (snd kv))%nat && (entry_small (snd kv) || entry_thin (snd kv)).

(** [positions.length / 9] or [indices.length / 3]. *)
Definition triangleCount_of (positions : list Vector3) (indices : option (list nat)) : num :=
  match indices with
  | Some ix => fl_div (of_nat (List.length ix)) (Fin 3)
  | None => fl_div (of_nat (3 * List.length positions)) (Fin 9)
  end.

(** The diagonal of the bounding box, the reference for feature sizes. *)
Definition diagonalLength_of (geometry : BufferGeometry) : num :=
  let size := Box3_size E geometry in
  Math_sqrt E (fl_add (fl_add (fl_mul (vx size) (vx size)) (fl_mul (vy size) (vy size)))
                      (fl_mul (vz size) (vz size))).

Definition smallFeatureThreshold_of (geometry : BufferGeometry) : num :=
  fl_mul (diagonalLength_of geometry) (double 1 1000).

Definition thinFeatureThreshold_of (geometry : BufferGeometry) : num :=
  fl_mul (diagonalLength_of geometry) (double 2 1000).

Definition sample (geometry : BufferGeometry) (positions : list Vector3) (seed : nat)
  : SampleState :=
  let indices := index geometry in
  let triangleCount := triangleCount_of positions indices in
  let sampleSize := js_min (Fin 10000) triangleCount in
  fold_left
    (sample_step positions indices triangleCount
       (smallFeatureThreshold_of geometry) (thinFeatureThreshold_of geometry))
    (seq seed (iterations sampleSize))
    (mkSample [] 0 0 0 []).

(** The triangles the loop analysed: one per distinct face it drew. *)
Definition sampled_triangles (geometry : BufferGeometry) (positions : list Vector3)
    (st : SampleState) : list Triangle :=
  map (fun faceIndex => measure (triangle_corners positions (index geometry) faceIndex))
      (analyzedTriangles st).

(** The statistics computed after the loop, in double arithmetic. *)
Definition profile_of (st : SampleState) : FeatureProfile :=
  let highDetailAreas := List.length (filter is_high_detail_area (densityMap st)) in
  let complexityRatio :=
    fl_div (of_nat highDetailAreas) (js_max (Fin 1) (of_nat (List.length (densityMap st)))) in
  let smallRatio := fl_div (of_nat (smallCount st)) (js_max (Fin 1) (of_nat (totalCount st))) in
  let thinRatio := fl_div (of_nat (thinCount st)) (js_max (Fin 1) (of_nat (totalCount st))) in
  let geometryComplexity :=
    fl_add (fl_add (fl_mul smallRatio (double 6 10)) (fl_mul thinRatio (double 4 10)))
           (fl_mul complexityRatio (double 5 10)) in
  mkProfile (smallCount st) (thinCount st) (totalCount st)
            smallRatio thinRatio complexityRatio
            (js_min (Fin 1) geometryComplexity)
            (geometryComplexity >? double 4 10)%num.

(** [analyzeFeatureSizes(geometry)], whose sampling loop starts at draw
    [seed] of the stream [Math_random]. *)
Definition analyzeFeatureSizes (geometry : BufferGeometry) (seed : nat)
  : result FeatureProfile :=
  match position geometry with
  | None => Throw TypeError
  | Some positions => Ok (profile_of (sample geometry positions seed))
  end.

(** The number of draws the sampling loop of one run of
    [analyzeFeatureSizes] takes from the stream [Math_random]: one for every
    iteration.  The calls of [Math.random] that three.js makes on its own
    account during the run (for the UUIDs of the [THREE.Mesh] built to
    measure the bounding box, of its material and of their parts) are not
    draws of that stream and are not counted here. *)
Definition sampling_draws (geometry : BufferGeometry) : nat :=
  match position geometry with
  | None => 0%nat
  | Some positions =>
      iterations (js_min (Fin 10000) (triangleCount_of positions (index geometry)))
  end.

(** ** Feature-loss comparison *)

Record FeatureLoss : Type := mkLoss {
  featuresLost : bool;
  lossRatio : num;
  smallFeatureLossRatio : num;
  thinFeatureLossRatio : num;
  complexityChangeRatio : num
}.

Definition compare_profiles (originalFeatures simplifiedFeatures : FeatureProfile)
  : FeatureLoss :=
  let smallFeatureLossRatio :=
    (Fin 1 - of_nat (smallFeatureCount simplifiedFeatures)
             / js_max (Fin 1) (of_nat (smallFeatureCount originalFeatures)))%num in
  let thinFeatureLossRatio :=
    (Fin 1 - of_nat (thinFeatureCount simplifiedFeatures)
             / js_max (Fin 1) (of_nat (thinFeatureCount originalFeatures)))%num in
  let complexityChangeRatio :=
    (js_abs (geometryComplexity simplifiedFeatures - geometryComplexity originalFeatures)
     / js_max (dec 1 10) (geometryComplexity originalFeatures))%num in
  let combinedLossRatio :=
    (smallFeatureLossRatio * dec 35 100
     + thinFeatureLossRatio * dec 45 100
     + complexityChangeRatio * dec 2 10)%num in
  let lossThreshold := if isHighDetail originalFeatures then dec 12 100 else dec 18 100 in
  mkLoss (combinedLossRatio >? lossThreshold)%num combinedLossRatio
         smallFeatureLossRatio thinFeatureLossRatio complexityChangeRatio.

Definition checkForLostFeatures (originalGeometry simplifiedGeometry : BufferGeometry)
    (seed : nat) : result FeatureLoss :=
  originalFeatures <- analyzeFeatureSizes originalGeometry seed ;;
  simplifiedFeatures <-
    analyzeFeatureSizes simplifiedGeometry (seed + sampling_draws originalGeometry) ;;
  Ok (compare_profiles originalFeatures simplifiedFeatures).

End Analysis.

(** ** The adaptive simplifier *)

Record OptimizationConfig : Type := mkConfig {
  useDraco : bool;
  useTextureCompression : bool;
  simplifyGeometry : bool;
  removeDuplicates : bool;
  simplificationRatio : num;
  preserveNormals : bool;
  embedImages : bool
}.

Record Mesh : Type := mkMesh { geometry : option BufferGeometry }.

(** What the simplifier writes to the console, one event per decision. *)
Inductive Event : Type :=
| MergeApplied
| MergeSkipped
| MergeError
| CannotReduce
| Attempt (attempt : nat) (targetCount : num)
| RejectedIncrease
| RejectedCreasing
| RejectedQuality (attempt : nat) (distortion hasLostFeatures : bool)
| GaveUp
| Accepted (vertexCount : nat)
| RejectedNoReduction
| AttemptError (attempt : nat)
| Failed
| OuterError.

Record LoopState : Type := mkLoop {
  attempts : nat;
  currentTargetRatio : num;
  currentBestVertexCount : nat;
  meshGeometry : BufferGeometry;
  modified : bool;
  simplificationSuccessful : bool;
  calls : nat;
  console : list Event
}.

Definition say (ev : Event) (st : LoopState) : LoopState :=
  mkLoop (attempts st) (currentTargetRatio st) (currentBestVertexCount st)
         (meshGeometry st) (modified st) (simplificationSuccessful st)
         (calls st) (console st ++ [ev]).

Definition next_attempt (st : LoopState) : LoopState :=
  mkLoop (S (attempts st)) (currentTargetRatio st) (currentBestVertexCount st)
         (meshGeometry st) (modified st) (simplificationSuccessful st)
         (calls st) (console st).

(** [currentTargetRatio = Math.min(currentTargetRatio + step, 0.98)] *)
Definition relax (step : num) (st : LoopState) : LoopState :=
  mkLoop (attempts st) (js_min (currentTargetRatio st + step) (dec 98 100))
         (currentBestVertexCount st) (meshGeometry st) (modified st)
         (simplificationSuccessful st) (calls st) (console st).

Definition spend (n : nat) (st : LoopState) : LoopState :=
  mkLoop (attempts st) (currentTargetRatio st) (currentBestVertexCount st)
         (meshGeometry st) (modified st) (simplificationSuccessful st)
         (calls st + n) (console st).

(** The assignments of a successful attempt. *)
Definition accept (g : BufferGeometry) (vertexCount : nat) (st : LoopState) : LoopState :=
  mkLoop (attempts st) (currentTargetRatio st) vertexCount g true true
         (calls st) (console st).

(** How the [while] loop is left: by running out ([LoopEnd], also [break]
    and success) or through a [return] inside it. *)
Inductive LoopExit : Type :=
| LoopEnd
| Return (value : bool).

(** What a call did: the mesh as it is left, the console, and the value
    returned or the exception thrown to the caller. *)
Record Run : Type := mkRun {
  mesh_after : Mesh;
  run_console : list Event;
  returned : result bool
}.

Section Simplifier.
Context (E : Externals).

(** Draws taken by the two sampling loops of [checkForLostFeatures]. *)
Definition checkForLostFeatures_calls (originalGeometry simplifiedGeometry : BufferGeometry)
  : nat :=
  match position originalGeometry with
  | None => 0%nat
  | Some _ => (sampling_draws originalGeometry + sampling_draws simplifiedGeometry)%nat
  end.

Definition targetCount_of (originalVertexCount : nat) (st : LoopState) : num :=
  js_min (js_floor (of_nat originalVertexCount * currentTargetRatio st))
         (of_nat (currentBestVertexCount st) - Fin 1)%num.

(** [Math.abs(newSize.x / originalSize.x - 1) > distortionThreshold || ...] *)
Definition distorted (distortionThreshold : num) (originalSize newSize : Vector3) : bool :=
  (js_abs (vx newSize / vx originalSize - Fin 1) >? distortionThreshold)%num
  || (js_abs (vy newSize / vy originalSize - Fin 1) >? distortionThreshold)%num
  || (js_abs (vz newSize / vz originalSize - Fin 1) >? distortionThreshold)%num.

Definition creaseAngle_of (meshAnalysis : FeatureProfile) : num :=
  if (geometryComplexity meshAnalysis >? dec 5 10)%num then dec 25 10 else Fin 3.

(** *** [simplifyMesh] of ThreeJsUtils.jsx *)

Definition MAX_ATTEMPTS : nat := 10.

Definition simplificationFactor_of (meshAnalysis : FeatureProfile)
    (optimizationConfig : OptimizationConfig) : num :=
  if (geometryComplexity meshAnalysis >? dec 7 10)%num
  then (dec 15 100 * simplificationRatio optimizationConfig)%num
  else if (geometryComplexity meshAnalysis >? dec 4 10)%num
  then (dec 3 10 * simplificationRatio optimizationConfig)%num
  else (dec 7 10 * simplificationRatio optimizationConfig)%num.

Definition targetRatio_of (meshAnalysis : FeatureProfile)
    (optimizationConfig : OptimizationConfig) : num :=
  js_max (Fin 1 - simplificationFactor_of meshAnalysis optimizationConfig) (dec 6 10).

Definition distortionThreshold_of (meshAnalysis : FeatureProfile) : num :=
  if isHighDetail meshAnalysis then dec 1 100 else dec 2 100.

Definition featureLossThreshold_of (meshAnalysis : FeatureProfile) : num :=
  if isHighDetail meshAnalysis then dec 1 10 else dec 15 100.

Definition hasLostFeatures_of (meshAnalysis : FeatureProfile) (featureAnalysis : FeatureLoss)
  : bool :=
  (lossRatio featureAnalysis >? featureLossThreshold_of meshAnalysis)%num.

(** The candidate of one attempt, after the material groups are restored
    and the normals recomputed. *)
Definition prepare (originalMaterialGroups : option (list Group))
    (meshAnalysis : FeatureProfile) (simplified : BufferGeometry) : result BufferGeometry :=
  restored <- restoreMaterialGroups simplified originalMaterialGroups ;;
  shaded <- computeVertexNormals E restored ;;
  toCreasedNormals E shaded (creaseAngle_of meshAnalysis).

(** The [while] loop; [fuel] is [MAX_ATTEMPTS - attempts]. *)
Fixpoint simplify_loop (originalGeometry : BufferGeometry) (originalVertexCount : nat)
    (originalMaterialGroups : option (list Group)) (meshAnalysis : FeatureProfile)
    (fuel : nat) (st : LoopState) : LoopState * result LoopExit :=
  match fuel with
  | O => (st, Ok LoopEnd)
  | S fuel' =>
      let again := simplify_loop originalGeometry originalVertexCount
                     originalMaterialGroups meshAnalysis fuel' in
      let st := next_attempt st in
      let targetCount := targetCount_of originalVertexCount st in
      if (targetCount >=? of_nat (currentBestVertexCount st))%num
      then (say CannotReduce st, Ok LoopEnd)
      else
        let st := say (Attempt (attempts st) targetCount) st in
        match modify E originalGeometry targetCount with
        | Throw e => (st, Throw e)
        | Ok simplified =>
        match position_count simplified with
        | Throw e => (st, Throw e)
        | Ok simplifiedCount =>
            if (originalVertexCount <=? simplifiedCount)%nat
            then again (relax (dec 1 10) (say RejectedIncrease st))
            else
              match prepare originalMaterialGroups meshAnalysis simplified with
              | Throw e => (st, Throw e)
              | Ok creased =>
              match position_count creased with
              | Throw e => (st, Throw e)
              | Ok creasedCount =>
                  if (originalVertexCount <? creasedCount)%nat
                  then again (relax (dec 1 10) (say RejectedCreasing st))
                  else
                    let distortion :=
                      distorted (distortionThreshold_of meshAnalysis)
                                (Box3_size E originalGeometry) (Box3_size E creased) in
                    match checkForLostFeatures E originalGeometry creased (calls st) with
                    | Throw e => (st, Throw e)
                    | Ok featureAnalysis =>
                        let st := spend (checkForLostFeatures_calls originalGeometry creased) st in
                        let hasLostFeatures := hasLostFeatures_of meshAnalysis featureAnalysis in
                        if distortion || hasLostFeatures
                        then
                          let st := relax (dec 5 100)
                                      (say (RejectedQuality (attempts st) distortion hasLostFeatures) st) in
                          if (currentTargetRatio st >? dec 9 10)%num
                          then (say GaveUp st, Ok (Return (modified st)))
                          else again st
                        else if (creasedCount <? currentBestVertexCount st)%nat
                        then (say (Accepted creasedCount) (accept creased creasedCount st),
                              Ok LoopEnd)
                        else again (relax (dec 5 100) (say RejectedNoReduction st))
                    end
              end
              end
        end
        end
  end.

(** The [removeDuplicates] block: the geometry the mesh holds afterwards,
    the best vertex count, [modified], and the console line. *)
Definition dedup (geometry0 : BufferGeometry) (currentBestVertexCount : nat)
  : BufferGeometry * nat * bool * list Event :=
  match (merged <- mergeVertices E geometry0 ;;
         mergedCount <- position_count merged ;;
         Ok (merged, mergedCount)) with
  | Ok (merged, mergedCount) =>
      if (mergedCount <=? currentBestVertexCount)%nat
      then (merged, mergedCount, true, [MergeApplied])
      else (geometry0, currentBestVertexCount, false, [MergeSkipped])
  | Throw _ => (geometry0, currentBestVertexCount, false, [MergeError])
  end.

(** The body of the outer [try] block. *)
Definition simplify_body (originalGeometry : BufferGeometry) (originalVertexCount : nat)
    (optimizationConfig : OptimizationConfig) (st : LoopState)
  : LoopState * result bool :=
  match position (meshGeometry st) with
  | None => (st, Ok (modified st))
  | Some _ =>
      let originalMaterialGroups := preserveMaterialGroups (meshGeometry st) in
      match computeVertexNormals E (meshGeometry st) with
      | Throw e => (st, Throw e)
      | Ok shaded =>
          let st := mkLoop (attempts st) (currentTargetRatio st)
                      (currentBestVertexCount st) shaded (modified st)
                      (simplificationSuccessful st) (calls st) (console st) in
          match analyzeFeatureSizes E shaded (calls st) with
          | Throw e => (st, Throw e)
          | Ok meshAnalysis =>
              let st := spend (sampling_draws shaded) st in
              let targetRatio := targetRatio_of meshAnalysis optimizationConfig in
              let st := mkLoop 0 targetRatio (currentBestVertexCount st)
                          (meshGeometry st) (modified st) false (calls st) (console st) in
              match simplify_loop originalGeometry originalVertexCount
                      originalMaterialGroups meshAnalysis MAX_ATTEMPTS st with
              | (st', Throw e) => (st', Throw e)
              | (st', Ok (Return value)) => (st', Ok value)
              | (st', Ok LoopEnd) =>
                  if simplificationSuccessful st'
                  then (st', Ok (modified st'))
                  else (say Failed st', Ok (modified st'))
              end
          end
      end
  end.

(** [simplifyMesh(mesh, optimizationConfig)], entered when the sampling
    loops have taken [seed] draws. *)
Definition simplifyMesh (mesh : Mesh) (optimizationConfig : OptimizationConfig)
    (seed : nat) : Run :=
  match geometry mesh with
  | None => mkRun mesh [] (Ok false)
  | Some geometry0 =>
      if negb (simplifyGeometry optimizationConfig) then mkRun mesh [] (Ok false)
      else
        let originalGeometry := geometry0 in
        match position_count originalGeometry with
        | Throw e => mkRun mesh [] (Throw e)
        | Ok originalVertexCount =>
            let '(geometry1, best, modified1, said) :=
              if removeDuplicates optimizationConfig
              then dedup geometry0 originalVertexCount
              else (geometry0, originalVertexCount, false, []) in
            if negb (simplifyGeometry optimizationConfig)
            then mkRun (mkMesh (Some geometry1)) said (Ok modified1)
            else
              let st := mkLoop 0 (Fin 0) best geometry1 modified1 false seed said in
              match simplify_body originalGeometry originalVertexCount optimizationConfig st with
              | (st', Ok value) =>
                  mkRun (mkMesh (Some (meshGeometry st'))) (console st') (Ok value)
              | (st', Throw _) =>
                  mkRun (mkMesh (Some (meshGeometry st'))) (console st' ++ [OuterError])
                        (Ok false)
              end
        end
  end.

End Simplifier.

(** *** [simplifyMesh] of simplifyMeshworker.js *)

Module Worker.
Section Simplifier.
Context (E : Externals).

Definition MAX_ATTEMPTS : nat := 5.

Definition simplificationFactor_of (meshAnalysis : FeatureProfile)
    (optimizationConfig : OptimizationConfig) : num :=
  if (geometryComplexity meshAnalysis >? dec 7 10)%num
  then (dec 85 100 * simplificationRatio optimizationConfig)%num
  else if (geometryComplexity meshAnalysis >? dec 4 10)%num
  then (dec 95 100 * simplificationRatio optimizationConfig)%num
  else (dec 98 100 * simplificationRatio optimizationConfig)%num.

Definition targetRatio_of (meshAnalysis : FeatureProfile)
    (optimizationConfig : OptimizationConfig) : num :=
  js_max (Fin 1 - simplificationFactor_of meshAnalysis optimizationConfig) (dec 1 10).

Definition distortionThreshold_of (meshAnalysis : FeatureProfile) : num :=
  if isHighDetail meshAnalysis then dec 1 10 else dec 15 100.

Definition featureLossThreshold_of (meshAnalysis : FeatureProfile) : num :=
  if isHighDetail meshAnalysis then dec 5 10 else dec 6 10.

Definition hasLostFeatures_of (meshAnalysis : FeatureProfile) (featureAnalysis : FeatureLoss)
  : bool :=
  (lossRatio featureAnalysis >? featureLossThreshold_of meshAnalysis)%num.

Definition has_normal (g : BufferGeometry) : bool :=
  match normal g with Some _ => true | None => false end.

(** The candidate after the groups are restored.  When the normals are to
    be recomputed the block ends with [simplified = creased], an
    assignment to a [const] binding, which throws. *)
Definition prepare (optimizationConfig : OptimizationConfig)
    (originalMaterialGroups : option (list Group))
    (meshAnalysis : FeatureProfile) (simplified : BufferGeometry) : result BufferGeometry :=
  restored <- match originalMaterialGroups with
              | Some _ => restoreMaterialGroups simplified originalMaterialGroups
              | None => Ok simplified
              end ;;
  if negb (preserveNormals optimizationConfig) || negb (has_normal restored)
  then
    shaded <- computeVertexNormals E restored ;;
    creased <- toCreasedNormals E shaded (creaseAngle_of meshAnalysis) ;;
    Throw TypeError
  else Ok restored.

(** Copying the accepted candidate into [geometry], attribute by
    attribute; an attribute the candidate lacks keeps its old value. *)
Definition copy_into (geometry0 simplified : BufferGeometry) : BufferGeometry :=
  mkGeometry
    (position simplified)
    (match normal simplified with Some n => Some n | None => normal geometry0 end)
    (match uv simplified with Some t => Some t | None => uv geometry0 end)
    (match index simplified with Some ix => Some ix | None => index geometry0 end)
    (match groups simplified with
     | [] => groups geometry0
     | gs => map (fun g => mkGroup (json_num (start g)) (json_num (count g))
                                   (materialIndex g)) gs
     end).

Inductive Verdict : Type :=
| Rejected (step : num) (ev : Event)
| Take (simplified : BufferGeometry) (vertexCount : nat).

(** The inner [try] block of one attempt; the second component counts the
    draws its sampling loops took. *)
Definition attempt (optimizationConfig : OptimizationConfig)
    (originalGeometry : BufferGeometry) (originalVertexCount : nat)
    (originalMaterialGroups : option (list Group)) (meshAnalysis : FeatureProfile)
    (targetCount : num) (st : LoopState) : result Verdict * nat :=
  match (simplified <- modify E originalGeometry targetCount ;;
         simplifiedCount <- position_count simplified ;;
         Ok (simplified, simplifiedCount)) with
  | Throw e => (Throw e, 0%nat)
  | Ok (simplified, simplifiedCount) =>
      if (originalVertexCount <=? simplifiedCount)%nat
      then (Ok (Rejected (dec 2 100) RejectedIncrease), 0%nat)
      else
        match prepare optimizationConfig originalMaterialGroups meshAnalysis simplified with
        | Throw e => (Throw e, 0%nat)
        | Ok candidate =>
            let distortion :=
              distorted (distortionThreshold_of meshAnalysis)
                        (Box3_size E originalGeometry) (Box3_size E candidate) in
            let spent := checkForLostFeatures_calls originalGeometry candidate in
            match checkForLostFeatures E originalGeometry candidate (calls st) with
            | Throw e => (Throw e, spent)
            | Ok featureAnalysis =>
                let hasLostFeatures := hasLostFeatures_of meshAnalysis featureAnalysis in
                if distortion || hasLostFeatures
                then (Ok (Rejected (dec 5 100)
                            (RejectedQuality (attempts st) distortion hasLostFeatures)), spent)
                else
                  match position_count candidate with
                  | Throw e => (Throw e, spent)
                  | Ok candidateCount =>
                      if (candidateCount <? currentBestVertexCount st)%nat
                      then (Ok (Take candidate candidateCount), spent)
                      else (Ok (Rejected (dec 2 100) RejectedNoReduction), spent)
                  end
            end
        end
  end.

(** The [while] loop; [fuel] is [MAX_ATTEMPTS - attempts]. *)
Fixpoint simplify_loop (optimizationConfig : OptimizationConfig)
    (originalGeometry : BufferGeometry) (originalVertexCount : nat)
    (originalMaterialGroups : option (list Group)) (meshAnalysis : FeatureProfile)
    (fuel : nat) (st : LoopState) : LoopState :=
  match fuel with
  | O => st
  | S fuel' =>
      let again := simplify_loop optimizationConfig originalGeometry originalVertexCount
                     originalMaterialGroups meshAnalysis fuel' in
      let st := next_attempt st in
      let targetCount := targetCount_of originalVertexCount st in
      if (targetCount >=? of_nat (currentBestVertexCount st))%num
      then say CannotReduce st
      else
        let st := say (Attempt (attempts st) targetCount) st in
        match attempt optimizationConfig originalGeometry originalVertexCount
                originalMaterialGroups meshAnalysis targetCount st with
        | (Throw _, spent) =>
            again (relax (dec 1 10) (say (AttemptError (attempts st)) (spend spent st)))
        | (Ok (Rejected step ev), spent) =>
            again (relax step (say ev (spend spent st)))
        | (Ok (Take simplified vertexCount), spent) =>
            let st := spend spent st in
            say (Accepted vertexCount)
                (accept (copy_into (meshGeometry st) simplified) vertexCount st)
        end
  end.

(** The [removeDuplicates] block, which copies the merged attributes into
    [geometry]. *)
Definition dedup (geometry0 : BufferGeometry) (currentBestVertexCount : nat)
  : BufferGeometry * nat * bool * list Event :=
  match (merged <- THREE_mergeVertices E geometry0 ;;
         mergedCount <- position_count merged ;;
         Ok (merged, mergedCount)) with
  | Ok (merged, mergedCount) =>
      if (mergedCount <=? currentBestVertexCount)%nat
      then (mkGeometry (position merged)
              (match normal merged with Some n => Some n | None => normal geometry0 end)
              (match uv merged with Some t => Some t | None => uv geometry0 end)
              (match index merged with Some ix => Some ix | None => index geometry0 end)
              (groups geometry0),
            mergedCount, true, [MergeApplied])
      else (geometry0, currentBestVertexCount, false, [MergeSkipped])
  | Throw _ => (geometry0, currentBestVertexCount, false, [MergeError])
  end.

(** The body of the outer [try] block. *)
Definition simplify_body (originalGeometry : BufferGeometry) (originalVertexCount : nat)
    (optimizationConfig : OptimizationConfig) (st : LoopState)
  : LoopState * result bool :=
  let originalMaterialGroups := preserveMaterialGroups originalGeometry in
  match (if negb (preserveNormals optimizationConfig) || negb (has_normal (meshGeometry st))
         then computeVertexNormals E (meshGeometry st)
         else Ok (meshGeometry st)) with
  | Throw e => (st, Throw e)
  | Ok shaded =>
      let st := mkLoop (attempts st) (currentTargetRatio st)
                  (currentBestVertexCount st) shaded (modified st)
                  (simplificationSuccessful st) (calls st) (console st) in
      match analyzeFeatureSizes E shaded (calls st) with
      | Throw e => (st, Throw e)
      | Ok meshAnalysis =>
          let st := spend (sampling_draws shaded) st in
          let targetRatio := targetRatio_of meshAnalysis optimizationConfig in
          let st := mkLoop 0 targetRatio (currentBestVertexCount st)
                      (meshGeometry st) (modified st) false (calls st) (console st) in
          let st' := simplify_loop optimizationConfig originalGeometry originalVertexCount
                       originalMaterialGroups meshAnalysis MAX_ATTEMPTS st in
          if negb (simplificationSuccessful st') && (MAX_ATTEMPTS <=? attempts st')%nat
          then (say Failed st', Ok (modified st'))
          else (st', Ok (modified st'))
      end
  end.

(** [simplifyMesh(geometry, optimizationConfig)] of the worker, entered
    when the sampling loops have taken [seed] draws; [geometry mesh] is its
    first argument. *)
Definition simplifyMesh (mesh : Mesh) (optimizationConfig : OptimizationConfig)
    (seed : nat) : Run :=
  match geometry mesh with
  | None => mkRun mesh [] (Ok false)
  | Some geometry0 =>
      match position_count geometry0 with
      | Throw _ => mkRun mesh [] (Ok false)
      | Ok originalVertexCount =>
          let originalGeometry := geometry0 in
          let '(geometry1, best, modified1, said) :=
            if removeDuplicates optimizationConfig
            then dedup geometry0 originalVertexCount
            else (geometry0, originalVertexCount, false, []) in
          if negb (simplifyGeometry optimizationConfig)
          then mkRun (mkMesh (Some geometry1)) said (Ok modified1)
          else
            let st := mkLoop 0 (Fin 0) best geometry1 modified1 false seed said in
            match simplify_body originalGeometry originalVertexCount optimizationConfig st with
            | (st', Ok value) =>
                mkRun (mkMesh (Some (meshGeometry st'))) (console st') (Ok value)
            | (st', Throw _) =>
                mkRun (mkMesh (Some (meshGeometry st'))) (console st' ++ [OuterError])
                      (Ok false)
            end
      end
  end.

End Simplifier.
End Worker.

(** ** Export candidate search and the optimization result *)

Record File : Type := mkFile {
  file_name : string;
  content : list Byte.byte
}.

Definition file_size (f : File) : nat := List.length (content f).

(** What [exporter.parse] hands to its callback. *)
Inductive ExportResult : Type :=
| ArrayBuffer (bytes : list Byte.byte)
| JsString (text : string)
| JsObject (id : nat).

Record DracoOptions : Type := mkDraco {
  compressionLevel : nat;
  quantizePosition : nat;
  quantizeNormal : nat;
  quantizeTexcoord : nat;
  quantizeColor : nat;
  quantizeSkin : nat
}.

Record ExportOptions : Type := mkOptions {
  binary : bool;
  opt_embedImages : option bool;
  (** [truncateDrawRange], [includeCustomExtensions] and [forceIndices],
      which the source always sets together *)
  full_options : bool;
  draco : option DracoOptions
}.

Record ExportConfiguration : Type := mkExport {
  config_name : string;
  options : ExportOptions
}.

Record Material : Type := mkMaterial {
  (** width and height of [mat.map.image], when the material has one *)
  map_image : option (num * num)
}.

Record SceneMesh : Type := mkSceneMesh {
  mesh_geometry : option BufferGeometry;
  mesh_materials : list Material
}.

(** The [THREE.Mesh] objects of a scene, in traversal order. *)
Definition Scene : Type := list SceneMesh.

Record Browser : Type := mkBrowser {
  (** [file.arrayBuffer()] *)
  arrayBuffer : File -> result (list Byte.byte);
  (** [GLTFLoader.load] on the object URL of the file *)
  load : File -> result Scene;
  (** the per-mesh loop of [optimizeModels] (worker dispatch with its
      fallback, texture compression, material conversion): the scene it
      leaves and [anyOptimizationApplied] *)
  mesh_pass : Scene -> OptimizationConfig -> result (Scene * bool);
  (** [exporter.parse(scene, resolve, reject, options)] *)
  exporter_parse : Scene -> ExportOptions -> result ExportResult;
  (** [JSON.stringify(result)] *)
  JSON_stringify : ExportResult -> result string;
  (** [JSON.stringify(JSON.parse(text))] *)
  JSON_reprint : string -> result string
}.

Record OptimizationResult : Type := mkResult {
  originalSize : num;
  optimizedSize : num;
  optimizedBlob : list Byte.byte;
  (** [originalVertexCount], [originalPolyCount], [optimizedVertexCount],
      [optimizedPolyCount]; absent from the records of the recovery path *)
  model_counts : option (nat * num * nat * num)
}.

(** [s.endsWith(suffix)] *)
Definition endsWith (s suffix : string) : bool :=
  (String.length suffix <=? String.length s)%nat
  && String.eqb (substring (String.length s - String.length suffix)
                           (String.length suffix) s) suffix.

(** [view.getUint32(offset, true)] *)
Definition getUint32 (buffer : list Byte.byte) (offset : nat) : result N :=
  match skipn offset buffer with
  | b0 :: b1 :: b2 :: b3 :: _ =>
      Ok (Byte.to_N b0 + 256 * (Byte.to_N b1 + 256 * (Byte.to_N b2 + 256 * Byte.to_N b3)))%N
  | _ => Throw RangeError
  end.

(** [buffer.slice(0, stop)] for a non-negative [stop] *)
Definition slice0 (buffer : list Byte.byte) (stop : nat) : list Byte.byte :=
  firstn stop buffer.

Definition is_space (c : ascii) : bool :=
  let n := nat_of_ascii c in
  ((9 <=? n) && (n <=? 13) || (n =? 32))%nat.

(** [text.replace(/\s+/g, '')] on ASCII text *)
Fixpoint strip_whitespace (text : string) : string :=
  match text with
  | EmptyString => EmptyString
  | String c rest =>
      if is_space c then strip_whitespace rest else String c (strip_whitespace rest)
  end.

Definition high_draco : DracoOptions := mkDraco 9 14 10 12 10 10.
Definition compatible_draco : DracoOptions := mkDraco 7 11 8 10 8 8.

Record Best : Type := mkBest {
  bestResult : option ExportResult;
  bestSize : num;
  bestConfigName : string;
  dracoApplied : bool
}.

Section ExportSearch.
Context (B : Browser).

(** The GLB branch of [applyMinimalCompression]. *)
Definition trim_glb (buffer : list Byte.byte) : result (option (list Byte.byte)) :=
  magic <- getUint32 buffer 0 ;;
  if (magic =? 0x46546C67)%N
  then
    length <- getUint32 buffer 8 ;;
    Ok (Some (slice0 buffer (12 + N.to_nat length)))
  else Ok None.

(** The glTF branch: [None] when [JSON.parse] rejects the text. *)
Definition minify_gltf (buffer : list Byte.byte) : option (list Byte.byte) :=
  match JSON_reprint B (string_of_list_byte buffer) with
  | Ok minified => Some (list_byte_of_string minified)
  | Throw _ => None
  end.

(** The last resort of [applyMinimalCompression]: the first 98% of the
    bytes. *)
Definition truncated (buffer : list Byte.byte) : list Byte.byte :=
  match js_floor (of_nat (List.length buffer) * dec 98 100) with
  | Fin q => slice0 buffer (Z.to_nat (Qfloor q))
  | _ => buffer
  end.

(** The body of the [try] block of [applyMinimalCompression]: [Some] of
    the blob it returns, [None] when control falls out of it. *)
Definition compress_known (name : string) (buffer : list Byte.byte)
  : result (option (list Byte.byte)) :=
  trimmed <- (if endsWith name ".glb" then trim_glb buffer else Ok None) ;;
  match trimmed with
  | Some blob => Ok (Some blob)
  | None => if endsWith name ".gltf" then Ok (minify_gltf buffer) else Ok None
  end.

Definition applyMinimalCompression (file : File) : result (list Byte.byte) :=
  buffer <- arrayBuffer B file ;;
  let attempt :=
    if endsWith (file_name file) ".glb" || endsWith (file_name file) ".gltf"
    then try_catch (compress_known (file_name file) buffer) (fun _ => Ok None)
    else Ok None in
  found <- attempt ;;
  match found with
  | Some blob => Ok blob
  | None => Ok (truncated buffer)
  end.

(** The first traversal of the scene: vertex count, triangle count and
    texture payload in megabytes. *)
Definition mesh_vertices (m : SceneMesh) : nat :=
  match mesh_geometry m with
  | Some g => match position g with Some p => List.length p | None => 0%nat end
  | None => 0%nat
  end.

Definition mesh_polys (m : SceneMesh) : num :=
  match mesh_geometry m with
  | Some g =>
      match index g, position g with
      | Some ix, _ => (of_nat (List.length ix) / Fin 3)%num
      | None, Some p => (of_nat (List.length p) / Fin 3)%num
      | None, None => Fin 0
      end
  | None => Fin 0
  end.

Definition material_megabytes (mat : Material) : num :=
  match map_image mat with
  | Some (width, height) => (width * height * Fin 4 / (Fin 1024 * Fin 1024))%num
  | None => Fin 0
  end.

Definition mesh_texture (m : SceneMesh) : num :=
  match mesh_geometry m with
  | Some _ => fold_left (fun acc mat => (acc + material_megabytes mat)%num)
                        (mesh_materials m) (Fin 0)
  | None => Fin 0
  end.

Definition vertexCount_of (s : Scene) : nat :=
  fold_left (fun acc m => (acc + mesh_vertices m)%nat) s 0%nat.

Definition polyCount_of (s : Scene) : num :=
  fold_left (fun acc m => (acc + mesh_polys m)%num) s (Fin 0).

Definition totalTextureSize_of (s : Scene) : num :=
  fold_left (fun acc m => (acc + mesh_texture m)%num) s (Fin 0).

Definition full (embed : bool) (d : option DracoOptions) : ExportOptions :=
  mkOptions true (Some embed) true d.

Definition exportConfigurations (shouldUseDraco shouldEmbedImages : bool)
    (totalTextureSize : num) : list ExportConfiguration :=
  (if shouldUseDraco
   then [ mkExport "Draco compression" (full shouldEmbedImages (Some high_draco));
          mkExport "Compatible Draco compression"
                   (full shouldEmbedImages (Some compatible_draco)) ]
   else [])
  ++ [ mkExport "Binary encoding without Draco" (full shouldEmbedImages None) ]
  ++ (if (totalTextureSize >? Fin 1)%num
      then [ mkExport "With aggressive texture compression" (full true None) ]
      else []).

(** [result instanceof ArrayBuffer ? result.byteLength
      : new TextEncoder().encode(JSON.stringify(result)).length] *)
Definition measured_size (r : ExportResult) : result num :=
  match r with
  | ArrayBuffer bytes => Ok (of_nat (List.length bytes))
  | other => text <- JSON_stringify B other ;; Ok (of_nat (String.length text))
  end.

Definition has_draco (o : ExportOptions) : bool :=
  match draco o with Some _ => true | None => false end.

(** The loop over the export configurations. *)
Fixpoint search (scene : Scene) (originalSize : num)
    (configs : list ExportConfiguration) (b : Best) : Best :=
  match configs with
  | [] => b
  | config :: rest =>
      match (r <- exporter_parse B scene (options config) ;;
             size <- measured_size r ;;
             Ok (r, size)) with
      | Throw _ => search scene originalSize rest b
      | Ok (r, size) =>
          let applied :=
            if has_draco (options config) && (size <? PInf)%num
            then true else dracoApplied b in
          if (size <? bestSize b)%num
          then
            let b' := mkBest (Some r) size (config_name config) applied in
            if (size <? originalSize * dec 7 10)%num then b'
            else search scene originalSize rest b'
          else search scene originalSize rest
                 (mkBest (bestResult b) (bestSize b) (bestConfigName b) applied)
      end
  end.

(** The blob built from an export result. *)
Definition blob_of (r : ExportResult) : result (list Byte.byte) :=
  match r with
  | ArrayBuffer bytes => Ok bytes
  | JsString text => Ok (list_byte_of_string text)
  | other => text <- JSON_stringify B other ;; Ok (list_byte_of_string text)
  end.

Definition basic_options (optimizationConfig : OptimizationConfig) : ExportOptions :=
  if useDraco optimizationConfig
  then mkOptions true None false (Some compatible_draco)
  else mkOptions true None false None.

(** The branch without a best result: one more export, and the minified
    JSON text when that is no smaller than the file. *)
Definition basic_export (scene : Scene) (optimizationConfig : OptimizationConfig)
    (originalSize : num) (anyOptimizationApplied : bool)
  : result (list Byte.byte * num) :=
  basicResult <- exporter_parse B scene (basic_options optimizationConfig) ;;
  blob <- blob_of basicResult ;;
  size <- match basicResult with
          | ArrayBuffer bytes => Ok (of_nat (List.length bytes))
          | JsString text => Ok (of_nat (String.length text))
          | other => text <- JSON_stringify B other ;; Ok (of_nat (String.length text))
          end ;;
  if (size >=? originalSize)%num && anyOptimizationApplied
  then
    match JSON_stringify B basicResult with
    | Ok text =>
        let minifiedResult := strip_whitespace text in
        Ok (list_byte_of_string minifiedResult, of_nat (String.length minifiedResult))
    | Throw _ => Ok (blob, size)
    end
  else Ok (blob, size).

Definition isModelSmall_of (originalVertexCount : nat) (originalSize : num) : bool :=
  (originalVertexCount <? 5000)%nat || (originalSize <? Fin 1 * Fin 1024 * Fin 1024)%num.

(** The forced minimum reduction reported for Draco exports. *)
Definition draco_floor (optimizationConfig : OptimizationConfig) (applied isModelSmall : bool)
    (originalSize bestSize : num) : num :=
  if useDraco optimizationConfig && applied && (bestSize >? originalSize * dec 9 10)%num
  then
    let guaranteedReduction := if isModelSmall then dec 5 100 else dec 15 100 in
    (originalSize * (Fin 1 - guaranteedReduction))%num
  else bestSize.

(** The body of the [try] block run for one file. *)
Definition optimize_loaded (file : File) (optimizationConfig : OptimizationConfig)
  : result OptimizationResult :=
  let originalSize := of_nat (file_size file) in
  loadedScene <- load B file ;;
  let originalVertexCount := vertexCount_of loadedScene in
  let originalPolyCount := polyCount_of loadedScene in
  let totalTextureSize := totalTextureSize_of loadedScene in
  let isModelSmall := isModelSmall_of originalVertexCount originalSize in
  let hasLargeTextures := (totalTextureSize >? Fin 5)%num in
  let shouldUseDraco := useDraco optimizationConfig in
  let shouldEmbedImages := embedImages optimizationConfig && negb hasLargeTextures in
  passed <- mesh_pass B loadedScene optimizationConfig ;;
  let '(scene, anyOptimizationApplied0) := passed in
  let optimizedVertexCount := vertexCount_of scene in
  let optimizedPolyCount := polyCount_of scene in
  let best := search scene originalSize
                (exportConfigurations shouldUseDraco shouldEmbedImages totalTextureSize)
                (mkBest None PInf "" false) in
  let anyOptimizationApplied :=
    if useDraco optimizationConfig && dracoApplied best
    then true else anyOptimizationApplied0 in
  let smaller :=
    match bestResult best with
    | Some _ => (bestSize best <? originalSize)%num
    | None => false
    end in
  if smaller || anyOptimizationApplied
  then
    exported <- match bestResult best with
                | Some r => blob <- blob_of r ;; Ok (blob, bestSize best)
                | None => basic_export scene optimizationConfig originalSize
                            anyOptimizationApplied
                end ;;
    let '(optimizedBlob, bestSize1) := exported in
    let bestSize2 := draco_floor optimizationConfig (dracoApplied best) isModelSmall
                       originalSize bestSize1 in
    let finalSize := js_min bestSize2 (originalSize * dec 98 100)%num in
    Ok (mkResult originalSize finalSize optimizedBlob
          (Some (originalVertexCount, js_round originalPolyCount,
                 optimizedVertexCount, js_round optimizedPolyCount)))
  else
    compressedBlob <- applyMinimalCompression file ;;
    Ok (mkResult originalSize (of_nat (List.length compressedBlob)) compressedBlob
          (Some (originalVertexCount, js_round originalPolyCount,
                 originalVertexCount, js_round originalPolyCount))).

(** One iteration of the loop over the files, with its two nested
    [catch] blocks. *)
Definition optimizeFile (file : File) (optimizationConfig : OptimizationConfig)
  : OptimizationResult :=
  let originalSize := of_nat (file_size file) in
  match optimize_loaded file optimizationConfig with
  | Ok r => r
  | Throw _ =>
      match applyMinimalCompression file with
      | Ok compressedBlob =>
          mkResult originalSize (of_nat (List.length compressedBlob)) compressedBlob None
      | Throw _ =>
          mkResult originalSize (originalSize * dec 98 100)%num (content file) None
      end
  end.

Definition default_config : OptimizationConfig :=
  mkConfig false false false false (dec 1 10) true false.

Fixpoint optimize_files (files : list File) (configs : list OptimizationConfig)
  : list OptimizationResult :=
  match files with
  | [] => []
  | file :: rest =>
      optimizeFile file (match configs with c :: _ => c | [] => default_config end)
        :: optimize_files rest (tl configs)
  end.

(** [optimizeModels]: the [optimizedModels] it returns, [None] for the
    early [return] on an empty file list. *)
Definition optimizeModels (files : list File) (configs : list OptimizationConfig)
  : option (list OptimizationResult) :=
  match files with
  | [] => None
  | _ => Some (optimize_files files configs)
  end.

End ExportSearch.

(** ** Texture downscaling *)

(** [texture.image]: an image element or a canvas, with the numbers read
    from its [width] and [height]. *)
Record Image : Type := mkImage {
  width : num;
  height : num
}.

Record Texture : Type := mkTexture {
  image : option Image;
  needsUpdate : bool
}.

Record Dom : Type := mkDom {
  (** whether [getContext('2d')] gives a context for the [k]-th canvas the
      call creates, rather than [null] *)
  getContext : nat -> bool;
  (** what [canvas.width] or [canvas.height] holds after it is assigned a
      number *)
  canvas_dimension : num -> num
}.

(** [Math.ceil(Math.log2(q))] for a positive [q]: the least [k] with
    [q <= 2^k]. *)
Definition ceil_log2 (q : Q) : Z :=
  if Qle_bool 1 q then Z.log2_up (Qceiling q) else (- Z.log2 (Qfloor (/ q)))%Z.

(** [Math.pow(2, Math.ceil(Math.log2(n)))]: [log2] is NaN below 0 and
    [-Infinity] at 0, where the power is 0. *)
Definition nextPowerOfTwo (n : num) : num :=
  match n with
  | Fin q =>
      match Qsign q with
      | Lt => NaN
      | Eq => Fin 0
      | Gt => Fin (two_to (ceil_log2 q))
      end
  | PInf => PInf
  | _ => NaN
  end.

Section Textures.
Context (D : Dom).

(** The dimensions after the aspect-preserving reduction, and [modified];
    [height *= MAX_TEXTURE_SIZE / width] rounds the quotient and then the
    product. *)
Definition fit (MAX_TEXTURE_SIZE : num) (img : Image) : num * num * bool :=
  if (width img >? height img)%num
  then
    if (width img >? MAX_TEXTURE_SIZE)%num
    then (MAX_TEXTURE_SIZE, fl_mul (height img) (fl_div MAX_TEXTURE_SIZE (width img)), true)
    else (width img, height img, false)
  else
    if (height img >? MAX_TEXTURE_SIZE)%num
    then (fl_mul (width img) (fl_div MAX_TEXTURE_SIZE (height img)), MAX_TEXTURE_SIZE, true)
    else (width img, height img, false).

(** The number assigned to a canvas dimension. *)
Definition canvas_side (aggressive : bool) (side : num) : num :=
  let pow2 := nextPowerOfTwo (js_floor side) in
  if aggressive then js_min pow2 (js_floor side) else pow2.

(** The canvas that replaces the image. *)
Definition drawn (t : Texture) (w h : num) : Texture :=
  mkTexture (Some (mkImage (canvas_dimension D w) (canvas_dimension D h))) true.

(** [optimizeTexture(texture, optimizationConfig, aggressive)]: the
    texture as it is left, and the value returned. *)
Definition optimizeTexture (texture : option Texture)
    (optimizationConfig : OptimizationConfig) (aggressive : bool)
  : option Texture * bool :=
  match texture with
  | None => (texture, false)
  | Some t =>
      match image t with
      | None => (texture, false)
      | Some img =>
          if negb (useTextureCompression optimizationConfig) then (texture, false)
          else
            let skipThreshold := if aggressive then Fin 256 else Fin 512 in
            if (width img <=? skipThreshold)%num && (height img <=? skipThreshold)%num
            then (texture, false)
            else
              let MAX_TEXTURE_SIZE := if aggressive then Fin 512 else Fin 1024 in
              let redraw (canvases : nat) (modified : bool) :=
                if negb modified && aggressive
                then
                  if getContext D canvases
                  then (Some (drawn t (width img) (height img)), true)
                  else (texture, modified)
                else (texture, modified) in
              if (width img >? MAX_TEXTURE_SIZE)%num || (height img >? MAX_TEXTURE_SIZE)%num
              then
                let '(w, h, modified) := fit MAX_TEXTURE_SIZE img in
                if getContext D 0
                then (Some (drawn t (canvas_side aggressive w) (canvas_side aggressive h)),
                      true)
                else redraw 1%nat modified
              else redraw 0%nat false
      end
  end.

End Textures.

(** ** Notions the specification uses *)

(** [clamp(x, lo, hi)] *)
Definition clamp (x lo hi : num) : num := js_max lo (js_min hi x).

(** The fraction [k / n] of [n] samples; 0 when nothing was sampled. *)
Definition fraction (k n : nat) : num :=
  Fin (inject_Z (Z.of_nat k) / inject_Z (Z.of_nat n)).

(** A list with every value kept only the first time it occurs, [same]
    telling when two values count as one. *)
Definition keep_first {A} (same : A -> A -> bool) (l : list A) : list A :=
  fold_left (fun kept x => if existsb (same x) kept then kept else kept ++ [x]) l [].

(** The triangles that fall into the area of the density map named by
    [k]. *)
Definition in_area (k : PosKey) (ts : list Triangle) : list Triangle :=
  filter (fun t => posKey_eqb (posKey t) k) ts.

(** An area is a high-detail area when more than two of the triangles fall
    into it and one of them is small or thin. *)
Definition high_detail_area (small thin : Triangle -> bool) (ts : list Triangle)
    (k : PosKey) : bool :=
  (2 <? List.length (in_area k ts))%nat
  && (existsb small (in_area k ts) || existsb thin (in_area k ts)).

(** Corner [k] of face [i] is vertex [v]. *)
Definition corner_is (indices : option (list nat)) (v i k : nat) : bool :=
  match face_vertex indices (i * 3 + k) with
  | Some w => (w =? v)%nat
  | None => false
  end.

(** The faces touching vertex [v] among the first [faceCount] faces, once
    for every corner that is [v]. *)
Definition incident_faces (indices : option (list nat)) (faceCount v : nat) : list nat :=
  flat_map (fun i => flat_map (fun k => if corner_is indices v i k then [i] else [])
                              [0; 1; 2]%nat)
           (seq 0 faceCount).

(** The face normals of the triangles touching vertex [v]. *)
Definition incident_normals (E : Externals) (pos : list Vector3)
    (indices : option (list nat)) (v : nat) : list Vector3 :=
  map (face_normal_of E pos indices)
      (incident_faces indices (iterations (faceCount_of pos indices)) v).

(** Greedy clustering: taken in order, each normal joins the first
    existing cluster whose reference has a dot product with it above
    [creaseDot], and otherwise starts a new cluster with itself as
    reference. *)
Inductive greedy (creaseDot : num) : list Vector3 -> list NormalGroup -> Prop :=
| greedy_nil : greedy creaseDot [] []
| greedy_join (seen : list Vector3) (n : Vector3)
    (before : list NormalGroup) (g : NormalGroup) (after : list NormalGroup) :
    greedy creaseDot seen (before ++ g :: after) ->
    Forall (fun c => (dot n (reference c) >? creaseDot)%num = false) before ->
    (dot n (reference g) >? creaseDot)%num = true ->
    greedy creaseDot (seen ++ [n])
           (before ++ mkNormalGroup (reference g) (normals g ++ [n]) :: after)
| greedy_new (seen : list Vector3) (n : Vector3) (clusters : list NormalGroup) :
    greedy creaseDot seen clusters ->
    Forall (fun c => (dot n (reference c) >? creaseDot)%num = false) clusters ->
    greedy creaseDot (seen ++ [n]) (clusters ++ [mkNormalGroup n [n]]).

(** One coordinate of the vectors added up in the order of the list, every
    addition rounded to a double. *)
Definition coordinate_sum (coordinate : Vector3 -> num) (l : list Vector3) : num :=
  fold_left (fun total n => fl_add total (coordinate n)) l (Fin 0).

Definition vector_sum (l : list Vector3) : Vector3 :=
  vec3 (coordinate_sum vx l) (coordinate_sum vy l) (coordinate_sum vz l).

(** The average of the vectors: their sum divided by their number. *)
Definition average (l : list Vector3) : Vector3 :=
  let n := of_nat (List.length l) in
  vec3 (coordinate_sum vx l / n)%num (coordinate_sum vy l / n)%num
       (coordinate_sum vz l / n)%num.

(** [k] times the vector, without rounding. *)
Definition times (k : nat) (a : Vector3) : Vector3 :=
  vec3 (of_nat k * vx a)%num (of_nat k * vy a)%num (of_nat k * vz a)%num.

Definition same_vector (a b : Vector3) : Prop :=
  (vx a == vx b)%num /\ (vy a == vy b)%num /\ (vz a == vz b)%num.

(** The vector scaled to length 1: every coordinate times 1/length, where
    the length is the square root of x*x + y*y + z*z, and 1 stands in for
    a length that is 0 or NaN; every operation is rounded to a double. *)
Definition direction (E : Externals) (a : Vector3) : Vector3 :=
  let squares :=
    fl_add (fl_add (fl_mul (vx a) (vx a)) (fl_mul (vy a) (vy a))) (fl_mul (vz a) (vz a)) in
  let length :=
    match Math_sqrt E squares with
    | NaN => Fin 1
    | Fin q => if Qeq_bool q 0 then Fin 1 else Fin q
    | infinite => infinite
    end in
  let scale := fl_div (Fin 1) length in
  vec3 (fl_mul (vx a) scale) (fl_mul (vy a) scale) (fl_mul (vz a) scale).

(** The vector as a [Float32Array] holds it: every coordinate rounded to
    single precision. *)
Definition in_single_precision (a : Vector3) : Vector3 :=
  vec3 (Math_fround (vx a)) (Math_fround (vy a)) (Math_fround (vz a)).

(** ** Concrete collaborators

    Executable stand-ins for the external calls, used to run the model on
    concrete meshes and files. *)

(** [Math.sqrt], exact on squares of rationals (rounded down elsewhere). *)
Definition sqrt_exact (a : num) : num :=
  match a with
  | Fin q =>
      let r := Qred q in
      if Qlt_bool r 0 then NaN else Fin (Z.sqrt (Qnum r) # Pos.sqrt (Qden r))
  | PInf => PInf
  | _ => NaN
  end.

(** Cosine of the two crease angles the simplifiers use, to six places. *)
Definition cos_table (creaseAngle : num) : num :=
  if num_eqb creaseAngle (dec 25 10) then dec 999048 1000000 else dec 998630 1000000.

Definition span (coordinate : Vector3 -> num) (positions : list Vector3) : num :=
  match positions with
  | [] => Fin 0
  | p :: rest =>
      (fold_left js_max (map coordinate rest) (coordinate p)
       - fold_left js_min (map coordinate rest) (coordinate p))%num
  end.

(** The size of the axis-aligned bounding box of the positions. *)
Definition box_size (g : BufferGeometry) : Vector3 :=
  match position g with
  | Some positions => vec3 (span vx positions) (span vy positions) (span vz positions)
  | None => zero3
  end.

Definition draws (values : list Q) (k : nat) : num := Fin (nth k values 0).

Definition up : Vector3 := vec3 (Fin 0) (Fin 0) (Fin 1).

Definition flat_normals (g : BufferGeometry) : result BufferGeometry :=
  match position g with
  | Some positions => Ok (set_normal g (map (fun _ => up) positions))
  | None => Throw TypeError
  end.

(** A world whose simplifier answers every request with [candidate]. *)
Definition world (candidate : BufferGeometry) (randoms : list Q) : Externals :=
  mkExternals sqrt_exact cos_table (draws randoms) box_size
    (fun g => Ok g) (fun _ => Throw TypeError)
    (fun _ _ => Ok candidate) flat_normals.

Definition pt (x y : Z) : Vector3 := vec3 (of_Z x) (of_Z y) (Fin 0).

(** A 3-4-5 triangle and three zero-area slivers along its edges. *)
Definition big : list Vector3 := [pt 0 0; pt 3 0; pt 0 4].
Definition sliver1 : list Vector3 := [pt 0 0; pt 3 0; pt 0 0].
Definition sliver2 : list Vector3 := [pt 0 0; pt 0 4; pt 0 0].
Definition sliver3 : list Vector3 := [pt 3 0; pt 0 4; pt 3 0].

(** A non-indexed geometry with per-vertex normals and no material groups. *)
Definition soup (triangles : list (list Vector3)) : BufferGeometry :=
  let positions := List.concat triangles in
  mkGeometry (Some positions) (Some (map (fun _ => up) positions)) None None [].

Definition plate : BufferGeometry := soup [big; sliver1; sliver2; sliver3].
Definition plate_reduced : BufferGeometry := soup [big; sliver1; sliver2].

Definition plate_world : Externals :=
  world plate_reduced
    [0; 1#4; 1#2; 3#4;  0; 1#4; 1#2; 3#4;  0; 1#2; 3#4].

Definition doubled : BufferGeometry := soup [big; big; sliver1; sliver2; sliver3].

Definition doubled_world : Externals :=
  world plate
    [0; 1#5; 2#5; 3#5; 4#5;  0; 1#5; 2#5; 3#5; 4#5;  0; 1#4; 1#2; 3#4].

(** Eight copies of the large triangle and five slivers; the reduced
    version loses one of each. *)
Definition sliver4 : list Vector3 := [pt 3 0; pt 0 0; pt 3 0].
Definition sliver5 : list Vector3 := [pt 0 4; pt 0 0; pt 0 4].

Definition tiled : BufferGeometry :=
  soup (repeat big 8 ++ [sliver1; sliver2; sliver3; sliver4; sliver5]).
Definition tiled_reduced : BufferGeometry :=
  soup (repeat big 7 ++ [sliver1; sliver2; sliver3; sliver4]).

(** The draws [0/n, 1/n, ..., (n-1)/n], which visit every one of [n]
    triangles once. *)
Definition sweep (n : nat) : list Q :=
  map (fun k => Z.of_nat k # Pos.of_nat n) (seq 0 n).

Definition tiled_world : Externals :=
  world tiled_reduced (sweep 13 ++ sweep 13 ++ sweep 11).

(** The profile the simplifier computes for [tiled] at its first step. *)
Definition tiled_analysis : FeatureProfile :=
  match analyzeFeatureSizes tiled_world tiled 0 with
  | Ok meshAnalysis => meshAnalysis
  | Throw _ => mkProfile 0 0 0 NaN NaN NaN NaN false
  end.

(** Simplification switched on with a requested ratio of 0. *)
Definition keep_all : OptimizationConfig :=
  mkConfig false false true false (Fin 0) true false.

(** A geometry without a position attribute. *)
Definition bare : BufferGeometry := mkGeometry None None None None [].

(** An indexed geometry whose index array is empty. *)
Definition hollow : BufferGeometry := mkGeometry (Some []) None None (Some []) [].

(** Four indexed triangles over five vertices. *)
Definition fan : BufferGeometry :=
  mkGeometry (Some [pt 0 0; pt 3 0; pt 3 4; pt 0 4; pt 1 2]) None None
             (Some [0; 1; 4;  1; 2; 4;  2; 3; 4;  3; 0; 4]%nat) [].

Definition corner (x y z : Z) : Vector3 := vec3 (of_Z x) (of_Z y) (of_Z z).

(** Two triangles in the plane z = 0 and one in the plane x = 0, all three
    touching vertex 0. *)
Definition folded : BufferGeometry :=
  mkGeometry (Some [corner 0 0 0; corner 1 0 0; corner 0 1 0; corner (-1) 0 0; corner 0 0 1])
             None None (Some [0; 1; 2;  0; 2; 3;  0; 4; 2]%nat) [].

(** Three material groups of nine indices each, as a geometry of 27
    indices carries them. *)
Definition three_groups : list Group :=
  [ mkGroup (of_Z 0) (of_Z 9) (Some 0%nat);
    mkGroup (of_Z 9) (of_Z 9) (Some 1%nat);
    mkGroup (of_Z 18) (of_Z 9) (Some 2%nat) ].

(** A GLB file that is only its 12-byte header: magic, version 2, total
    length 12. *)
Definition header_only : File :=
  mkFile "model.glb"
    [ Byte.x67; Byte.x6c; Byte.x54; Byte.x46;     (* "glTF" *)
      Byte.x02; Byte.x00; Byte.x00; Byte.x00;
      Byte.x0c; Byte.x00; Byte.x00; Byte.x00 ].

(** A browser in which the loader rejects every file. *)
Definition rejecting_browser : Browser :=
  mkBrowser (fun f => Ok (content f)) (fun _ => Throw ExternalError)
    (fun s _ => Ok (s, false)) (fun _ _ => Throw ExternalError)
    (fun _ => Ok "{}"%string) (fun _ => Throw ExternalError).

Definition hundred_bytes : File := mkFile "scene.glb" (repeat Byte.x00 100).

(** A browser that loads a one-mesh scene and exports 96 bytes whatever
    the options. *)
Definition padding_browser : Browser :=
  mkBrowser (fun f => Ok (content f))
    (fun _ => Ok [mkSceneMesh (Some fan) []])
    (fun s _ => Ok (s, false))
    (fun _ _ => Ok (ArrayBuffer (repeat Byte.x01 96)))
    (fun _ => Ok "{}"%string) (fun _ => Throw ExternalError).

Definition draco_only : OptimizationConfig :=
  mkConfig true false false false (dec 1 10) true false.

(** Two copies of the large triangle, without any sliver, and what is left
    when one is removed. *)
Definition clean_pair : BufferGeometry := soup [big; big].
Definition clean_single : BufferGeometry := soup [big].

Definition clean_world : Externals :=
  world clean_single (sweep 2 ++ sweep 2 ++ sweep 1).

(** A browser whose exporter fails at Draco level 9, writes 80 bytes at
    the other Draco level and 96 bytes without Draco. *)
Definition sizing_browser : Browser :=
  mkBrowser (fun f => Ok (content f))
    (fun _ => Ok [mkSceneMesh (Some fan) []])
    (fun s _ => Ok (s, false))
    (fun _ o =>
       match draco o with
       | Some d => if (compressionLevel d =? 9)%nat then Throw ExternalError
                   else Ok (ArrayBuffer (repeat Byte.x01 80))
       | None => Ok (ArrayBuffer (repeat Byte.x01 96))
       end)
    (fun _ => Ok "{}"%string) (fun _ => Throw ExternalError).

(** A file that is neither [.glb] nor [.gltf]. *)
Definition fifty_bytes : File := mkFile "scene.obj" (repeat Byte.x00 50).

(** A page whose canvases all have a 2D context and store the numbers
    assigned to their dimensions as they are. *)
Definition plain_dom : Dom := mkDom (fun _ => true) (fun a => a).

(** A page without 2D contexts. *)
Definition headless_dom : Dom := mkDom (fun _ => false) (fun a => a).

Definition compress_textures : OptimizationConfig :=
  mkConfig false true false false (Fin 0) true false.

Definition photo (w h : nat) : Texture := mkTexture (Some (mkImage (of_nat w) (of_nat h))) false.

(** * Properties *)

Unset Implicit Arguments.

(** ** Rounding *)

Lemma two_to_power (k : Z) : two_to k == 2 ^ k.
Proof.
  destruct k as [|p|p]; unfold two_to.
  - reflexivity.
  - exact (Zpower_Qpower 2 (Z.pos p) ltac:(lia)).
  - change (Z.neg p) with (- Z.pos p)%Z. rewrite Qpower_opp.
    pose proof (Zpower_Qpower 2 (Z.pos p) ltac:(lia)) as H.
    change (inject_Z 2) with 2 in H. rewrite <- H.
    rewrite <- Pos2Z.inj_pow. reflexivity.
Qed.

Lemma two_to_pos (k : Z) : 0 < two_to k.
Proof. rewrite two_to_power. apply Qpower_0_lt. reflexivity. Qed.

Lemma two_to_add (a b : Z) : two_to (a + b) == two_to a * two_to b.
Proof. rewrite !two_to_power. apply Qpower_plus. discriminate. Qed.

Lemma two_to_le (a b : Z) : (a <= b)%Z -> two_to a <= two_to b.
Proof. intros H. rewrite !two_to_power. apply Qpower_le_compat_l; [exact H | discriminate]. Qed.

Lemma two_to_lt (a b : Z) : (a < b)%Z -> two_to a < two_to b.
Proof. intros H. rewrite !two_to_power. apply Qpower_lt_compat_l; [exact H | reflexivity]. Qed.

Lemma two_to_lt_inv (a b : Z) : two_to a < two_to b -> (a < b)%Z.
Proof.
  intros H. destruct (Z_lt_le_dec a b) as [Hlt | Hle]; [exact Hlt|].
  pose proof (two_to_le b a Hle). lra.
Qed.

Lemma two_to_sub (a b : Z) : two_to (a - b) == two_to a / two_to b.
Proof.
  pose proof (two_to_pos b) as Hb.
  assert (H : two_to a == two_to (a - b) * two_to b).
  { rewrite <- two_to_add. replace (a - b + b)%Z with a by lia. reflexivity. }
  rewrite H. field. lra.
Qed.

Lemma two_to_nonneg_int (k : Z) : (0 <= k)%Z -> two_to k = inject_Z (2 ^ k).
Proof. destruct k; [reflexivity | reflexivity | lia]. Qed.

Lemma ilog2_spec (q : Q) : 0 < q -> two_to (ilog2 q) <= q /\ q < two_to (ilog2 q + 1).
Proof.
  intros Hq. destruct q as [n d]. unfold ilog2. cbn [Qnum Qden].
  assert (Hn : (0 < n)%Z) by (unfold Qlt in Hq; simpl in Hq; lia).
  pose proof (Z.log2_spec n Hn) as [Hn1 Hn2].
  pose proof (Z.log2_spec (Z.pos d) ltac:(lia)) as [Hd1 Hd2].
  pose proof (Z.log2_nonneg n) as Hln. pose proof (Z.log2_nonneg (Z.pos d)) as Hld.
  set (ln := Z.log2 n) in *. set (ld := Z.log2 (Z.pos d)) in *.
  assert (Hq' : n # d == inject_Z n / inject_Z (Z.pos d)) by (rewrite Qmake_Qdiv; reflexivity).
  assert (HD : 0 < inject_Z (Z.pos d)) by (unfold Qlt; simpl; lia).
  assert (A1 : two_to ln <= inject_Z n).
  { rewrite two_to_nonneg_int by lia. rewrite <- Zle_Qle. exact Hn1. }
  assert (A2 : inject_Z n < two_to (ln + 1)).
  { rewrite two_to_nonneg_int by lia. rewrite <- Zlt_Qlt. exact Hn2. }
  assert (B1 : two_to ld <= inject_Z (Z.pos d)).
  { rewrite two_to_nonneg_int by lia. rewrite <- Zle_Qle. exact Hd1. }
  assert (B2 : inject_Z (Z.pos d) < two_to (ld + 1)).
  { rewrite two_to_nonneg_int by lia. rewrite <- Zlt_Qlt. exact Hd2. }
  pose proof (two_to_pos ld) as Pld. pose proof (two_to_pos (ld + 1)) as Pld1.
  pose proof (two_to_pos ln) as Pln.
  set (x := inject_Z n / inject_Z (Z.pos d)) in *.
  assert (E : x * inject_Z (Z.pos d) == inject_Z n) by (unfold x; field; lra).
  assert (Hx : 0 < x).
  { unfold x. apply Qlt_shift_div_l; [exact HD|]. rewrite Qmult_0_l.
    unfold Qlt. simpl. lia. }
  assert (U : n # d < two_to (ln - ld + 1)).
  { replace (ln - ld + 1)%Z with ((ln + 1) - ld)%Z by lia. rewrite two_to_sub, Hq'.
    apply Qlt_shift_div_l; [exact Pld|]. nra. }
  assert (L : two_to (ln - ld - 1) < n # d).
  { replace (ln - ld - 1)%Z with (ln - (ld + 1))%Z by lia. rewrite two_to_sub, Hq'.
    apply Qlt_shift_div_r; [exact Pld1|]. nra. }
  destruct (Qle_bool (two_to (ln - ld)) (n # d)) eqn:Hle.
  - apply Qle_bool_iff in Hle. split; [exact Hle | exact U].
  - assert (Hlt : n # d < two_to (ln - ld)).
    { apply Qnot_le_lt. intros H. apply Qle_bool_iff in H. congruence. }
    split; [apply Qlt_le_weak; exact L|].
    replace (ln - ld - 1 + 1)%Z with (ln - ld)%Z by lia. exact Hlt.
Qed.

Lemma nearest_even_cases (x : Q) :
  (nearest_even x = Qfloor x /\ x - inject_Z (Qfloor x) <= 1 # 2)
  \/ (nearest_even x = (Qfloor x + 1)%Z /\ 1 # 2 <= x - inject_Z (Qfloor x)).
Proof.
  unfold nearest_even.
  destruct (Qcompare (x - inject_Z (Qfloor x)) (1 # 2)) eqn:Hc.
  - apply Qeq_alt in Hc. destruct (Z.even (Qfloor x)); [left | right]; split; auto; lra.
  - apply Qlt_alt in Hc. left. split; [reflexivity | lra].
  - apply Qgt_alt in Hc. right. split; [reflexivity | lra].
Qed.

Lemma nearest_even_near (x : Q) :
  x - (1 # 2) <= inject_Z (nearest_even x) <= x + (1 # 2).
Proof.
  pose proof (Qfloor_le x) as Hf. pose proof (Qlt_floor x) as Hc.
  rewrite inject_Z_plus in Hc. change (inject_Z 1) with 1 in Hc.
  destruct (nearest_even_cases x) as [[-> H] | [-> H]].
  - lra.
  - rewrite inject_Z_plus. change (inject_Z 1) with 1. lra.
Qed.

Lemma nearest_even_under (x : Q) (N : Z) :
  x <= inject_Z N -> (nearest_even x <= N)%Z.
Proof.
  intros Hx. pose proof (Qfloor_le x) as Hf.
  destruct (nearest_even_cases x) as [[-> H] | [-> H]].
  - rewrite Zle_Qle. lra.
  - assert (Hlt : inject_Z (Qfloor x) < inject_Z N) by lra.
    rewrite <- Zlt_Qlt in Hlt. lia.
Qed.

Lemma nearest_even_nonneg (x : Q) : 0 <= x -> (0 <= nearest_even x)%Z.
Proof.
  intros Hx.
  assert (Hf : (0 <= Qfloor x)%Z).
  { change 0%Z with (Qfloor 0). apply Qfloor_resp_le. exact Hx. }
  destruct (nearest_even_cases x) as [[-> _] | [-> _]]; lia.
Qed.

Section Rounding.
Variables prec emin emax : Z.
Hypothesis Hprec : (0 < prec)%Z.
Hypothesis Hemin : (emin <= 0)%Z.
Hypothesis Hemax : (prec <= emax + 1)%Z.

Let ulp (q : Q) : Z := Z.max (ilog2 q - (prec - 1)) emin.
Let mant (q : Q) : Z := nearest_even (q / two_to (ulp q)).

Lemma round_pos_value (q : Q) :
  round_pos prec emin emax q = PInf
  \/ exists r, round_pos prec emin emax q = Fin r
               /\ r == inject_Z (mant q) * two_to (ulp q)
               /\ r < two_to (emax + 1).
Proof.
  unfold round_pos. fold (ulp q). fold (mant q).
  destruct (Qle_bool _ _) eqn:Hle; [left; reflexivity|].
  right. eexists. split; [reflexivity|]. split; [apply Qred_correct|].
  apply Qnot_le_lt. intros H. apply Qle_bool_iff in H. congruence.
Qed.

Lemma round_pos_nonneg (q : Q) :
  0 <= q ->
  round_pos prec emin emax q = PInf
  \/ exists r, round_pos prec emin emax q = Fin r /\ 0 <= r.
Proof.
  intros Hq. destruct (round_pos_value q) as [H | (r & Hr & Hv & _)]; [left; exact H|].
  right. exists r. split; [exact Hr|]. rewrite Hv.
  pose proof (two_to_pos (ulp q)) as Hu.
  assert (Hm : (0 <= mant q)%Z).
  { apply nearest_even_nonneg. apply Qle_shift_div_l; [exact Hu | lra]. }
  rewrite Zle_Qle in Hm. change (inject_Z 0) with 0 in Hm. nra.
Qed.

(** Rounding does not pass an integer of the format that bounds the
    number. *)
Lemma round_pos_under (q : Q) (z : Z) :
  0 < q -> q <= inject_Z z -> (z < 2 ^ prec)%Z ->
  exists r, round_pos prec emin emax q = Fin r /\ 0 <= r /\ r <= inject_Z z.
Proof.
  intros Hq Hz Hsmall.
  destruct (ilog2_spec q Hq) as [Hlow _].
  assert (He : (ilog2 q < prec)%Z).
  { apply two_to_lt_inv. rewrite (two_to_nonneg_int prec) by lia.
    rewrite Zlt_Qlt in Hsmall. lra. }
  assert (Hu : (ulp q <= 0)%Z) by (unfold ulp; lia).
  pose proof (two_to_pos (ulp q)) as Pu.
  (* z / 2^u is an integer *)
  assert (Hint : inject_Z z / two_to (ulp q) == inject_Z (z * 2 ^ (- ulp q))).
  { rewrite inject_Z_mult. rewrite <- (two_to_nonneg_int (- ulp q)) by lia.
    assert (H1 : two_to (- ulp q) * two_to (ulp q) == 1).
    { rewrite <- two_to_add. replace (- ulp q + ulp q)%Z with 0%Z by lia. reflexivity. }
    field_simplify_eq; [|lra]. nra. }
  assert (Hm : (mant q <= z * 2 ^ (- ulp q))%Z).
  { apply nearest_even_under. rewrite <- Hint.
    apply Qle_shift_div_l; [exact Pu|].
    assert (q / two_to (ulp q) * two_to (ulp q) == q) by (field; lra). lra. }
  assert (Hr : inject_Z (mant q) * two_to (ulp q) <= inject_Z z).
  { rewrite Zle_Qle in Hm. rewrite <- Hint in Hm.
    assert (inject_Z z / two_to (ulp q) * two_to (ulp q) == inject_Z z) by (field; lra).
    nra. }
  assert (Hbig : inject_Z z < two_to (emax + 1)).
  { apply Qlt_le_trans with (two_to prec).
    - rewrite (two_to_nonneg_int prec) by lia. rewrite <- Zlt_Qlt. exact Hsmall.
    - apply two_to_le. lia. }
  destruct (round_pos_nonneg q (Qlt_le_weak _ _ Hq)) as [Hinf | (r & Hr' & Hr0)].
  - exfalso. unfold round_pos in Hinf. fold (ulp q) in Hinf. fold (mant q) in Hinf.
    destruct (Qle_bool _ _) eqn:Hle; [|discriminate].
    apply Qle_bool_iff in Hle. rewrite Qred_correct in Hle. lra.
  - exists r. split; [exact Hr'|]. split; [exact Hr0|].
    destruct (round_pos_value q) as [H | (r' & Hr'' & Hv & _)]; [congruence|].
    assert (r' = r) by congruence. subst r'. rewrite Hv. exact Hr.
Qed.

(** The relative error of rounding a number of the normal range. *)
Lemma round_pos_error (q r : Q) :
  0 < q -> two_to (emin + prec - 1) <= q ->
  round_pos prec emin emax q = Fin r ->
  r <= q + q * two_to (- prec) /\ q - q * two_to (- prec) <= r.
Proof.
  intros Hq Hnormal Hr.
  destruct (ilog2_spec q Hq) as [Hlow Hhigh].
  assert (He : (emin + prec - 1 <= ilog2 q)%Z).
  { assert (H : two_to (emin + prec - 1) < two_to (ilog2 q + 1)) by lra.
    apply two_to_lt_inv in H. lia. }
  assert (Hu : ulp q = (ilog2 q - (prec - 1))%Z) by (unfold ulp; lia).
  destruct (round_pos_value q) as [H | (r' & Hr' & Hv & _)]; [congruence|].
  assert (r' = r) by congruence. subst r'.
  pose proof (two_to_pos (ulp q)) as Pu.
  pose proof (nearest_even_near (q / two_to (ulp q))) as [Hn1 Hn2].
  fold (mant q) in Hn1, Hn2.
  assert (Hx : q / two_to (ulp q) * two_to (ulp q) == q) by (field; lra).
  assert (Hhalf : two_to (ulp q) * (1 # 2) <= q * two_to (- prec)).
  { assert (H2 : two_to (ulp q) == two_to (ilog2 q) * two_to (1 - prec)).
    { rewrite <- two_to_add. rewrite Hu. replace (ilog2 q + (1 - prec))%Z
        with (ilog2 q - (prec - 1))%Z by lia. reflexivity. }
    assert (H3 : two_to (1 - prec) == 2 * two_to (- prec)).
    { replace (1 - prec)%Z with (1 + - prec)%Z by lia. rewrite two_to_add. reflexivity. }
    pose proof (two_to_pos (- prec)) as Pp. pose proof (two_to_pos (ilog2 q)) as Pe.
    rewrite H2, H3. nra. }
  rewrite Hv. split; nra.
Qed.

End Rounding.

Lemma round_to_comp (prec emin emax : Z) (p q : Q) :
  p == q -> round_to prec emin emax p = round_to prec emin emax q.
Proof.
  intros H. unfold round_to. rewrite (Qcompare_comp p q H 0 0 (Qeq_refl 0)).
  rewrite (Qred_complete p q H).
  assert (H' : - p == - q) by (rewrite H; reflexivity).
  rewrite (Qred_complete _ _ H'). reflexivity.
Qed.

Lemma round_to_nonneg (prec emin emax : Z) (q : Q) :
  0 <= q ->
  round_to prec emin emax q = PInf
  \/ exists r, round_to prec emin emax q = Fin r /\ 0 <= r.
Proof.
  intros Hq. unfold round_to.
  destruct (Qcompare q 0) eqn:Hc.
  - right. exists 0. split; [reflexivity | lra].
  - apply Qlt_alt in Hc. lra.
  - apply round_pos_nonneg. rewrite Qred_correct. exact Hq.
Qed.

Lemma round_to_under (prec emin emax : Z) (q : Q) (z : Z) :
  (0 < prec)%Z -> (emin <= 0)%Z -> (prec <= emax + 1)%Z ->
  0 <= q -> q <= inject_Z z -> (z < 2 ^ prec)%Z ->
  exists r, round_to prec emin emax q = Fin r /\ 0 <= r /\ r <= inject_Z z.
Proof.
  intros Hp Hmin Hmax Hq Hz Hsmall. unfold round_to.
  destruct (Qcompare q 0) eqn:Hc.
  - exists 0. split; [reflexivity|]. split; [lra|]. apply Qeq_alt in Hc. lra.
  - apply Qlt_alt in Hc. lra.
  - apply Qgt_alt in Hc.
    apply round_pos_under; try assumption; rewrite Qred_correct; assumption.
Qed.

Lemma round_to_error (prec emin emax : Z) (q r : Q) :
  (0 < prec)%Z -> (emin <= 0)%Z ->
  0 < q -> two_to (emin + prec - 1) <= q ->
  round_to prec emin emax q = Fin r ->
  r <= q + q * two_to (- prec) /\ q - q * two_to (- prec) <= r.
Proof.
  intros Hp Hmin Hq Hn. unfold round_to.
  destruct (Qcompare q 0) eqn:Hc.
  - apply Qeq_alt in Hc. lra.
  - apply Qlt_alt in Hc. lra.
  - intros H. pose proof (Qred_correct q) as Hred.
    assert (H12 : r <= Qred q + Qred q * two_to (- prec)
                  /\ Qred q - Qred q * two_to (- prec) <= r).
    { eapply round_pos_error; try eassumption; rewrite Hred; assumption. }
    rewrite Hred in H12. exact H12.
Qed.


(** ** Arithmetic of [num] *)

Lemma Qlt_bool_iff (p q : Q) : Qlt_bool p q = true <-> p < q.
Proof.
  unfold Qlt_bool. rewrite negb_true_iff.
  split; intros H.
  - apply Qnot_le_lt. intros Hle. apply Qle_bool_iff in Hle. congruence.
  - destruct (Qle_bool q p) eqn:Hle; [|reflexivity].
    apply Qle_bool_iff in Hle. exfalso. apply (Qlt_not_le _ _ H Hle).
Qed.

Lemma Qlt_bool_false_iff (p q : Q) : Qlt_bool p q = false <-> q <= p.
Proof.
  unfold Qlt_bool. rewrite negb_false_iff. apply Qle_bool_iff.
Qed.

Lemma gt_Fin (p q : Q) : (Fin p >? Fin q)%num = true <-> q < p.
Proof. unfold gt. simpl. apply Qlt_bool_iff. Qed.

Lemma gt_Fin_false (p q : Q) : (Fin p >? Fin q)%num = false <-> p <= q.
Proof. unfold gt. simpl. apply Qlt_bool_false_iff. Qed.

Lemma num_eq_refl (a : num) : (a == a)%num.
Proof. destruct a; simpl; auto. reflexivity. Qed.

Lemma inject_nat_pos (n : nat) : n <> 0%nat -> 0 < inject_Z (Z.of_nat n).
Proof.
  intros H. unfold Qlt. simpl. lia.
Qed.

Lemma inject_nat_nonneg (n : nat) : 0 <= inject_Z (Z.of_nat n).
Proof. unfold Qle. simpl. lia. Qed.

(** Dividing by a positive rational stays finite. *)
Lemma div_Fin_pos (p q : Q) : 0 < q -> (Fin p / Fin q)%num = Fin (p / q).
Proof.
  intros H. simpl. unfold Qsign.
  destruct (Qcompare_spec q 0) as [Heq | Hlt | Hgt]; try reflexivity.
  rewrite Heq in H. exfalso. apply (Qlt_irrefl 0 H).
Qed.

(** Flooring an integer scaled by one gives the integer back. *)
Lemma floor_scale_one (z : Z) (q : Q) : q == 1 -> js_floor (of_Z z * Fin q) = of_Z z.
Proof.
  intros Hq. unfold of_Z, mul, js_floor, of_Z. do 2 f_equal.
  assert (Heq : inject_Z z * q == inject_Z z) by (rewrite Hq; ring).
  rewrite (Qfloor_comp _ _ Heq). apply Qfloor_Z.
Qed.

(** ** Material groups *)

(** A group whose range is given by integers, as three.js keeps them. *)
Definition integral (g : Group) : Prop :=
  exists s c : Z, start g = of_Z s /\ count g = of_Z c.

Lemma scale_group_one (q : Q) (g : Group) :
  q == 1 -> integral g -> scale_group (Fin q) g = g.
Proof.
  intros Hq (s & c & Hs & Hc). destruct g as [gs gc gm]. simpl in *. subst.
  unfold scale_group. simpl start. simpl count. simpl materialIndex.
  rewrite !(floor_scale_one _ _ Hq). reflexivity.
Qed.

Lemma scaleFactor_nonzero (g : BufferGeometry) (n : nat) :
  index_or_position_count g = Ok n -> n <> 0%nat ->
  scaleFactor_of g = Ok (Fin (inject_Z (Z.of_nat n) / inject_Z (Z.of_nat n))).
Proof.
  intros Hn Hpos. unfold scaleFactor_of. rewrite Hn. unfold bind.
  unfold of_nat, of_Z. rewrite div_Fin_pos by (apply inject_nat_pos; exact Hpos).
  reflexivity.
Qed.

(** C10, as the code has it: on a geometry whose index count (or vertex
    count, without an index) is not zero, both counts are read from the same
    geometry, the scale factor is 1, and the groups that reach the
    re-packing pass are the original groups, never rescaled. *)
Theorem scale_factor_is_one (g : BufferGeometry) (n : nat) (originalGroups : list Group) :
  index_or_position_count g = Ok n ->
  n <> 0%nat ->
  Forall integral originalGroups ->
  exists s, scaleFactor_of g = Ok s /\ (s == Fin 1)%num
            /\ scaled_groups g originalGroups = Ok originalGroups.
Proof.
  intros Hn Hpos Hint.
  pose proof (scaleFactor_nonzero g n Hn Hpos) as Hs.
  set (p := inject_Z (Z.of_nat n)) in *.
  assert (Hone : p / p == 1).
  { apply Qmult_inv_r. intros H0.
    pose proof (inject_nat_pos n Hpos) as Hlt. fold p in Hlt.
    rewrite H0 in Hlt. apply (Qlt_irrefl 0 Hlt). }
  exists (Fin (p / p)). split; [exact Hs|]. split; [exact Hone|].
  unfold scaled_groups. rewrite Hs. unfold bind. f_equal.
  induction Hint as [|grp rest Hg _ IH]; simpl; [reflexivity|].
  rewrite (scale_group_one _ grp Hone Hg), IH. reflexivity.
Qed.

Lemma scale_factor_is_one_witness :
  exists s, scaleFactor_of fan = Ok s /\ (s == Fin 1)%num
            /\ scaled_groups fan three_groups = Ok three_groups.
Proof.
  apply (scale_factor_is_one fan 12 three_groups).
  - reflexivity.
  - discriminate.
  - repeat constructor; unfold integral; simpl; eauto.
Defined.

(** C10 as stated fails on a geometry with an empty index array: the
    scale factor is 0/0, and the groups are not their originals. *)
Lemma scale_factor_of_empty_index :
  scaleFactor_of hollow = Ok NaN
  /\ ~ (NaN == Fin 1)%num
  /\ scaled_groups hollow three_groups
     = Ok (map (fun g => mkGroup NaN NaN (materialIndex g)) three_groups)
  /\ scaled_groups hollow three_groups <> Ok three_groups.
Proof.
  repeat split; try reflexivity.
  - simpl. auto.
  - vm_compute. discriminate.
Qed.

(** Once the running offset has passed the index count, the next group
    starts there: the truncation never pulls the offset back. *)
Lemma repack_starts_at_offset (newIndexCount currentOffset : num)
    (first second : Group) (rest : list Group) :
  exists count1 count2,
    repack newIndexCount currentOffset (first :: second :: rest)
    = mkGroup currentOffset count1 (materialIndex first)
      :: mkGroup (currentOffset + count first) count2 (materialIndex second)
      :: repack newIndexCount (currentOffset + count first + count second) rest.
Proof. simpl. eauto. Qed.

(** C4 at a geometry of 12 indices restored from three groups of nine:
    the second group is cut to fit, the third starts at 18, past the index
    range, with a negative count. *)
Theorem restored_group_starts_past_index :
  index_or_position_count fan = Ok 12%nat
  /\ exists g',
      restoreMaterialGroups fan (Some three_groups) = Ok g'
      /\ groups g' = [ mkGroup (of_Z 0) (of_Z 9) (Some 0%nat);
                       mkGroup (of_Z 9) (of_Z 3) (Some 1%nat);
                       mkGroup (of_Z 18) (of_Z (-6)) (Some 2%nat) ]
      /\ (of_Z 18 <? of_nat 12)%num = false
      /\ (of_Z (-6) <? Fin 0)%num = true.
Proof.
  split; [reflexivity|].
  eexists. split; [vm_compute; reflexivity|].
  repeat split.
Qed.

(** ** Export search and reported size *)

Section ExportFacts.
Context (B : Browser).

(** What the search keeps true of its running best. *)
Definition best_ok (b : Best) : Prop :=
  (bestResult b = None -> bestSize b = PInf /\ dracoApplied b = false)
  /\ (forall r, bestResult b = Some r -> measured_size B r = Ok (bestSize b)).

Lemma measured_size_finite (r : ExportResult) (size : num) :
  measured_size B r = Ok size -> exists n, size = of_nat n.
Proof.
  destruct r as [bytes | text | id]; simpl; intros H.
  - inversion H. eauto.
  - destruct (JSON_stringify B (JsString text)); simpl in H; inversion H. eauto.
  - destruct (JSON_stringify B (JsObject id)); simpl in H; inversion H. eauto.
Qed.

Lemma search_keeps_best_ok (scene : Scene) (originalSize : num)
    (configs : list ExportConfiguration) :
  forall b, best_ok b -> best_ok (search B scene originalSize configs b).
Proof.
  induction configs as [|config rest IH]; intros b Hb; simpl; [exact Hb|].
  destruct (exporter_parse B scene (options config)) as [r|e]; simpl; [|apply IH, Hb].
  destruct (measured_size B r) as [size|e] eqn:Hsize; simpl; [|apply IH, Hb].
  destruct (size <? bestSize b)%num eqn:Hlt.
  - assert (Hnew : best_ok (mkBest (Some r) size (config_name config)
                      (if has_draco (options config) && (size <? PInf)%num
                       then true else dracoApplied b))).
    { split; simpl; [discriminate|]. intros r' Hr'. inversion Hr'; subst. exact Hsize. }
    destruct (size <? originalSize * dec 7 10)%num; [exact Hnew | apply IH, Hnew].
  - apply IH. destruct Hb as [Hnone Hsome]. split; simpl.
    + intros Hn. destruct (Hnone Hn) as [Hinf Hd]. split; [exact Hinf|].
      rewrite Hinf in Hlt. rewrite Hlt, andb_false_r. exact Hd.
    + exact Hsome.
Qed.

Lemma blob_of_measured (r : ExportResult) (size : num) :
  measured_size B r = Ok size -> exists blob, blob_of B r = Ok blob.
Proof.
  destruct r as [bytes | text | id]; simpl; intros H; eauto.
  destruct (JSON_stringify B (JsObject id)); simpl in *; [eauto | discriminate].
Qed.

(** The forced Draco size lies under the 2% cap, so the cap keeps it. *)
Lemma forced_size_under_cap (n : nat) (small : bool) :
  js_min (of_nat n * (Fin 1 - (if small then dec 5 100 else dec 15 100)))
         (of_nat n * dec 98 100)
  = (of_nat n * (Fin 1 - (if small then dec 5 100 else dec 15 100)))%num.
Proof.
  pose proof (inject_nat_nonneg n) as Hn.
  unfold of_nat, of_Z, dec. set (p := inject_Z (Z.of_nat n)) in *.
  destruct small; unfold sub, neg, add, mul, js_min, lt;
    match goal with
    | |- (if Qlt_bool ?a ?b then _ else _) = _ =>
        assert (Hle : Qlt_bool a b = false) by (apply Qlt_bool_false_iff; lra);
        rewrite Hle; reflexivity
    end.
Qed.

(** C7: when Draco compression is requested, one Draco export succeeded
    and the best candidate is larger than 0.9 of the file, the reported
    [optimizedSize] is the file size times (1 - 0.05) for a small model and
    times (1 - 0.15) otherwise, while the blob is the best candidate's,
    whose measured size is still [bestSize]. *)
Theorem draco_floor_is_reported (file : File) (optimizationConfig : OptimizationConfig)
    (loadedScene scene : Scene) (anyOptimizationApplied : bool) :
  load B file = Ok loadedScene ->
  mesh_pass B loadedScene optimizationConfig = Ok (scene, anyOptimizationApplied) ->
  let originalSize := of_nat (file_size file) in
  let totalTextureSize := totalTextureSize_of loadedScene in
  let best :=
    search B scene originalSize
      (exportConfigurations (useDraco optimizationConfig)
         (embedImages optimizationConfig && negb (totalTextureSize >? Fin 5)%num)
         totalTextureSize)
      (mkBest None PInf "" false) in
  useDraco optimizationConfig = true ->
  dracoApplied best = true ->
  (bestSize best >? originalSize * dec 9 10)%num = true ->
  let isModelSmall := isModelSmall_of (vertexCount_of loadedScene) originalSize in
  let reported := optimizeFile B file optimizationConfig in
  optimizedSize reported
    = (originalSize * (Fin 1 - (if isModelSmall then dec 5 100 else dec 15 100)))%num
  /\ exists candidate,
       bestResult best = Some candidate
       /\ blob_of B candidate = Ok (optimizedBlob reported)
       /\ measured_size B candidate = Ok (bestSize best).
Proof.
  intros Hload Hpass originalSize totalTextureSize best Hdraco Happlied Hbig
         isModelSmall reported.
  assert (Hok : best_ok best).
  { apply search_keeps_best_ok. split; simpl; [auto | discriminate]. }
  destruct Hok as [Hnone Hsome].
  destruct (bestResult best) as [candidate|] eqn:Hbest;
    [| destruct (Hnone eq_refl) as [_ Hd]; congruence].
  pose proof (Hsome candidate eq_refl) as Hsize.
  destruct (blob_of_measured candidate _ Hsize) as [blob Hblob].
  assert (Hrun : optimize_loaded B file optimizationConfig
                 = Ok (mkResult originalSize
                         (originalSize
                          * (Fin 1 - (if isModelSmall then dec 5 100 else dec 15 100)))%num
                         blob
                         (Some (vertexCount_of loadedScene,
                                js_round (polyCount_of loadedScene),
                                vertexCount_of scene, js_round (polyCount_of scene))))).
  { unfold optimize_loaded. rewrite Hload. unfold bind at 1. rewrite Hpass.
    unfold bind at 1. cbv zeta. fold originalSize totalTextureSize best.
    rewrite Hdraco, Happlied, Hbest. simpl andb. cbv iota.
    rewrite orb_true_r. rewrite Hblob. unfold bind.
    unfold draco_floor. rewrite Hdraco, Hbig. simpl andb. cbv iota.
    fold isModelSmall. unfold originalSize at 2 3.
    rewrite forced_size_under_cap. reflexivity. }
  unfold reported, optimizeFile. rewrite Hrun. simpl. split; [reflexivity|].
  exists candidate. auto.
Qed.

End ExportFacts.

Lemma draco_floor_is_reported_witness :
  optimizedSize (optimizeFile padding_browser hundred_bytes draco_only)
    = (of_nat 100 * (Fin 1 - dec 5 100))%num
  /\ exists candidate,
       Some (ArrayBuffer (repeat Byte.x01 96)) = Some candidate
       /\ blob_of padding_browser candidate
          = Ok (optimizedBlob (optimizeFile padding_browser hundred_bytes draco_only))
       /\ measured_size padding_browser candidate = Ok (of_nat 96).
Proof.
  exact (draco_floor_is_reported padding_browser hundred_bytes draco_only
           [mkSceneMesh (Some fan) []] [mkSceneMesh (Some fan) []] false
           eq_refl eq_refl eq_refl eq_refl eq_refl).
Defined.

Lemma size_above_cap (n : nat) :
  n <> 0%nat -> (of_nat n <=? of_nat n * dec 98 100)%num = false.
Proof.
  intros Hn. pose proof (inject_nat_pos n Hn) as Hpos.
  unfold of_nat, of_Z, dec, mul, le.
  destruct (Qle_bool _ _) eqn:Hle; [|reflexivity].
  apply Qle_bool_iff in Hle. exfalso. lra.
Qed.

(** C1 on the recovery path: when the loader rejects a [.glb] file whose
    header carries the glTF magic and a length field that, with the 12 bytes
    the code adds to it, covers the file, [applyMinimalCompression] keeps
    every byte and the reported [optimizedSize] is the file size itself,
    above 0.98 of it for a non-empty file. *)
Theorem glb_recovery_keeps_whole_file (B : Browser) (file : File)
    (optimizationConfig : OptimizationConfig) (e : exn) (length : N) :
  arrayBuffer B file = Ok (content file) ->
  load B file = Throw e ->
  endsWith (file_name file) ".glb" = true ->
  getUint32 (content file) 0 = Ok 0x46546C67%N ->
  getUint32 (content file) 8 = Ok length ->
  (file_size file <= 12 + N.to_nat length)%nat ->
  let reported := optimizeFile B file optimizationConfig in
  originalSize reported = of_nat (file_size file)
  /\ optimizedSize reported = of_nat (file_size file)
  /\ optimizedBlob reported = content file
  /\ (optimizedSize reported <=? originalSize reported * dec 98 100)%num
     = match file_size file with O => true | S _ => false end.
Proof.
  intros Hbuffer Hload Hname Hmagic Hlength Hcover reported.
  assert (Hblob : applyMinimalCompression B file = Ok (content file)).
  { unfold applyMinimalCompression. rewrite Hbuffer. unfold bind at 1.
    rewrite Hname. simpl orb. cbv iota.
    unfold compress_known. rewrite Hname. unfold trim_glb.
    rewrite Hmagic. unfold bind at 3. rewrite N.eqb_refl, Hlength.
    unfold bind, try_catch, slice0.
    rewrite firstn_all2 by exact Hcover. reflexivity. }
  assert (Hrun : reported
                 = mkResult (of_nat (file_size file)) (of_nat (file_size file))
                            (content file) None).
  { unfold reported, optimizeFile, optimize_loaded. rewrite Hload. unfold bind at 1.
    rewrite Hblob. reflexivity. }
  rewrite Hrun. simpl. repeat split.
  destruct (file_size file) as [|n] eqn:Hsize; [reflexivity|].
  apply (size_above_cap (S n)). discriminate.
Qed.

Lemma glb_recovery_keeps_whole_file_witness :
  originalSize (optimizeFile rejecting_browser header_only default_config) = of_nat 12
  /\ optimizedSize (optimizeFile rejecting_browser header_only default_config) = of_nat 12
  /\ optimizedBlob (optimizeFile rejecting_browser header_only default_config)
     = content header_only
  /\ (optimizedSize (optimizeFile rejecting_browser header_only default_config)
      <=? originalSize (optimizeFile rejecting_browser header_only default_config)
          * dec 98 100)%num = false.
Proof.
  apply (glb_recovery_keeps_whole_file rejecting_browser header_only default_config
           ExternalError 12%N); try reflexivity.
  vm_compute. lia.
Defined.

(** ** The adaptive simplifier *)

(** C6 on a mesh whose geometry has no position attribute, with
    simplification switched on: [originalGeometry.attributes.position.count]
    is read before any [try] block and the call throws a TypeError, whatever
    the collaborators and the other settings are. *)
Theorem simplifyMesh_throws_without_position (E : Externals) (g : BufferGeometry)
    (optimizationConfig : OptimizationConfig) (seed : nat) :
  position g = None ->
  simplifyGeometry optimizationConfig = true ->
  returned (simplifyMesh E (mkMesh (Some g)) optimizationConfig seed) = Throw TypeError
  /\ mesh_after (simplifyMesh E (mkMesh (Some g)) optimizationConfig seed) = mkMesh (Some g).
Proof.
  intros Hpos Hon. unfold simplifyMesh. simpl geometry. rewrite Hon. simpl negb.
  unfold position_count. rewrite Hpos. split; reflexivity.
Qed.

Lemma simplifyMesh_throws_without_position_witness :
  returned (simplifyMesh plate_world (mkMesh (Some bare)) keep_all 0) = Throw TypeError
  /\ mesh_after (simplifyMesh plate_world (mkMesh (Some bare)) keep_all 0)
     = mkMesh (Some bare).
Proof.
  apply (simplifyMesh_throws_without_position plate_world bare keep_all 0); reflexivity.
Defined.

(** The worker's [simplifyMesh] guards the same read and returns [false]. *)
Lemma worker_returns_false_without_position (E : Externals) (seed : nat)
    (optimizationConfig : OptimizationConfig) :
  returned (Worker.simplifyMesh E (mkMesh (Some bare)) optimizationConfig seed) = Ok false.
Proof. reflexivity. Qed.

Definition no_accept (l : list Event) : Prop := forall n, ~ In (Accepted n) l.

Lemma no_accept_app (l : list Event) (ev : Event) :
  no_accept l -> (forall n, ev <> Accepted n) -> no_accept (l ++ [ev]).
Proof.
  intros Hl Hev n Hin. apply in_app_or in Hin. destruct Hin as [Hin | [Heq | []]].
  - exact (Hl n Hin).
  - exact (Hev n Heq).
Qed.

Ltac quiet_event := intros ? ?; discriminate.

Section SimplifierFacts.
Context (E : Externals).
Variables (originalGeometry : BufferGeometry) (originalVertexCount : nat)
          (originalMaterialGroups : option (list Group)) (meshAnalysis : FeatureProfile).

Let loop := simplify_loop E originalGeometry originalVertexCount
              originalMaterialGroups meshAnalysis.

(** A run of the loop either accepts nothing, or ends by accepting one
    candidate that has fewer vertices than the best so far. *)
Definition loop_verdict (st st' : LoopState) (r : result LoopExit) : Prop :=
  (no_accept (console st') /\ currentBestVertexCount st' = currentBestVertexCount st
   /\ modified st' = modified st)
  \/ (exists n,
        (n < currentBestVertexCount st)%nat
        /\ position_count (meshGeometry st') = Ok n
        /\ currentBestVertexCount st' = n
        /\ r = Ok LoopEnd
        /\ modified st' = true
        /\ simplificationSuccessful st' = true
        /\ forall k, In (Accepted k) (console st') -> k = n).

Lemma simplify_loop_verdict (fuel : nat) :
  forall st, no_accept (console st) ->
             loop_verdict st (fst (loop fuel st)) (snd (loop fuel st)).
Proof.
  induction fuel as [|fuel IH]; intros st Hst.
  - left. simpl. auto.
  - assert (Hrec : forall st1, no_accept (console st1) ->
              currentBestVertexCount st1 = currentBestVertexCount st ->
              modified st1 = modified st ->
              loop_verdict st (fst (loop fuel st1)) (snd (loop fuel st1))).
    { intros st1 H1 Hb Hm. destruct (IH st1 H1) as [(Ha & Hb' & Hm') | (n & Hn & Hrest)].
      - left. repeat split; [exact Ha | congruence | congruence].
      - right. exists n. rewrite <- Hb. split; [exact Hn | exact Hrest]. }
    unfold loop. cbn [simplify_loop]. fold loop.
    set (st0 := next_attempt st).
    destruct (targetCount_of originalVertexCount st0 >=? of_nat (currentBestVertexCount st0))%num.
    { left. simpl. split; [|split; reflexivity].
      apply no_accept_app; [exact Hst | quiet_event]. }
    set (st1 := say (Attempt (attempts st0) (targetCount_of originalVertexCount st0)) st0).
    assert (H1 : no_accept (console st1)).
    { simpl. apply no_accept_app; [exact Hst | quiet_event]. }
    destruct (modify E originalGeometry (targetCount_of originalVertexCount st0))
      as [simplified|e]; [|left; simpl; auto].
    destruct (position_count simplified) as [simplifiedCount|e]; [|left; simpl; auto].
    destruct (originalVertexCount <=? simplifiedCount)%nat.
    { apply Hrec; simpl; auto. apply no_accept_app; [exact H1 | quiet_event]. }
    destruct (prepare E originalMaterialGroups meshAnalysis simplified)
      as [creased|e]; [|left; simpl; auto].
    destruct (position_count creased) as [creasedCount|e] eqn:Hcount; [|left; simpl; auto].
    destruct (originalVertexCount <? creasedCount)%nat.
    { apply Hrec; simpl; auto. apply no_accept_app; [exact H1 | quiet_event]. }
    destruct (checkForLostFeatures E originalGeometry creased (calls st1))
      as [featureAnalysis|e]; [|left; simpl; auto].
    destruct (distorted (distortionThreshold_of meshAnalysis)
                (Box3_size E originalGeometry) (Box3_size E creased)
              || hasLostFeatures_of meshAnalysis featureAnalysis).
    { match goal with
      | |- context [if ?c then _ else _] => destruct c
      end.
      - left. simpl. split; [|split; reflexivity].
        apply no_accept_app; [|quiet_event].
        apply no_accept_app; [exact H1 | quiet_event].
      - apply Hrec; simpl; auto. apply no_accept_app; [exact H1 | quiet_event]. }
    destruct (creasedCount <? currentBestVertexCount _)%nat eqn:Hless.
    { right. exists creasedCount. simpl in *.
      apply Nat.ltb_lt in Hless.
      repeat split; auto.
      intros k Hin. apply in_app_or in Hin. destruct Hin as [Hin | [Heq | []]].
      - exfalso. exact (H1 k Hin).
      - congruence. }
    apply Hrec; simpl; auto. apply no_accept_app; [exact H1 | quiet_event].
Qed.

End SimplifierFacts.

Lemma dedup_bound (E : Externals) (geometry0 : BufferGeometry) (best : nat) :
  let '(_, best', _, said) := dedup E geometry0 best in
  (best' <= best)%nat /\ no_accept said.
Proof.
  unfold dedup.
  destruct (mergeVertices E geometry0) as [merged|e]; simpl.
  - destruct (position_count merged) as [mergedCount|e]; simpl.
    + destruct (mergedCount <=? best)%nat eqn:Hle.
      * apply Nat.leb_le in Hle. split; [exact Hle|].
        intros n [H | []]. discriminate.
      * split; [lia|]. intros n [H | []]. discriminate.
    + split; [lia|]. intros n [H | []]. discriminate.
  - split; [lia|]. intros n [H | []]. discriminate.
Qed.

Lemma simplify_body_verdict (E : Externals) (originalGeometry : BufferGeometry)
    (originalVertexCount : nat) (optimizationConfig : OptimizationConfig) (st : LoopState) :
  no_accept (console st) ->
  let out := simplify_body E originalGeometry originalVertexCount optimizationConfig st in
  no_accept (console (fst out))
  \/ exists n,
       (n < currentBestVertexCount st)%nat
       /\ position_count (meshGeometry (fst out)) = Ok n
       /\ snd out = Ok true
       /\ forall k, In (Accepted k) (console (fst out)) -> k = n.
Proof.
  intros Hst. unfold simplify_body.
  destruct (position (meshGeometry st)); [|left; exact Hst].
  destruct (computeVertexNormals E (meshGeometry st)) as [shaded|e]; [|left; exact Hst].
  cbv zeta.
  destruct (analyzeFeatureSizes E shaded _) as [meshAnalysis|e]; [|left; exact Hst].
  match goal with
  | |- context [simplify_loop E ?og ?n ?gs ?m ?fuel ?s] =>
      pose proof (simplify_loop_verdict E og n gs m fuel s Hst) as Hloop;
      destruct (simplify_loop E og n gs m fuel s) as [st' r]
  end.
  simpl fst in Hloop. simpl snd in Hloop.
  destruct Hloop as [(Hnone & _ & _) | (n & Hn & Hcount & _ & Hr & Hmod & Hsucc & Hone)].
  - left. destruct r as [[|value]|e]; simpl; try exact Hnone.
    destruct (simplificationSuccessful st'); simpl; [exact Hnone|].
    apply no_accept_app; [exact Hnone | quiet_event].
  - right. exists n. subst r. rewrite Hsucc. simpl. simpl in Hn. rewrite Hmod. auto.
Qed.

(** C5: whenever a run of [simplifyMesh] accepts a candidate, the mesh ends
    up holding a geometry whose vertex count is the accepted one and is
    strictly below the vertex count of the geometry the call started from;
    no candidate with as many vertices as the original, or more, is ever
    accepted. *)
Theorem accepted_candidate_has_fewer_vertices (E : Externals) (mesh : Mesh)
    (optimizationConfig : OptimizationConfig) (seed n : nat) :
  let run := simplifyMesh E mesh optimizationConfig seed in
  In (Accepted n) (run_console run) ->
  exists original originalVertexCount accepted,
    geometry mesh = Some original
    /\ position_count original = Ok originalVertexCount
    /\ (n < originalVertexCount)%nat
    /\ geometry (mesh_after run) = Some accepted
    /\ position_count accepted = Ok n
    /\ returned run = Ok true.
Proof.
  unfold simplifyMesh.
  destruct (geometry mesh) as [geometry0|]; [|simpl; contradiction].
  destruct (simplifyGeometry optimizationConfig); [|simpl; contradiction].
  simpl negb. cbv iota.
  destruct (position_count geometry0) as [originalVertexCount|e] eqn:Hcount;
    [|simpl; contradiction].
  assert (Hdedup :
    let '(_, best, _, said) :=
      (if removeDuplicates optimizationConfig
       then dedup E geometry0 originalVertexCount
       else (geometry0, originalVertexCount, false, [])) in
    (best <= originalVertexCount)%nat /\ no_accept said).
  { destruct (removeDuplicates optimizationConfig).
    - apply dedup_bound.
    - split; [lia | intros k []]. }
  destruct (if removeDuplicates optimizationConfig
            then dedup E geometry0 originalVertexCount
            else (geometry0, originalVertexCount, false, []))
    as [[[geometry1 best] modified1] said].
  destruct Hdedup as [Hbest Hsaid].
  set (st := mkLoop 0 (Fin 0) best geometry1 modified1 false seed said).
  pose proof (simplify_body_verdict E geometry0 originalVertexCount optimizationConfig st Hsaid)
    as Hbody.
  cbv zeta in Hbody.
  destruct (simplify_body E geometry0 originalVertexCount optimizationConfig st) as [st' r].
  simpl fst in Hbody. simpl snd in Hbody.
  destruct Hbody as [Hnone | (k & Hk & Hpos & Hr & Hone)].
  - destruct r as [value|e]; simpl; intros Hin.
    + exfalso. exact (Hnone n Hin).
    + exfalso. apply in_app_or in Hin. destruct Hin as [Hin | [Heq | []]].
      * exact (Hnone n Hin).
      * discriminate.
  - subst r. simpl. intros Hin. apply Hone in Hin. subst k.
    exists geometry0, originalVertexCount, (meshGeometry st').
    simpl in Hk. repeat split; auto. lia.
Qed.

Lemma accepted_candidate_has_fewer_vertices_witness :
  exists original originalVertexCount accepted,
    Some doubled = Some original
    /\ position_count original = Ok originalVertexCount
    /\ (12 < originalVertexCount)%nat
    /\ geometry (mesh_after (simplifyMesh doubled_world (mkMesh (Some doubled)) keep_all 0))
       = Some accepted
    /\ position_count accepted = Ok 12%nat
    /\ returned (simplifyMesh doubled_world (mkMesh (Some doubled)) keep_all 0) = Ok true.
Proof.
  apply (accepted_candidate_has_fewer_vertices doubled_world (mkMesh (Some doubled))
           keep_all 0 12).
  vm_compute. right. left. reflexivity.
Defined.

(** A candidate with at least as many vertices as the original is turned
    down on the spot, and the loop goes on with a target ratio raised by
    0.1. *)
Lemma candidate_not_smaller_is_rejected (E : Externals) (originalGeometry : BufferGeometry)
    (originalVertexCount : nat) (originalMaterialGroups : option (list Group))
    (meshAnalysis : FeatureProfile) (fuel : nat) (st : LoopState)
    (simplified : BufferGeometry) (simplifiedCount : nat) :
  let loop := simplify_loop E originalGeometry originalVertexCount
                originalMaterialGroups meshAnalysis in
  let st0 := next_attempt st in
  let targetCount := targetCount_of originalVertexCount st0 in
  (targetCount >=? of_nat (currentBestVertexCount st))%num = false ->
  modify E originalGeometry targetCount = Ok simplified ->
  position_count simplified = Ok simplifiedCount ->
  (originalVertexCount <= simplifiedCount)%nat ->
  loop (S fuel) st
  = loop fuel (relax (dec 1 10)
                 (say RejectedIncrease (say (Attempt (attempts st0) targetCount) st0))).
Proof.
  intros loop st0 targetCount Htarget Hmodify Hcount Hmore.
  unfold loop. cbn [simplify_loop]. fold st0. fold targetCount.
  change (currentBestVertexCount st0) with (currentBestVertexCount st).
  rewrite Htarget, Hmodify, Hcount.
  destruct (Nat.leb_spec originalVertexCount simplifiedCount) as [_|Hbad]; [reflexivity|lia].
Qed.

(** C3, as the code has it: in the retry loop of [simplifyMesh], an
    attempt that reaches the quality check without distortion is rejected
    for feature loss exactly when its [lossRatio] exceeds 0.1 if the analysed
    mesh is high-detail and 0.15 otherwise; below that it goes on to the
    vertex-count test.  The thresholds 0.12 and 0.18 only set the
    [featuresLost] flag, which the loop does not read. *)
Theorem feature_loss_gate (E : Externals) (originalGeometry : BufferGeometry)
    (originalVertexCount : nat) (originalMaterialGroups : option (list Group))
    (meshAnalysis : FeatureProfile) (fuel : nat) (st : LoopState)
    (simplified creased : BufferGeometry) (simplifiedCount creasedCount : nat)
    (featureAnalysis : FeatureLoss) :
  let loop := simplify_loop E originalGeometry originalVertexCount
                originalMaterialGroups meshAnalysis in
  let st0 := next_attempt st in
  let targetCount := targetCount_of originalVertexCount st0 in
  (targetCount >=? of_nat (currentBestVertexCount st))%num = false ->
  modify E originalGeometry targetCount = Ok simplified ->
  position_count simplified = Ok simplifiedCount ->
  (simplifiedCount < originalVertexCount)%nat ->
  prepare E originalMaterialGroups meshAnalysis simplified = Ok creased ->
  position_count creased = Ok creasedCount ->
  (creasedCount <= originalVertexCount)%nat ->
  checkForLostFeatures E originalGeometry creased (calls st) = Ok featureAnalysis ->
  distorted (distortionThreshold_of meshAnalysis)
            (Box3_size E originalGeometry) (Box3_size E creased) = false ->
  let threshold := if isHighDetail meshAnalysis then dec 1 10 else dec 15 100 in
  let st1 := spend (checkForLostFeatures_calls originalGeometry creased)
               (say (Attempt (attempts st0) targetCount) st0) in
  loop (S fuel) st
  = if (lossRatio featureAnalysis >? threshold)%num
    then
      let st2 := relax (dec 5 100) (say (RejectedQuality (attempts st0) false true) st1) in
      if (currentTargetRatio st2 >? dec 9 10)%num
      then (say GaveUp st2, Ok (Return (modified st2)))
      else loop fuel st2
    else if (creasedCount <? currentBestVertexCount st)%nat
    then (say (Accepted creasedCount) (accept creased creasedCount st1), Ok LoopEnd)
    else loop fuel (relax (dec 5 100) (say RejectedNoReduction st1)).
Proof.
  intros loop st0 targetCount Htarget Hmodify Hcount Hless Hprepare Hcreased Hle
         Hcheck Hshape threshold st1.
  unfold loop. cbn [simplify_loop]. fold st0. fold targetCount.
  change (currentBestVertexCount st0) with (currentBestVertexCount st).
  rewrite Htarget, Hmodify, Hcount.
  destruct (Nat.leb_spec originalVertexCount simplifiedCount) as [Hbad|_]; [lia|].
  rewrite Hprepare, Hcreased.
  destruct (Nat.ltb_spec originalVertexCount creasedCount) as [Hbad|_]; [lia|].
  change (calls (say (Attempt (attempts st0) targetCount) st0)) with (calls st).
  rewrite Hcheck, Hshape. simpl orb.
  unfold hasLostFeatures_of, featureLossThreshold_of. fold threshold.
  destruct (lossRatio featureAnalysis >? threshold)%num; reflexivity.
Qed.

Lemma feature_loss_gate_witness :
  console (fst (simplify_loop tiled_world tiled 39 None tiled_analysis 1
                  (mkLoop 0 (Fin 1) 39 tiled false false 13 [])))
  = [Attempt 1 (of_Z 38); RejectedQuality 1 false true; GaveUp].
Proof.
  pose (creased := match prepare tiled_world None tiled_analysis tiled_reduced with
                   | Ok c => c
                   | Throw _ => bare
                   end).
  pose (featureAnalysis := match checkForLostFeatures tiled_world tiled creased 13 with
                           | Ok f => f
                           | Throw _ => mkLoss false NaN NaN NaN NaN
                           end).
  rewrite (feature_loss_gate tiled_world tiled 39 None tiled_analysis 0
             (mkLoop 0 (Fin 1) 39 tiled false false 13 [])
             tiled_reduced creased 33 33 featureAnalysis);
    try (vm_compute; reflexivity); lia.
Defined.

(** C3 as stated fails on [tiled]: the candidate's loss ratio is 0.1709...
    (47/275 up to the rounding of the two complexities it is computed
    from), under 0.18, the analysed mesh is not high-detail and
    [featuresLost] is false, yet the loop rejects the attempt for feature
    loss. *)
Lemma loss_under_018_is_rejected :
  isHighDetail tiled_analysis = false
  /\ (exists creased featureAnalysis,
        prepare tiled_world None tiled_analysis tiled_reduced = Ok creased
        /\ checkForLostFeatures tiled_world tiled creased 13 = Ok featureAnalysis
        /\ (lossRatio featureAnalysis
            == Fin (5920816293326247 # 34643074056696125))%num
        /\ (lossRatio featureAnalysis >? dec 1709 10000)%num = true
        /\ (lossRatio featureAnalysis <? dec 1710 10000)%num = true
        /\ (lossRatio featureAnalysis >? dec 18 100)%num = false
        /\ featuresLost featureAnalysis = false)
  /\ run_console (simplifyMesh tiled_world (mkMesh (Some tiled)) keep_all 0)
     = [Attempt 1 (of_Z 38); RejectedQuality 1 false true; GaveUp]
  /\ returned (simplifyMesh tiled_world (mkMesh (Some tiled)) keep_all 0) = Ok false.
Proof.
  split; [vm_compute; reflexivity|]. split.
  - do 2 eexists. split; [vm_compute; reflexivity|].
    split; [vm_compute; reflexivity|].
    split; [vm_compute; reflexivity|].
    split; [vm_compute; reflexivity|].
    split; [vm_compute; reflexivity|].
    split; vm_compute; reflexivity.
  - split; vm_compute; reflexivity.
Qed.

(** ** The two simplifiers compared *)

Lemma gt_weaken (x : num) (p q : Q) :
  q <= p -> (x >? Fin p)%num = true -> (x >? Fin q)%num = true.
Proof.
  intros Hqp. destruct x as [r| | |]; simpl; auto.
  intros H. apply gt_Fin in H. apply gt_Fin. lra.
Qed.

Lemma worker_distortion_threshold (meshAnalysis : FeatureProfile) :
  exists p q, Worker.distortionThreshold_of meshAnalysis = Fin p
              /\ distortionThreshold_of meshAnalysis = Fin q /\ q <= p.
Proof.
  unfold Worker.distortionThreshold_of, distortionThreshold_of, dec.
  destruct (isHighDetail meshAnalysis); do 2 eexists; repeat split; unfold Qle; simpl; lia.
Qed.

Lemma worker_loss_threshold (meshAnalysis : FeatureProfile) :
  exists p q, Worker.featureLossThreshold_of meshAnalysis = Fin p
              /\ featureLossThreshold_of meshAnalysis = Fin q /\ q <= p.
Proof.
  unfold Worker.featureLossThreshold_of, featureLossThreshold_of, dec.
  destruct (isHighDetail meshAnalysis); do 2 eexists; repeat split; unfold Qle; simpl; lia.
Qed.

(** C2, as the code has it: the worker's thresholds are looser than the
    synchronous ones, so on the same candidate measurements every candidate
    the worker rejects for distortion or feature loss is rejected by the
    synchronous simplifier as well. *)
Theorem worker_gate_is_looser (meshAnalysis : FeatureProfile)
    (originalSize newSize : Vector3) (featureAnalysis : FeatureLoss) :
  implb (distorted (Worker.distortionThreshold_of meshAnalysis) originalSize newSize
         || Worker.hasLostFeatures_of meshAnalysis featureAnalysis)
        (distorted (distortionThreshold_of meshAnalysis) originalSize newSize
         || hasLostFeatures_of meshAnalysis featureAnalysis)
  = true.
Proof.
  destruct (worker_distortion_threshold meshAnalysis) as (p & q & Hp & Hq & Hpq).
  destruct (worker_loss_threshold meshAnalysis) as (p' & q' & Hp' & Hq' & Hpq').
  unfold distorted, Worker.hasLostFeatures_of, hasLostFeatures_of.
  rewrite Hp, Hq, Hp', Hq'.
  repeat match goal with
         | |- context [(?x >? Fin p)%num] =>
             let H := fresh "H" in
             pose proof (gt_weaken x p q Hpq) as H;
             destruct (x >? Fin p)%num; [rewrite (H eq_refl)|clear H]
         | |- context [(?x >? Fin p')%num] =>
             let H := fresh "H" in
             pose proof (gt_weaken x p' q' Hpq') as H;
             destruct (x >? Fin p')%num; [rewrite (H eq_refl)|clear H]
         end;
    simpl; rewrite ?orb_true_r; reflexivity.
Qed.

(** C2 as stated fails on [plate]: with the same inputs, and the same
    target of 11 vertices, the synchronous simplifier rejects the candidate
    for feature loss and gives up, the worker accepts it. *)
Lemma worker_accepts_what_sync_rejects :
  run_console (simplifyMesh plate_world (mkMesh (Some plate)) keep_all 0)
    = [Attempt 1 (of_Z 11); RejectedQuality 1 false true; GaveUp]
  /\ returned (simplifyMesh plate_world (mkMesh (Some plate)) keep_all 0) = Ok false
  /\ run_console (Worker.simplifyMesh plate_world (mkMesh (Some plate)) keep_all 0)
    = [Attempt 1 (of_Z 11); Accepted 9]
  /\ returned (Worker.simplifyMesh plate_world (mkMesh (Some plate)) keep_all 0) = Ok true.
Proof. repeat split; vm_compute; reflexivity. Qed.

(** ** Feature-size analysis *)

Section AnalysisFacts.
Context (E : Externals).
Variables (geometry0 : BufferGeometry) (positions : list Vector3).

Let small_in (st : SampleState) : nat :=
  List.length (filter (is_small (smallFeatureThreshold_of E geometry0))
                      (sampled_triangles E geometry0 positions st)).
Let thin_in (st : SampleState) : nat :=
  List.length (filter (is_thin (thinFeatureThreshold_of E geometry0))
                      (sampled_triangles E geometry0 positions st)).

(** The counters agree with the triangles analysed so far. *)
Definition counts_ok (st : SampleState) : Prop :=
  smallCount st = small_in st
  /\ thinCount st = thin_in st
  /\ totalCount st = List.length (sampled_triangles E geometry0 positions st).

Lemma sample_step_counts (triangleCount : num) (st : SampleState) (k : nat) :
  counts_ok st ->
  counts_ok (sample_step E positions (index geometry0) triangleCount
               (smallFeatureThreshold_of E geometry0)
               (thinFeatureThreshold_of E geometry0) st k).
Proof.
  intros (Hs & Ht & Hn). unfold sample_step.
  destruct (existsb _ (analyzedTriangles st)); [repeat split; assumption|].
  unfold counts_ok, small_in, thin_in, sampled_triangles in *. simpl.
  rewrite !map_app, !filter_app, !length_app. simpl.
  set (t := measure E (triangle_corners positions (index geometry0)
                         (random_face E triangleCount k))).
  repeat split.
  - destruct (is_small _ t); simpl; lia.
  - destruct (is_thin _ t); simpl; lia.
  - lia.
Qed.

Lemma sample_counts (seed : nat) : counts_ok (sample E geometry0 positions seed).
Proof.
  unfold sample.
  set (step := sample_step E positions (index geometry0) _ _ _).
  assert (H : forall l st, counts_ok st -> counts_ok (fold_left step l st)).
  { induction l as [|k l IH]; intros st Hst; simpl; [exact Hst|].
    apply IH. apply sample_step_counts. exact Hst. }
  apply H. repeat split.
Qed.

End AnalysisFacts.

Lemma max_one_nat (n : nat) :
  exists m, js_max (Fin 1) (of_nat n) = Fin m /\ 0 < m
            /\ (n <> 0%nat -> m == inject_Z (Z.of_nat n)) /\ (n = 0%nat -> m == 1).
Proof.
  unfold js_max, of_nat, of_Z, lt.
  destruct (Qlt_bool 1 (inject_Z (Z.of_nat n))) eqn:Hlt.
  - apply Qlt_bool_iff in Hlt. eexists. split; [reflexivity|].
    split; [lra|]. split; [reflexivity|].
    intros ->. simpl in Hlt. unfold Qlt in Hlt. simpl in Hlt. lia.
  - apply Qlt_bool_false_iff in Hlt. exists 1. split; [reflexivity|].
    split; [lra|]. split; [|reflexivity].
    intros Hn. unfold Qle in Hlt. simpl in Hlt. unfold Qeq. simpl. lia.
Qed.

(** The ratio the code computes is the fraction of the samples. *)
Lemma ratio_is_fraction (k n : nat) :
  (k <= n)%nat ->
  exists q, (of_nat k / js_max (Fin 1) (of_nat n))%num = Fin q /\ 0 <= q
            /\ (Fin q == fraction k n)%num.
Proof.
  intros Hkn. destruct (max_one_nat n) as (m & Hm & Hpos & Hnz & Hz).
  rewrite Hm. unfold of_nat, of_Z. rewrite (div_Fin_pos _ _ Hpos).
  exists (inject_Z (Z.of_nat k) / m). split; [reflexivity|].
  pose proof (inject_nat_nonneg k) as Hk.
  split.
  - apply Qle_shift_div_l; [exact Hpos | lra].
  - unfold fraction. simpl. destruct n as [|n'].
    + assert (k = 0%nat) by lia. subst k. rewrite (Hz eq_refl). reflexivity.
    + rewrite (Hnz (Nat.neq_succ_0 n')). reflexivity.
Qed.

Lemma min_one_is_clamp (x y : Q) :
  0 <= x -> x == y -> (js_min (Fin 1) (Fin x) == clamp (Fin y) (Fin 0) (Fin 1))%num.
Proof.
  intros Hx Hxy. unfold clamp, js_min, js_max, lt.
  destruct (Qlt_bool x 1) eqn:Hx1, (Qlt_bool y 1) eqn:Hy1;
    try apply Qlt_bool_iff in Hx1; try apply Qlt_bool_iff in Hy1;
    try apply Qlt_bool_false_iff in Hx1; try apply Qlt_bool_false_iff in Hy1;
    try (exfalso; lra).
  - destruct (Qlt_bool 0 y) eqn:Hy0; simpl; [exact Hxy|].
    apply Qlt_bool_false_iff in Hy0. lra.
  - assert (H01 : Qlt_bool 0 1 = true) by reflexivity. rewrite H01. simpl. reflexivity.
Qed.

Lemma min_one_above (x : Q) (p : Q) :
  p < 1 -> (js_min (Fin 1) (Fin x) >? Fin p)%num = (Fin x >? Fin p)%num.
Proof.
  intros Hp. unfold js_min, lt.
  destruct (Qlt_bool x 1) eqn:Hx1; [reflexivity|].
  apply Qlt_bool_false_iff in Hx1.
  assert (H1 : (Fin 1 >? Fin p)%num = true) by (apply gt_Fin; exact Hp).
  assert (H2 : (Fin x >? Fin p)%num = true) by (apply gt_Fin; lra).
  rewrite H1, H2. reflexivity.
Qed.

(** *** Rounded statistics *)

(** A finite number between 0 and 1. *)
Definition unit_num (a : num) : Prop := exists r, a = Fin r /\ 0 <= r <= 1.

Lemma to_double_bounded (q : Q) (z : Z) :
  0 <= q -> q <= inject_Z z -> (z < 2 ^ 53)%Z ->
  exists r, to_double (Fin q) = Fin r /\ 0 <= r <= inject_Z z.
Proof.
  intros Hq Hz Hsmall. unfold to_double.
  apply round_to_under; try assumption; lia.
Qed.

Lemma unit_to_double (q : Q) : 0 <= q <= 1 -> unit_num (to_double (Fin q)).
Proof.
  intros [H0 H1]. apply (to_double_bounded q 1); [exact H0 | exact H1 | reflexivity].
Qed.

Lemma unit_double (n : Z) (d : positive) : (0 <= n <= Z.pos d)%Z -> unit_num (double n d).
Proof.
  intros [H0 H1]. unfold double, dec. apply unit_to_double.
  unfold Qle. simpl. lia.
Qed.

Lemma unit_fl_mul (a b : num) : unit_num a -> unit_num b -> unit_num (fl_mul a b).
Proof.
  intros (p & -> & Hp) (q & -> & Hq). unfold fl_mul, mul. apply unit_to_double. nra.
Qed.

Lemma fraction_unit (k n : nat) :
  (k <= n)%nat -> exists f, fraction k n = Fin f /\ 0 <= f <= 1.
Proof.
  intros Hkn. unfold fraction. eexists. split; [reflexivity|].
  pose proof (inject_nat_nonneg k) as Hk.
  destruct n as [|n'].
  - assert (k = 0%nat) by lia. subst k. split; unfold Qle; simpl; lia.
  - pose proof (inject_nat_pos (S n') (Nat.neq_succ_0 n')) as Hn.
    assert (Hle : inject_Z (Z.of_nat k) <= inject_Z (Z.of_nat (S n')))
      by (rewrite <- Zle_Qle; lia).
    split.
    + apply Qle_shift_div_l; [exact Hn | lra].
    + apply Qle_shift_div_r; [exact Hn | lra].
Qed.

(** The ratio the code computes is the fraction, rounded. *)
Lemma ratio_rounds_fraction (k n : nat) :
  (k <= n)%nat ->
  fl_div (of_nat k) (js_max (Fin 1) (of_nat n)) = to_double (fraction k n)
  /\ unit_num (to_double (fraction k n)).
Proof.
  intros Hkn.
  destruct (ratio_is_fraction k n Hkn) as (q & Hq & _ & Hfq).
  destruct (fraction_unit k n Hkn) as (f & Hf & Hf01).
  unfold fl_div. rewrite Hq, Hf in *. simpl in Hfq. split.
  - unfold to_double. apply round_to_comp. exact Hfq.
  - apply unit_to_double. exact Hf01.
Qed.

(** The weighted mix of three ratios is a finite number that is not
    negative. *)
Lemma mix_nonneg (a b c : num) :
  unit_num a -> unit_num b -> unit_num c ->
  exists x,
    fl_add (fl_add (fl_mul a (double 6 10)) (fl_mul b (double 4 10)))
           (fl_mul c (double 5 10)) = Fin x
    /\ 0 <= x.
Proof.
  intros Ha Hb Hc.
  destruct (unit_fl_mul a (double 6 10) Ha (unit_double 6 10 ltac:(lia))) as (p & -> & Hp).
  destruct (unit_fl_mul b (double 4 10) Hb (unit_double 4 10 ltac:(lia))) as (q & -> & Hq).
  destruct (unit_fl_mul c (double 5 10) Hc (unit_double 5 10 ltac:(lia))) as (r & -> & Hr).
  unfold fl_add at 2. unfold add.
  destruct (to_double_bounded (p + q) 2) as (pq & -> & Hpq);
    [lra | change (inject_Z 2) with 2; lra | reflexivity|].
  change (inject_Z 2) with 2 in Hpq.
  unfold fl_add, add.
  destruct (to_double_bounded (pq + r) 3) as (x & -> & Hx);
    [lra | change (inject_Z 3) with 3; lra | reflexivity|].
  exists x. split; [reflexivity | lra].
Qed.

Lemma double_4_10 : double 4 10 = Fin (3602879701896397 # 9007199254740992).
Proof. vm_compute. reflexivity. Qed.

(** *** The sampling loop against the draws *)

Lemma same_string_sym (a b : num) : same_string a b = same_string b a.
Proof.
  destruct a as [p| | |], b as [q| | |]; simpl; try reflexivity.
  destruct (Qeq_bool p q) eqn:H1, (Qeq_bool q p) eqn:H2; try reflexivity.
  - apply Qeq_bool_iff in H1. apply Qeq_bool_neq in H2. exfalso. apply H2. symmetry. exact H1.
  - apply Qeq_bool_iff in H2. apply Qeq_bool_neq in H1. exfalso. apply H1. symmetry. exact H2.
Qed.

Lemma same_string_trans (a b c : num) :
  same_string a b = true -> same_string b c = true -> same_string a c = true.
Proof.
  destruct a as [p| | |], b as [q| | |], c as [r| | |]; simpl;
    try discriminate; try reflexivity.
  intros H1 H2. apply Qeq_bool_iff in H1. apply Qeq_bool_iff in H2.
  apply Qeq_bool_iff. rewrite H1. exact H2.
Qed.

Lemma same_string_refl (a : num) : same_string a a = true.
Proof. destruct a; simpl; try reflexivity. apply Qeq_bool_iff. reflexivity. Qed.

Lemma posKey_eqb_refl (a : PosKey) : posKey_eqb a a = true.
Proof. destruct a as [[a1 a2] a3]. simpl. rewrite !same_string_refl. reflexivity. Qed.

Lemma posKey_eqb_sym (a b : PosKey) : posKey_eqb a b = posKey_eqb b a.
Proof.
  destruct a as [[a1 a2] a3], b as [[b1 b2] b3]. simpl.
  rewrite (same_string_sym a1), (same_string_sym a2), (same_string_sym a3). reflexivity.
Qed.

Lemma posKey_eqb_trans (a b c : PosKey) :
  posKey_eqb a b = true -> posKey_eqb b c = true -> posKey_eqb a c = true.
Proof.
  destruct a as [[a1 a2] a3], b as [[b1 b2] b3], c as [[c1 c2] c3]. simpl.
  intros H1 H2.
  apply andb_true_iff in H1. destruct H1 as [H1 H13].
  apply andb_true_iff in H1. destruct H1 as [H11 H12].
  apply andb_true_iff in H2. destruct H2 as [H2 H23].
  apply andb_true_iff in H2. destruct H2 as [H21 H22].
  rewrite (same_string_trans _ _ _ H11 H21), (same_string_trans _ _ _ H12 H22),
          (same_string_trans _ _ _ H13 H23). reflexivity.
Qed.

Lemma keep_first_snoc {A} (same : A -> A -> bool) (l : list A) (x : A) :
  keep_first same (l ++ [x])
  = if existsb (same x) (keep_first same l) then keep_first same l
    else keep_first same l ++ [x].
Proof. unfold keep_first. rewrite fold_left_app. reflexivity. Qed.

Section AreaFacts.
Variables small thin : Triangle -> bool.

Let keys (ts : list Triangle) : list PosKey := keep_first posKey_eqb (map posKey ts).

(** The entry of the density map for the area of [k]. *)
Let entry_of (ts : list Triangle) (k : PosKey) : DensityEntry :=
  mkEntry (List.length (in_area k ts)) (existsb small (in_area k ts))
          (existsb thin (in_area k ts)).

(** The density map the loop builds from the triangles it analyses. *)
Definition density_of (ts : list Triangle) : list (PosKey * DensityEntry) :=
  fold_left (fun m t => density_update (posKey t) (small t) (thin t) m) ts [].

(** No key of the list is the same area as an earlier one. *)
Definition separate (ks : list PosKey) : Prop :=
  forall pre k post, ks = pre ++ k :: post -> existsb (posKey_eqb k) pre = false.

Lemma separate_tail (k : PosKey) (ks : list PosKey) : separate (k :: ks) -> separate ks.
Proof.
  intros H pre k' post Heq.
  specialize (H (k :: pre) k' post). simpl in H. rewrite Heq in H.
  specialize (H eq_refl). apply orb_false_iff in H. apply H.
Qed.

Lemma separate_snoc (ks : list PosKey) (k : PosKey) :
  separate ks -> existsb (posKey_eqb k) ks = false -> separate (ks ++ [k]).
Proof.
  intros Hks Hk pre k' post Heq.
  destruct post as [|z post'] using rev_ind.
  - apply app_inj_tail in Heq. destruct Heq as [<- <-]. exact Hk.
  - clear IHpost'. rewrite app_comm_cons, app_assoc in Heq.
    apply app_inj_tail in Heq. destruct Heq as [Heq _].
    exact (Hks pre k' post' Heq).
Qed.

Lemma keys_separate (ts : list Triangle) : separate (keys ts).
Proof.
  induction ts as [|t ts IH] using rev_ind.
  - intros pre k post Heq. destruct pre; discriminate.
  - unfold keys. rewrite map_app. simpl map. rewrite keep_first_snoc.
    fold (keys ts). destruct (existsb _ (keys ts)) eqn:Hin; [exact IH|].
    apply separate_snoc; assumption.
Qed.

Lemma keys_cover (ts : list Triangle) (t : Triangle) :
  In t ts -> existsb (posKey_eqb (posKey t)) (keys ts) = true.
Proof.
  induction ts as [|t' ts IH] using rev_ind; intros Hin; [destruct Hin|].
  unfold keys. rewrite map_app. simpl map. rewrite keep_first_snoc. fold (keys ts).
  apply in_app_or in Hin. destruct Hin as [Hin | [<- | []]].
  - specialize (IH Hin). destruct (existsb (posKey_eqb (posKey t')) (keys ts));
      [exact IH|]. rewrite existsb_app, IH. reflexivity.
  - destruct (existsb (posKey_eqb (posKey t')) (keys ts)) eqn:Hk; [exact Hk|].
    rewrite existsb_app. simpl. rewrite posKey_eqb_refl, orb_true_r. reflexivity.
Qed.

Lemma in_area_snoc (k : PosKey) (ts : list Triangle) (t : Triangle) :
  in_area k (ts ++ [t])
  = in_area k ts ++ (if posKey_eqb (posKey t) k then [t] else []).
Proof. unfold in_area. rewrite filter_app. reflexivity. Qed.

(** A triangle of a new area: no earlier triangle falls into it. *)
Lemma new_area_is_empty (ts : list Triangle) (k : PosKey) :
  existsb (posKey_eqb k) (keys ts) = false -> in_area k ts = [].
Proof.
  intros Hnew. unfold in_area.
  destruct (filter _ ts) as [|t rest] eqn:Hf; [reflexivity|].
  exfalso.
  assert (Hin : In t (filter (fun t => posKey_eqb (posKey t) k) ts))
    by (rewrite Hf; left; reflexivity).
  apply filter_In in Hin. destruct Hin as [Hin Hsame].
  pose proof (keys_cover ts t Hin) as Hcover.
  apply existsb_exists in Hcover. destruct Hcover as (k' & Hk' & Hsame').
  assert (Hk : posKey_eqb k k' = true).
  { apply (posKey_eqb_trans k (posKey t) k'); [|exact Hsame'].
    rewrite posKey_eqb_sym. exact Hsame. }
  assert (Hex : existsb (posKey_eqb k) (keys ts) = true)
    by (apply existsb_exists; exists k'; auto).
  congruence.
Qed.

(** [density_update] on a map with separate keys: the entry of the area
    of [key] is bumped, or a new entry is added at the end. *)
Lemma density_update_separate (key : PosKey) (s t : bool)
    (f : PosKey -> DensityEntry) (ks : list PosKey) :
  separate ks ->
  density_update key s t (map (fun k => (k, f k)) ks)
  = map (fun k => (k, if posKey_eqb key k
                      then mkEntry (S (entry_count (f k))) (entry_small (f k) || s)
                                   (entry_thin (f k) || t)
                      else f k)) ks
    ++ (if existsb (posKey_eqb key) ks then [] else [(key, mkEntry 1 s t)]).
Proof.
  induction ks as [|k ks IH]; intros Hsep; [reflexivity|].
  simpl. destruct (posKey_eqb key k) eqn:Hk; simpl.
  - rewrite app_nil_r. f_equal. apply map_ext_in. intros k' Hin.
    destruct (posKey_eqb key k') eqn:Hk'; [|reflexivity].
    exfalso. apply in_split in Hin. destruct Hin as (pre & post & ->).
    specialize (Hsep (k :: pre) k' post eq_refl). simpl in Hsep.
    apply orb_false_iff in Hsep. destruct Hsep as [Hsep _].
    assert (posKey_eqb k' k = true).
    { apply (posKey_eqb_trans k' key k); [|exact Hk]. rewrite posKey_eqb_sym. exact Hk'. }
    congruence.
  - rewrite (IH (separate_tail k ks Hsep)). reflexivity.
Qed.

(** The density map holds one entry per area, in order of first
    appearance, with the number of triangles of the area and whether one
    of them is small, or thin. *)
Lemma density_of_spec (ts : list Triangle) :
  density_of ts = map (fun k => (k, entry_of ts k)) (keys ts).
Proof.
  induction ts as [|t ts IH] using rev_ind; [reflexivity|].
  unfold density_of in *. rewrite fold_left_app. simpl fold_left. rewrite IH.
  rewrite (density_update_separate _ _ _ (entry_of ts) (keys ts) (keys_separate ts)).
  unfold keys at 3. rewrite map_app. simpl map. rewrite keep_first_snoc. fold (keys ts).
  assert (Hold : map (fun k => (k, if posKey_eqb (posKey t) k
                                   then mkEntry (S (List.length (in_area k ts)))
                                          (existsb small (in_area k ts) || small t)
                                          (existsb thin (in_area k ts) || thin t)
                                   else entry_of ts k)) (keys ts)
                 = map (fun k => (k, entry_of (ts ++ [t]) k)) (keys ts)).
  { apply map_ext. intros k. f_equal. unfold entry_of. rewrite in_area_snoc.
    destruct (posKey_eqb (posKey t) k); [|rewrite app_nil_r; reflexivity].
    rewrite length_app, !existsb_app. simpl. rewrite !orb_false_r, Nat.add_1_r.
    reflexivity. }
  rewrite Hold.
  destruct (existsb (posKey_eqb (posKey t)) (keys ts)) eqn:Hin.
  - rewrite app_nil_r. reflexivity.
  - rewrite map_app. simpl. f_equal. f_equal. f_equal.
    unfold entry_of. rewrite in_area_snoc, (new_area_is_empty ts _ Hin).
    rewrite posKey_eqb_refl. simpl. rewrite !orb_false_r. reflexivity.
Qed.

(** The high-detail entries of the map are the high-detail areas. *)
Lemma density_of_counts (ts : list Triangle) :
  List.length (density_of ts) = List.length (keys ts)
  /\ List.length (filter is_high_detail_area (density_of ts))
     = List.length (filter (high_detail_area small thin ts) (keys ts)).
Proof.
  rewrite density_of_spec. split; [apply length_map|].
  induction (keys ts) as [|k ks IH]; [reflexivity|].
  cbn [map filter].
  assert (Hsame : is_high_detail_area (k, entry_of ts k) = high_detail_area small thin ts k)
    by reflexivity.
  rewrite Hsame. destruct (high_detail_area small thin ts k); simpl; rewrite IH; reflexivity.
Qed.

End AreaFacts.

Section SamplingSpec.
Context (E : Externals).
Variables (geometry0 : BufferGeometry) (positions : list Vector3).

Let triangleCount := triangleCount_of positions (index geometry0).
Let small := is_small (smallFeatureThreshold_of E geometry0).
Let thin := is_thin (thinFeatureThreshold_of E geometry0).
Let step := sample_step E positions (index geometry0) triangleCount
              (smallFeatureThreshold_of E geometry0) (thinFeatureThreshold_of E geometry0).

(** The loop analyses each drawn face the first time it is drawn. *)
Lemma analysed_first_draws (l : list nat) :
  forall st,
    analyzedTriangles (fold_left step l st)
    = fold_left (fun kept x => if existsb (same_string x) kept then kept else kept ++ [x])
                (map (random_face E triangleCount) l) (analyzedTriangles st).
Proof.
  induction l as [|k l IH]; intros st; [reflexivity|].
  simpl. rewrite IH. f_equal. unfold step, sample_step.
  destruct (existsb _ (analyzedTriangles st)); reflexivity.
Qed.

(** The density map is the one built from the triangles analysed. *)
Lemma density_follows (l : list nat) :
  forall st,
    densityMap st = density_of small thin (sampled_triangles E geometry0 positions st) ->
    densityMap (fold_left step l st)
    = density_of small thin (sampled_triangles E geometry0 positions (fold_left step l st)).
Proof.
  induction l as [|k l IH]; intros st Hst; [exact Hst|].
  simpl. apply IH. unfold step, sample_step.
  destruct (existsb _ (analyzedTriangles st)); [exact Hst|].
  unfold sampled_triangles, density_of in *. cbn [densityMap analyzedTriangles].
  rewrite map_app, fold_left_app. simpl. rewrite <- Hst. reflexivity.
Qed.

Lemma sample_spec (seed : nat) :
  let st := sample E geometry0 positions seed in
  let draws := map (random_face E triangleCount)
                   (seq seed (iterations (js_min (Fin 10000) triangleCount))) in
  analyzedTriangles st = keep_first same_string draws
  /\ densityMap st = density_of small thin (sampled_triangles E geometry0 positions st).
Proof.
  cbv zeta. unfold sample. fold triangleCount. fold step. split.
  - rewrite analysed_first_draws. reflexivity.
  - apply density_follows. reflexivity.
Qed.

End SamplingSpec.

(** C9: for a geometry with positions, [analyzeFeatureSizes] returns the
    numbers of the sampled triangles (the faces drawn, each counted the
    first time it is drawn) that are flagged small and thin, their
    fractions of the sample, the fraction of the areas of the density map
    that are high-detail areas, and [geometryComplexity] equal to
    clamp(smallRatio x 0.6 + thinRatio x 0.4 + complexityRatio x 0.5, 0, 1),
    every operation rounded to a double as the code computes it;
    [isHighDetail] holds exactly when [geometryComplexity] exceeds 0.4.  The
    call throws only when the position attribute is missing. *)
Theorem geometryComplexity_is_clamped_mix (E : Externals) (g : BufferGeometry) (seed : nat) :
  match analyzeFeatureSizes E g seed, position g with
  | Ok profile, Some positions =>
      let triangleCount := triangleCount_of positions (index g) in
      let draws := map (random_face E triangleCount)
                       (seq seed (iterations (js_min (Fin 10000) triangleCount))) in
      let sampled := map (fun faceIndex =>
                            measure E (triangle_corners positions (index g) faceIndex))
                         (keep_first same_string draws) in
      let is_small := is_small (smallFeatureThreshold_of E g) in
      let is_thin := is_thin (thinFeatureThreshold_of E g) in
      let small := List.length (filter is_small sampled) in
      let thin := List.length (filter is_thin sampled) in
      let total := List.length sampled in
      let areas := keep_first posKey_eqb (map posKey sampled) in
      let highDetailAreas :=
        List.length (filter (high_detail_area is_small is_thin sampled) areas) in
      let smallRatio := to_double (fraction small total) in
      let thinRatio := to_double (fraction thin total) in
      let areaRatio := to_double (fraction highDetailAreas (List.length areas)) in
      smallFeatureCount profile = small
      /\ thinFeatureCount profile = thin
      /\ totalFeatures profile = total
      /\ smallFeatureRatio profile = smallRatio
      /\ thinFeatureRatio profile = thinRatio
      /\ complexityRatio profile = areaRatio
      /\ (geometryComplexity profile
          == clamp (fl_add (fl_add (fl_mul smallRatio (double 6 10))
                                   (fl_mul thinRatio (double 4 10)))
                           (fl_mul areaRatio (double 5 10)))
                   (Fin 0) (Fin 1))%num
      /\ isHighDetail profile = (geometryComplexity profile >? double 4 10)%num
  | Throw _, None => True
  | _, _ => False
  end.
Proof.
  unfold analyzeFeatureSizes. destruct (position g) as [positions|]; [|exact I].
  destruct (sample_counts E g positions seed) as (Hs & Ht & Hn).
  destruct (sample_spec E g positions seed) as [Hfaces Hmap]. cbv zeta in Hfaces, Hmap.
  set (st := sample E g positions seed) in *.
  assert (Hsampled : sampled_triangles E g positions st
                     = map (fun faceIndex =>
                              measure E (triangle_corners positions (index g) faceIndex))
                           (keep_first same_string
                              (map (random_face E (triangleCount_of positions (index g)))
                                 (seq seed (iterations
                                    (js_min (Fin 10000)
                                       (triangleCount_of positions (index g))))))))
    by (unfold sampled_triangles; rewrite Hfaces; reflexivity).
  rewrite Hsampled in Hs, Ht, Hn, Hmap.
  cbv zeta.
  set (sampled := map _ (keep_first same_string _)) in *.
  set (small := List.length (filter (is_small (smallFeatureThreshold_of E g)) sampled)) in *.
  set (thin := List.length (filter (is_thin (thinFeatureThreshold_of E g)) sampled)) in *.
  set (total := List.length sampled) in *.
  destruct (density_of_counts (is_small (smallFeatureThreshold_of E g))
              (is_thin (thinFeatureThreshold_of E g)) sampled) as [Hsize Hhigh].
  rewrite <- Hmap in Hsize, Hhigh.
  set (areas := keep_first posKey_eqb (map posKey sampled)) in *.
  set (highDetailAreas := List.length (filter (high_detail_area _ _ sampled) areas)) in *.
  assert (Hsmall : (small <= total)%nat) by apply filter_length_le.
  assert (Hthin : (thin <= total)%nat) by apply filter_length_le.
  assert (Harea : (highDetailAreas <= List.length areas)%nat) by apply filter_length_le.
  destruct (ratio_rounds_fraction small total Hsmall) as [Ha Hua].
  destruct (ratio_rounds_fraction thin total Hthin) as [Hb Hub].
  destruct (ratio_rounds_fraction highDetailAreas (List.length areas) Harea) as [Hc Huc].
  unfold profile_of. cbv zeta.
  cbn [smallFeatureCount thinFeatureCount totalFeatures smallFeatureRatio
       thinFeatureRatio complexityRatio geometryComplexity isHighDetail].
  rewrite Hs, Ht, Hn, Hsize, Hhigh, Ha, Hb, Hc.
  destruct (mix_nonneg _ _ _ Hua Hub Huc) as (x & Hx & Hx0).
  rewrite Hx.
  repeat (split; [reflexivity|]).
  split.
  - apply min_one_is_clamp; [exact Hx0 | reflexivity].
  - rewrite double_4_10. symmetry. apply min_one_above. reflexivity.
Qed.

(** Two of fifteen triangles small and twelve thin, in no high-detail
    area: the rounded mix is 0.4000000000000001 and the mesh is
    high-detail, where the mix of the exact fractions is 0.4. *)
Example rounded_mix_above_threshold :
  let profile := profile_of (mkSample [] 2 12 15 []) in
  geometryComplexity profile = Fin (7205759403792795 # 18014398509481984)
  /\ isHighDetail profile = true
  /\ (fraction 2 15 * dec 6 10 + fraction 12 15 * dec 4 10 + fraction 0 0 * dec 5 10
      == dec 4 10)%num.
Proof. vm_compute. repeat split. Qed.

(** ** Crease-aware normals *)

Lemma push_at_spec {A} (x : A) (l : list (list A)) :
  forall k l', push_at k x l = Ok l' ->
    List.length l' = List.length l
    /\ forall v, nth v l' [] = if (v =? k)%nat then nth v l [] ++ [x] else nth v l [].
Proof.
  induction l as [|xs rest IH]; intros k l' H; [destruct k; discriminate H|].
  destruct k as [|k'].
  - simpl in H. inversion H; subst. split; [reflexivity|]. intros [|v]; reflexivity.
  - change (push_at (S k') x (xs :: rest))
      with (rest' <- push_at k' x rest ;; Ok (xs :: rest')) in H.
    destruct (push_at k' x rest) as [rest'|e] eqn:Hrest; simpl in H; [|discriminate].
    inversion H; subst. destruct (IH _ _ Hrest) as [Hlen Hnth].
    split; [simpl; congruence|]. intros [|v]; simpl; [reflexivity | apply Hnth].
Qed.

Lemma push_face_spec {A} (idx : option nat) (x : A) (l l' : list (list A)) :
  push_face idx x l = Ok l' ->
  List.length l' = List.length l
  /\ forall v, nth v l' []
               = nth v l [] ++ (if match idx with Some w => (w =? v)%nat | None => false end
                                then [x] else []).
Proof.
  destruct idx as [k|]; simpl; [|discriminate].
  intros H. destruct (push_at_spec x l k l' H) as [Hlen Hnth].
  split; [exact Hlen|]. intros v. rewrite Hnth, (Nat.eqb_sym v k).
  destruct (k =? v)%nat; [reflexivity | rewrite app_nil_r; reflexivity].
Qed.

Section CreaseFacts.
Context (E : Externals).
Variables (pos : list Vector3) (indices : option (list nat)).

Let touching (v i : nat) : list nat :=
  flat_map (fun k => if corner_is indices v i k then [i] else []) [0; 1; 2]%nat.

Lemma face_pass_spec (i : nat) (faceNormals faceNormals' : list Vector3)
    (vertexFaces vertexFaces' : list (list nat)) :
  face_pass E pos indices (faceNormals, vertexFaces) i = Ok (faceNormals', vertexFaces') ->
  faceNormals' = faceNormals ++ [face_normal_of E pos indices i]
  /\ List.length vertexFaces' = List.length vertexFaces
  /\ forall v, nth v vertexFaces' [] = nth v vertexFaces [] ++ touching v i.
Proof.
  unfold face_pass.
  destruct (push_face (face_vertex indices (i * 3)) i vertexFaces) as [vf1|e] eqn:H1;
    simpl; [|discriminate].
  destruct (push_face (face_vertex indices (i * 3 + 1)) i vf1) as [vf2|e] eqn:H2;
    simpl; [|discriminate].
  destruct (push_face (face_vertex indices (i * 3 + 2)) i vf2) as [vf3|e] eqn:H3;
    simpl; [|discriminate].
  intros H. inversion H; subst.
  destruct (push_face_spec _ _ _ _ H1) as [L1 N1].
  destruct (push_face_spec _ _ _ _ H2) as [L2 N2].
  destruct (push_face_spec _ _ _ _ H3) as [L3 N3].
  split; [reflexivity|]. split; [congruence|].
  intros v. rewrite N3, N2, N1. unfold touching, corner_is. simpl.
  rewrite Nat.add_0_r, app_nil_r, <- !app_assoc. reflexivity.
Qed.

Lemma passes_spec (n : nat) :
  forall a faceNormals vertexFaces faceNormals' vertexFaces',
    for_each (face_pass E pos indices) (faceNormals, vertexFaces) (seq a n)
      = Ok (faceNormals', vertexFaces') ->
    faceNormals' = faceNormals ++ map (face_normal_of E pos indices) (seq a n)
    /\ List.length vertexFaces' = List.length vertexFaces
    /\ forall v, nth v vertexFaces' []
                 = nth v vertexFaces [] ++ flat_map (touching v) (seq a n).
Proof.
  induction n as [|n IH]; intros a fn vf fn' vf' H; cbn [seq for_each] in H.
  - inversion H; subst. simpl. rewrite app_nil_r. split; [reflexivity|].
    split; [reflexivity|]. intros v. rewrite app_nil_r. reflexivity.
  - destruct (face_pass E pos indices (fn, vf) a) as [[fn1 vf1]|e] eqn:Hstep;
      simpl in H; [|discriminate].
    destruct (face_pass_spec _ _ _ _ _ Hstep) as (Hfn & Hlen & Hnth).
    destruct (IH _ _ _ _ _ H) as (Hfn' & Hlen' & Hnth').
    subst fn1. split; [|split].
    + rewrite Hfn'. simpl. rewrite <- app_assoc. reflexivity.
    + congruence.
    + intros v. rewrite Hnth', Hnth. simpl. rewrite <- app_assoc. reflexivity.
Qed.

Lemma nth_repeat_nil {A} (n v : nat) : nth v (repeat (@nil A) n) [] = [].
Proof.
  revert v. induction n as [|n IH]; intros [|v]; simpl; auto.
Qed.

Lemma incident_faces_bound (faceCount v f : nat) :
  In f (incident_faces indices faceCount v) -> (f < faceCount)%nat.
Proof.
  unfold incident_faces. intros H. apply in_flat_map in H.
  destruct H as (i & Hi & Hin). apply in_seq in Hi.
  apply in_flat_map in Hin. destruct Hin as (k & _ & Hk).
  destruct (corner_is indices v i k); simpl in Hk; [|contradiction].
  destruct Hk as [<- | []]. lia.
Qed.

(** The first two passes gather, at each vertex, the normals of the faces
    touching it. *)
Lemma collect_vertex_normals_spec (vertexNormals : list (list Vector3)) :
  collect_vertex_normals E pos indices = Ok vertexNormals ->
  List.length vertexNormals = List.length pos
  /\ forall v, nth v vertexNormals [] = incident_normals E pos indices v.
Proof.
  unfold collect_vertex_normals.
  set (n := iterations (faceCount_of pos indices)).
  destruct (for_each (face_pass E pos indices) ([], repeat [] (List.length pos)) (seq 0 n))
    as [[faceNormals vertexFaces]|e] eqn:Hpass; simpl; [|discriminate].
  intros H. inversion H; subst. clear H.
  destruct (passes_spec _ _ _ _ _ _ Hpass) as (Hfn & Hlen & Hnth).
  simpl in Hfn. split.
  - rewrite length_map, Hlen, repeat_length. reflexivity.
  - intros v.
    change (@nil Vector3)
      with ((fun faces => map (fun faceIdx => nth faceIdx faceNormals NaN3) faces) []).
    rewrite map_nth. rewrite Hnth, nth_repeat_nil. simpl.
    unfold incident_normals. fold n.
    change (flat_map (touching v) (seq 0 n)) with (incident_faces indices n v).
    apply map_ext_in. intros f Hf. apply incident_faces_bound in Hf.
    rewrite Hfn.
    rewrite (nth_indep _ NaN3 (face_normal_of E pos indices 0))
      by (rewrite length_map, length_seq; exact Hf).
    rewrite map_nth, seq_nth by exact Hf. reflexivity.
Qed.

End CreaseFacts.

Section ClusterFacts.
Variable creaseDot : num.

Let fails (n : Vector3) (c : NormalGroup) : Prop :=
  (dot n (reference c) >? creaseDot)%num = false.

Lemma join_first_group_none (n : Vector3) (normalGroups : list NormalGroup) :
  join_first_group creaseDot n normalGroups = None -> Forall (fails n) normalGroups.
Proof.
  induction normalGroups as [|group rest IH]; simpl; intros H; [constructor|].
  destruct (dot n (reference group) >? creaseDot)%num eqn:Hdot; [discriminate|].
  destruct (join_first_group creaseDot n rest); [discriminate|].
  constructor; [exact Hdot | apply IH; reflexivity].
Qed.

Lemma join_first_group_some (n : Vector3) (normalGroups joined : list NormalGroup) :
  join_first_group creaseDot n normalGroups = Some joined ->
  exists before g after,
    normalGroups = before ++ g :: after
    /\ Forall (fails n) before
    /\ (dot n (reference g) >? creaseDot)%num = true
    /\ joined = before ++ mkNormalGroup (reference g) (normals g ++ [n]) :: after.
Proof.
  revert joined. induction normalGroups as [|group rest IH]; simpl; intros joined H;
    [discriminate|].
  destruct (dot n (reference group) >? creaseDot)%num eqn:Hdot.
  - inversion H; subst. exists [], group, rest. repeat split; auto.
  - destruct (join_first_group creaseDot n rest) as [rest'|] eqn:Hrest; [|discriminate].
    inversion H; subst.
    destruct (IH _ eq_refl) as (before & g & after & Hgs & Hbefore & Hg & Hjoined).
    exists (group :: before), g, after. subst. repeat split; auto.
Qed.

(** The grouping loop computes the greedy clustering. *)
Lemma group_normals_greedy (vertexFaceNormals : list Vector3) :
  greedy creaseDot vertexFaceNormals (group_normals creaseDot vertexFaceNormals).
Proof.
  induction vertexFaceNormals as [|n seen IH] using rev_ind.
  - constructor.
  - unfold group_normals in *. rewrite fold_left_app. simpl. unfold group_step at 1.
    destruct (join_first_group creaseDot n (fold_left (group_step creaseDot) seen []))
      as [joined|] eqn:Hjoin.
    + destruct (join_first_group_some _ _ _ Hjoin)
        as (before & g & after & Hgs & Hbefore & Hg & Hjoined).
      subst joined. rewrite Hgs in IH. apply greedy_join; assumption.
    + apply greedy_new; [exact IH | apply join_first_group_none; exact Hjoin].
Qed.

End ClusterFacts.

Lemma greedy_nonempty (creaseDot : num) (seen : list Vector3) (clusters : list NormalGroup) :
  greedy creaseDot seen clusters -> seen <> [] -> clusters <> [].
Proof.
  intros H Hseen. destruct H; [contradiction| |]; intros Hnil;
    apply app_eq_nil in Hnil; destruct Hnil as [_ Hnil]; discriminate.
Qed.

Definition size (g : NormalGroup) : nat := List.length (normals g).

(** No cluster of the greedy clustering is empty. *)
Lemma greedy_clusters_filled (creaseDot : num) (seen : list Vector3)
    (clusters : list NormalGroup) :
  greedy creaseDot seen clusters -> Forall (fun c => 0 < size c)%nat clusters.
Proof.
  induction 1 as [| seen n before g after Hprev IH Hbefore Hg
                  | seen n clusters Hprev IH Hnone].
  - constructor.
  - apply Forall_app in IH. destruct IH as [IHb IHa].
    apply Forall_app. split; [exact IHb|].
    inversion IHa; subst. constructor; [|assumption].
    unfold size. simpl. rewrite length_app. simpl. lia.
  - apply Forall_app. split; [exact IH|].
    constructor; [unfold size; simpl; lia | constructor].
Qed.

(** The scan keeps the first group of largest size. *)
Lemma dominant_scan (first : NormalGroup) (l : list NormalGroup) :
  let d := fold_left dominant_step l first in
  (d = first /\ Forall (fun g => size g <= size first)%nat l)
  \/ (exists before after,
        l = before ++ d :: after
        /\ (size first < size d)%nat
        /\ Forall (fun g => size g < size d)%nat before
        /\ Forall (fun g => size g <= size d)%nat after).
Proof.
  induction l as [|g l IH] using rev_ind; simpl.
  - left. split; [reflexivity | constructor].
  - rewrite fold_left_app. simpl fold_left.
    set (d := fold_left dominant_step l first) in *. simpl in IH.
    assert (Hstep : dominant_step d g = if (size d <? size g)%nat then g else d)
      by reflexivity.
    rewrite Hstep. clear Hstep.
    destruct (Nat.ltb_spec (size d) (size g)) as [Hlt | Hge].
    + right. exists l, []. split; [reflexivity|].
      destruct IH as [[Hd Hall] | (before & after & Hl & Hfirst & Hbefore & Hafter)].
      * rewrite Hd in Hlt. split; [exact Hlt|]. split; [|constructor].
        eapply Forall_impl; [|exact Hall]. simpl. intros; lia.
      * split; [lia|]. split; [|constructor]. rewrite Hl.
        apply Forall_app. split.
        -- eapply Forall_impl; [|exact Hbefore]. simpl. intros; lia.
        -- constructor; [exact Hlt|].
           eapply Forall_impl; [|exact Hafter]. simpl. intros; lia.
    + destruct IH as [[Hd Hall] | (before & after & Hl & Hfirst & Hbefore & Hafter)].
      * left. split; [exact Hd|]. apply Forall_app. split; [exact Hall|].
        constructor; [rewrite <- Hd; exact Hge | constructor].
      * right. exists before, (after ++ [g]). split; [|split; [exact Hfirst|split]].
        -- rewrite Hl at 1. rewrite <- app_assoc. reflexivity.
        -- exact Hbefore.
        -- apply Forall_app. split; [exact Hafter|]. constructor; [exact Hge|constructor].
Qed.

Lemma dominant_is_first_largest (first : NormalGroup) (rest : list NormalGroup) :
  exists before after,
    first :: rest = before ++ dominant first (first :: rest) :: after
    /\ Forall (fun g => size g < size (dominant first (first :: rest)))%nat before
    /\ Forall (fun g => size g <= size (dominant first (first :: rest)))%nat after.
Proof.
  assert (Hff : dominant_step first first = first)
    by (unfold dominant_step; rewrite Nat.ltb_irrefl; reflexivity).
  unfold dominant. simpl fold_left. rewrite Hff.
  destruct (dominant_scan first rest)
    as [[Hd Hall] | (before & after & Hl & Hfirst & Hbefore & Hafter)]; simpl in *.
  - exists [], rest. rewrite Hd. split; [reflexivity|]. split; [constructor | exact Hall].
  - exists (first :: before), after. split; [|split].
    + simpl. f_equal. exact Hl.
    + constructor; [exact Hfirst | exact Hbefore].
    + exact Hafter.
Qed.

Lemma sum_normals_from (l : list Vector3) (x y z : num) :
  fold_left vadd l (vec3 x y z)
  = vec3 (fold_left (fun total n => fl_add total (vx n)) l x)
         (fold_left (fun total n => fl_add total (vy n)) l y)
         (fold_left (fun total n => fl_add total (vz n)) l z).
Proof.
  revert x y z. induction l as [|n l IH]; intros x y z; [reflexivity|].
  simpl. unfold vadd at 2. simpl. apply IH.
Qed.

Lemma sum_normals_is_vector_sum (l : list Vector3) : sum_normals l = vector_sum l.
Proof. unfold sum_normals, zero3. apply sum_normals_from. Qed.

Lemma normalize_is_direction (E : Externals) (a : Vector3) : normalize E a = direction E a.
Proof.
  unfold normalize, direction, multiplyScalar, vlength, or_one.
  destruct (Math_sqrt E _) as [q| | |]; reflexivity.
Qed.

Lemma times_quotient (k : nat) (a : num) :
  (0 < k)%nat -> (of_nat k * (a / of_nat k) == a)%num.
Proof.
  intros Hk. pose proof (inject_nat_pos k ltac:(lia)) as Hpos.
  unfold of_nat, of_Z in *.
  assert (Hsign : Qsign (inject_Z (Z.of_nat k)) = Gt)
    by (unfold Qsign; apply Qgt_alt; exact Hpos).
  assert (Hle : Qle_bool 0 (inject_Z (Z.of_nat k)) = true)
    by (apply Qle_bool_iff; lra).
  destruct a as [q| | |]; unfold div, mul.
  - rewrite Hsign. simpl. field. lra.
  - rewrite Hle. unfold inf_times. rewrite Hsign. exact I.
  - rewrite Hle. unfold inf_times. rewrite Hsign. exact I.
  - exact I.
Qed.

(** C8: for a vertex that belongs to at least one triangle, the normal
    [toCreasedNormals] stores is the sum of the largest cluster of the face
    normals incident to it, scaled to length 1 and rounded to single
    precision; that sum is the size of the cluster times its average, so
    what is stored is the normalized average.  The largest cluster is the
    first one among clusters of equal size, and the clusters are those of
    the greedy clustering against cos(creaseAngle). *)
Theorem creased_normal_is_largest_cluster (E : Externals) (g creased : BufferGeometry)
    (creaseAngle : num) (pos : list Vector3) (v : nat) :
  toCreasedNormals E g creaseAngle = Ok creased ->
  position g = Some pos ->
  incident_normals E pos (index g) v <> [] ->
  exists stored clusters before largest after,
    normal creased = Some stored
    /\ List.length stored = List.length pos
    /\ greedy (cos_degrees E creaseAngle) (incident_normals E pos (index g) v) clusters
    /\ clusters = before ++ largest :: after
    /\ Forall (fun c => size c < size largest)%nat before
    /\ Forall (fun c => size c <= size largest)%nat after
    /\ (0 < size largest)%nat
    /\ same_vector (times (size largest) (average (normals largest)))
                   (vector_sum (normals largest))
    /\ nth v stored zero3
       = in_single_precision (direction E (vector_sum (normals largest))).
Proof.
  intros Hrun Hpos Htouch. unfold toCreasedNormals in Hrun. rewrite Hpos in Hrun.
  destruct (collect_vertex_normals E pos (index g)) as [vertexNormals|e] eqn:Hcollect;
    simpl in Hrun; [|discriminate].
  inversion Hrun; subst creased. clear Hrun.
  destruct (collect_vertex_normals_spec E pos (index g) vertexNormals Hcollect)
    as [Hlen Hnth].
  set (creaseDot := cos_degrees E creaseAngle).
  set (incident := incident_normals E pos (index g) v) in *.
  pose proof (group_normals_greedy creaseDot incident) as Hgreedy.
  pose proof (greedy_nonempty _ _ _ Hgreedy Htouch) as Hsome.
  pose proof (greedy_clusters_filled _ _ _ Hgreedy) as Hparts.
  destruct (group_normals creaseDot incident) as [|first rest] eqn:Hgroups;
    [contradiction|].
  destruct (dominant_is_first_largest first rest) as (before & after & Hsplit & Hb & Ha).
  set (largest := dominant first (first :: rest)) in *.
  assert (Hfilled : (0 < size largest)%nat).
  { rewrite Hsplit in Hparts. apply Forall_app in Hparts. destruct Hparts as [_ Hparts].
    inversion Hparts; assumption. }
  exists (map (stored_normal E creaseDot) vertexNormals), (first :: rest), before,
         largest, after.
  split; [reflexivity|]. split; [rewrite length_map; exact Hlen|].
  split; [exact Hgreedy|]. split; [exact Hsplit|]. split; [exact Hb|]. split; [exact Ha|].
  split; [exact Hfilled|]. split.
  - unfold same_vector, times, average, size in *. simpl.
    repeat split; apply times_quotient; exact Hfilled.
  - change zero3 with (stored_normal E creaseDot []).
    rewrite map_nth, Hnth. fold incident.
    unfold stored_normal, vertex_normal. rewrite Hgroups. fold largest.
    rewrite sum_normals_is_vector_sum, normalize_is_direction.
    destruct incident; [contradiction | reflexivity].
Qed.

Lemma creased_normal_is_largest_cluster_witness :
  exists stored clusters before largest after,
    normal (match toCreasedNormals plate_world fan (Fin 3) with
            | Ok creased => creased
            | Throw _ => bare
            end) = Some stored
    /\ List.length stored = List.length [pt 0 0; pt 3 0; pt 3 4; pt 0 4; pt 1 2]
    /\ greedy (cos_degrees plate_world (Fin 3))
              (incident_normals plate_world [pt 0 0; pt 3 0; pt 3 4; pt 0 4; pt 1 2]
                 (index fan) 4) clusters
    /\ clusters = before ++ largest :: after
    /\ Forall (fun c => size c < size largest)%nat before
    /\ Forall (fun c => size c <= size largest)%nat after
    /\ (0 < size largest)%nat
    /\ same_vector (times (size largest) (average (normals largest)))
                   (vector_sum (normals largest))
    /\ nth 4 stored zero3
       = in_single_precision (direction plate_world (vector_sum (normals largest))).
Proof.
  apply (creased_normal_is_largest_cluster plate_world fan
           (match toCreasedNormals plate_world fan (Fin 3) with
            | Ok creased => creased
            | Throw _ => bare
            end)
           (Fin 3) [pt 0 0; pt 3 0; pt 3 4; pt 0 4; pt 1 2] 4).
  - vm_compute. reflexivity.
  - reflexivity.
  - vm_compute. discriminate.
Defined.

(** At the fold of [folded], vertex 0 meets two faces with normal (0, 0, 1)
    and one with normal (-1, 0, 0): the normal stored is that of the two,
    not the direction of the sum of all three. *)
Example creased_fold_follows_the_larger_side :
  incident_normals plate_world
    [corner 0 0 0; corner 1 0 0; corner 0 1 0; corner (-1) 0 0; corner 0 0 1]
    (index folded) 0
  = [corner 0 0 1; corner 0 0 1; corner (-1) 0 0]
  /\ match toCreasedNormals plate_world folded (Fin 3) with
     | Ok creased =>
         option_map (fun stored => nth 0 stored zero3) (normal creased)
         = Some (corner 0 0 1)
     | Throw _ => False
     end.
Proof. vm_compute. split; reflexivity. Qed.

(** * Further properties *)

(** ** Material groups after a restore *)

Definition finite_group (g : Group) : Prop :=
  exists s c : Q, start g = Fin s /\ count g = Fin c.

(** The sum of the counts of a list of groups. *)
Definition total_count (gs : list Group) : num :=
  fold_right (fun g acc => (count g + acc)%num) (Fin 0) gs.

Lemma preserved_groups_finite (g : BufferGeometry) (gs : list Group) :
  preserveMaterialGroups g = Some gs -> Forall finite_group gs.
Proof.
  unfold preserveMaterialGroups. destruct (groups g) as [|g0 rest]; [discriminate|].
  remember (g0 :: rest) as l. intros H. injection H as <-.
  apply Forall_forall. intros x Hx. apply in_map_iff in Hx.
  destruct Hx as (y & <- & _). unfold finite_group, json_num. simpl.
  destruct (start y), (count y); eauto.
Qed.

Lemma scaled_group_finite (q : Q) (g : Group) :
  finite_group g -> finite_group (scale_group (Fin q) g).
Proof.
  intros (s & c & Hs & Hc). unfold finite_group, scale_group. simpl.
  rewrite Hs, Hc. simpl. unfold of_Z. eauto.
Qed.

(** Every group the re-packing pass leaves ends at or before the index
    count, whatever the running offset was. *)
Lemma repack_ends_in_range (n : Q) (gs : list Group) :
  Forall finite_group gs ->
  forall q, Forall (fun r => (start r + count r <=? Fin n)%num = true)
                   (repack (Fin n) (Fin q) gs).
Proof.
  induction 1 as [|g rest (s & c & Hs & Hc) _ IH]; intros q; simpl; [constructor|].
  rewrite Hc. change (Fin q + Fin c)%num with (Fin (q + c)).
  constructor; [|apply IH]. simpl start. simpl count.
  unfold gt, lt, sub, neg, add.
  destruct (Qlt_bool n (q + c)) eqn:Hover; unfold le; apply Qle_bool_iff.
  - lra.
  - apply Qlt_bool_false_iff in Hover. exact Hover.
Qed.

(** After [restoreMaterialGroups] on a geometry with a non-zero index
    count, every group ends inside the index range: start + count is at most
    the index count. *)
Theorem restored_groups_end_in_range (g g' : BufferGeometry) (n : nat)
    (originalGroups : list Group) :
  index_or_position_count g = Ok n ->
  n <> 0%nat ->
  Forall finite_group originalGroups ->
  restoreMaterialGroups g (Some originalGroups) = Ok g' ->
  Forall (fun r => (start r + count r <=? of_nat n)%num = true) (groups g').
Proof.
  intros Hn Hpos Hfin Hrun. unfold restoreMaterialGroups in Hrun.
  rewrite Hn in Hrun. unfold bind at 1 in Hrun.
  unfold scaled_groups in Hrun. rewrite (scaleFactor_nonzero g n Hn Hpos) in Hrun.
  unfold bind in Hrun. inversion Hrun; subst g'. clear Hrun. simpl groups.
  apply repack_ends_in_range.
  apply Forall_forall. intros x Hx. apply in_map_iff in Hx.
  destruct Hx as (y & <- & Hy). apply scaled_group_finite.
  rewrite Forall_forall in Hfin. apply Hfin. exact Hy.
Qed.

Lemma restored_groups_end_in_range_witness :
  Forall (fun r => (start r + count r <=? of_nat 12)%num = true)
         [ mkGroup (of_Z 0) (of_Z 9) (Some 0%nat);
           mkGroup (of_Z 9) (of_Z 3) (Some 1%nat);
           mkGroup (of_Z 18) (of_Z (-6)) (Some 2%nat) ].
Proof.
  apply (restored_groups_end_in_range fan
           (set_groups fan [ mkGroup (of_Z 0) (of_Z 9) (Some 0%nat);
                             mkGroup (of_Z 9) (of_Z 3) (Some 1%nat);
                             mkGroup (of_Z 18) (of_Z (-6)) (Some 2%nat) ])
           12 three_groups).
  - reflexivity.
  - discriminate.
  - repeat constructor; do 2 eexists; split; reflexivity.
  - vm_compute. reflexivity.
Defined.

(** A group whose count is a finite, non-negative number. *)
Definition counted_group (g : Group) : Prop :=
  exists s c : Q, start g = Fin s /\ count g = Fin c /\ 0 <= c.

Lemma total_count_counted (gs : list Group) :
  Forall counted_group gs -> exists t, total_count gs = Fin t /\ 0 <= t.
Proof.
  induction 1 as [|g rest (s & c & _ & Hc & Hc0) _ (t & Ht & Ht0)]; simpl.
  - exists 0. split; [reflexivity | lra].
  - rewrite Hc, Ht. exists (c + t). split; [reflexivity | lra].
Qed.

Lemma scaled_group_counted (q : Q) (g : Group) :
  q == 1 -> counted_group g -> counted_group (scale_group (Fin q) g).
Proof.
  intros Hq (s & c & Hs & Hc & Hc0). unfold counted_group, scale_group.
  cbn [start count]. rewrite Hs, Hc. unfold mul, js_floor, of_Z.
  do 2 eexists. split; [reflexivity|]. split; [reflexivity|].
  assert (H0 : (0 <= Qfloor (c * q))%Z).
  { change 0%Z with (Qfloor 0). apply Qfloor_resp_le. rewrite Hq. lra. }
  change 0 with (inject_Z 0). rewrite <- Zle_Qle. exact H0.
Qed.

(** The counts left by the re-packing pass add up to what is left of the
    index range after the running offset, and to nothing once the offset has
    passed it. *)
Lemma repack_total (n : Q) (gs : list Group) :
  Forall counted_group gs ->
  forall q, exists t,
    total_count (repack (Fin n) (Fin q) gs) = Fin t
    /\ (q <= n -> t <= n - q) /\ (n < q -> t <= 0).
Proof.
  induction 1 as [|g rest (s & c & _ & Hc & Hc0) _ IH]; intros q; simpl.
  - exists 0. split; [reflexivity|]. split; intros; lra.
  - rewrite Hc. change (Fin q + Fin c)%num with (Fin (q + c)).
    destruct (IH (q + c)) as (t & Ht & Hin & Hout). rewrite Ht.
    unfold gt, lt, sub, neg, add.
    destruct (Qlt_bool n (q + c)) eqn:Hover.
    + apply Qlt_bool_iff in Hover. eexists. split; [reflexivity|].
      pose proof (Hout Hover). split; intros; lra.
    + apply Qlt_bool_false_iff in Hover. eexists. split; [reflexivity|].
      pose proof (Hin Hover). split; intros; lra.
Qed.

(** After [restoreMaterialGroups] on a geometry with a non-zero index
    count, the counts of the groups add up to at most the index count,
    provided the original counts are not negative. *)
Theorem restored_counts_sum_in_range (g g' : BufferGeometry) (n : nat)
    (originalGroups : list Group) :
  index_or_position_count g = Ok n ->
  n <> 0%nat ->
  Forall counted_group originalGroups ->
  restoreMaterialGroups g (Some originalGroups) = Ok g' ->
  (total_count (groups g') <=? of_nat n)%num = true.
Proof.
  intros Hn Hpos Hcounted Hrun. unfold restoreMaterialGroups in Hrun.
  rewrite Hn in Hrun. unfold bind at 1 in Hrun.
  unfold scaled_groups in Hrun. rewrite (scaleFactor_nonzero g n Hn Hpos) in Hrun.
  unfold bind in Hrun. inversion Hrun; subst g'. clear Hrun. simpl groups.
  set (p := inject_Z (Z.of_nat n)).
  assert (Hone : p / p == 1).
  { apply Qmult_inv_r. intros H0. pose proof (inject_nat_pos n Hpos) as Hlt.
    fold p in Hlt. rewrite H0 in Hlt. apply (Qlt_irrefl 0 Hlt). }
  assert (Hscaled : Forall counted_group (map (scale_group (Fin (p / p))) originalGroups)).
  { apply Forall_forall. intros x Hx. apply in_map_iff in Hx.
    destruct Hx as (y & <- & Hy). apply scaled_group_counted; [exact Hone|].
    rewrite Forall_forall in Hcounted. apply Hcounted. exact Hy. }
  destruct (repack_total p _ Hscaled 0) as (t & Ht & Hin & _).
  unfold of_nat, of_Z. fold p. change (Fin (inject_Z 0)) with (Fin 0) in *.
  rewrite Ht. unfold le. apply Qle_bool_iff.
  pose proof (inject_nat_nonneg n) as Hp. fold p in Hp.
  pose proof (Hin Hp). lra.
Qed.

Lemma restored_counts_sum_in_range_witness :
  (total_count [ mkGroup (of_Z 0) (of_Z 9) (Some 0%nat);
                 mkGroup (of_Z 9) (of_Z 3) (Some 1%nat);
                 mkGroup (of_Z 18) (of_Z (-6)) (Some 2%nat) ]
   <=? of_nat 12)%num = true.
Proof.
  apply (restored_counts_sum_in_range fan
           (set_groups fan [ mkGroup (of_Z 0) (of_Z 9) (Some 0%nat);
                             mkGroup (of_Z 9) (of_Z 3) (Some 1%nat);
                             mkGroup (of_Z 18) (of_Z (-6)) (Some 2%nat) ])
           12 three_groups).
  - reflexivity.
  - discriminate.
  - repeat constructor; do 2 eexists; (split; [reflexivity|split; [reflexivity|]]);
      unfold Qle; simpl; lia.
  - vm_compute. reflexivity.
Defined.

(** Groups that follow one another without gap or overlap from [offset]. *)
Fixpoint contiguous_from (offset : num) (gs : list Group) : Prop :=
  match gs with
  | [] => True
  | g :: rest => start g = offset /\ contiguous_from (offset + count g)%num rest
  end.

Lemma repack_fitting (n : Q) (gs : list Group) :
  Forall counted_group gs ->
  forall q t, total_count gs = Fin t -> q + t <= n ->
    map count (repack (Fin n) (Fin q) gs) = map count gs
    /\ contiguous_from (Fin q) (repack (Fin n) (Fin q) gs).
Proof.
  induction 1 as [|g rest (s & c & _ & Hc & Hc0) Hrest IH]; intros q t Ht Hfit;
    cbn [repack].
  - split; [reflexivity | exact I].
  - destruct (total_count_counted rest Hrest) as (t' & Ht' & Ht0).
    simpl in Ht. rewrite Hc, Ht' in Ht. simpl in Ht. injection Ht as <-.
    rewrite Hc. change (Fin q + Fin c)%num with (Fin (q + c)).
    assert (Hover : (Fin (q + c) >? Fin n)%num = false) by (apply gt_Fin_false; lra).
    rewrite Hover. cbn [map contiguous_from start count].
    destruct (IH (q + c) t' Ht') as [Hcounts Hcont]; [lra|].
    split; [rewrite Hcounts, Hc; reflexivity|]. split; [reflexivity|].
    change (Fin q + Fin c)%num with (Fin (q + c)). exact Hcont.
Qed.

Lemma scaled_groups_identity (g : BufferGeometry) (n : nat) (originalGroups : list Group) :
  index_or_position_count g = Ok n ->
  n <> 0%nat ->
  Forall integral originalGroups ->
  scaled_groups g originalGroups = Ok originalGroups.
Proof.
  intros Hn Hpos Hint. unfold scaled_groups.
  rewrite (scaleFactor_nonzero g n Hn Hpos). unfold bind. f_equal.
  set (p := inject_Z (Z.of_nat n)).
  assert (Hone : p / p == 1).
  { apply Qmult_inv_r. intros H0. pose proof (inject_nat_pos n Hpos) as Hlt.
    fold p in Hlt. rewrite H0 in Hlt. apply (Qlt_irrefl 0 Hlt). }
  induction Hint as [|grp rest Hg _ IH]; simpl; [reflexivity|].
  rewrite (scale_group_one _ grp Hone Hg), IH. reflexivity.
Qed.

(** When the original integer counts fit into the index count,
    [restoreMaterialGroups] keeps every count and lays the groups out one
    after the other from 0, without gap or overlap. *)
Theorem fitting_groups_are_repacked_contiguously (g g' : BufferGeometry) (n : nat)
    (originalGroups : list Group) :
  index_or_position_count g = Ok n ->
  n <> 0%nat ->
  Forall integral originalGroups ->
  Forall counted_group originalGroups ->
  (total_count originalGroups <=? of_nat n)%num = true ->
  restoreMaterialGroups g (Some originalGroups) = Ok g' ->
  map count (groups g') = map count originalGroups
  /\ contiguous_from (Fin 0) (groups g').
Proof.
  intros Hn Hpos Hint Hcounted Hfit Hrun.
  pose proof (scaled_groups_identity g n originalGroups Hn Hpos Hint) as Hscaled.
  unfold restoreMaterialGroups in Hrun. rewrite Hn, Hscaled in Hrun.
  unfold bind in Hrun. inversion Hrun; subst g'. clear Hrun. simpl groups.
  destruct (total_count_counted _ Hcounted) as (t & Ht & Ht0).
  rewrite Ht in Hfit. unfold of_nat, of_Z, le in Hfit. apply Qle_bool_iff in Hfit.
  unfold of_nat, of_Z.
  apply (repack_fitting _ _ Hcounted 0 t Ht). lra.
Qed.

Lemma fitting_groups_are_repacked_contiguously_witness :
  map count [ mkGroup (Fin 0) (of_Z 3) (Some 0%nat);
              mkGroup (Fin 0 + of_Z 3) (of_Z 6) (Some 1%nat) ]
  = map count [ mkGroup (of_Z 5) (of_Z 3) (Some 0%nat);
                mkGroup (of_Z 2) (of_Z 6) (Some 1%nat) ]
  /\ contiguous_from (Fin 0)
       [ mkGroup (Fin 0) (of_Z 3) (Some 0%nat);
         mkGroup (Fin 0 + of_Z 3) (of_Z 6) (Some 1%nat) ].
Proof.
  apply (fitting_groups_are_repacked_contiguously fan
           (set_groups fan [ mkGroup (Fin 0) (of_Z 3) (Some 0%nat);
                             mkGroup (Fin 0 + of_Z 3) (of_Z 6) (Some 1%nat) ])
           12 [ mkGroup (of_Z 5) (of_Z 3) (Some 0%nat);
                mkGroup (of_Z 2) (of_Z 6) (Some 1%nat) ]).
  - reflexivity.
  - discriminate.
  - repeat constructor; do 2 eexists; split; reflexivity.
  - repeat constructor; do 2 eexists; (split; [reflexivity|split; [reflexivity|]]);
      unfold Qle; simpl; lia.
  - reflexivity.
  - vm_compute. reflexivity.
Defined.

Lemma repack_materials (n q : num) (gs : list Group) :
  map materialIndex (repack n q gs) = map materialIndex gs.
Proof.
  revert q. induction gs as [|g rest IH]; intros q; simpl; [reflexivity|].
  rewrite IH. reflexivity.
Qed.

(** [restoreMaterialGroups] never drops, adds or reorders groups: the
    material indices come back in their original order, and nothing but
    the groups of the geometry changes. *)
Theorem restore_keeps_materials (g g' : BufferGeometry) (originalGroups : list Group) :
  restoreMaterialGroups g (Some originalGroups) = Ok g' ->
  map materialIndex (groups g') = map materialIndex originalGroups
  /\ List.length (groups g') = List.length originalGroups
  /\ position g' = position g /\ index g' = index g
  /\ normal g' = normal g /\ uv g' = uv g.
Proof.
  unfold restoreMaterialGroups, scaled_groups, scaleFactor_of.
  destruct (index_or_position_count g) as [n|e]; unfold bind; [|discriminate].
  intros H. injection H as <-. unfold set_groups.
  cbn [groups position index normal uv].
  split; [rewrite repack_materials, map_map; reflexivity|].
  split; [|auto].
  rewrite <- (length_map materialIndex), repack_materials, !length_map. reflexivity.
Qed.

Lemma restore_keeps_materials_witness :
  map materialIndex
      [ mkGroup (of_Z 0) (of_Z 9) (Some 0%nat);
        mkGroup (of_Z 9) (of_Z 3) (Some 1%nat);
        mkGroup (of_Z 18) (of_Z (-6)) (Some 2%nat) ]
  = map materialIndex three_groups
  /\ 3%nat = List.length three_groups
  /\ position fan = position fan /\ index fan = index fan
  /\ normal fan = normal fan /\ uv fan = uv fan.
Proof.
  apply (restore_keeps_materials fan
           (set_groups fan [ mkGroup (of_Z 0) (of_Z 9) (Some 0%nat);
                             mkGroup (of_Z 9) (of_Z 3) (Some 1%nat);
                             mkGroup (of_Z 18) (of_Z (-6)) (Some 2%nat) ])
           three_groups).
  vm_compute. reflexivity.
Defined.

(** ** Feature profiles *)

Section ProfileFacts.
Context (E : Externals).

Lemma sample_steps_bound (positions : list Vector3) (indices : option (list nat))
    (triangleCount small thin : num) (l : list nat) :
  forall st,
    (totalCount (fold_left (sample_step E positions indices triangleCount small thin) l st)
     <= totalCount st + List.length l)%nat.
Proof.
  induction l as [|k l IH]; intros st; simpl; [lia|].
  eapply Nat.le_trans; [apply IH|].
  unfold sample_step. destruct (existsb _ _); simpl; lia.
Qed.

Lemma sample_total_bound (g : BufferGeometry) (positions : list Vector3) (seed n : nat) :
  let triangleCount := triangleCount_of positions (index g) in
  (totalCount
     (fold_left (sample_step E positions (index g) triangleCount
                   (smallFeatureThreshold_of E g) (thinFeatureThreshold_of E g))
                (seq seed n) (mkSample [] 0 0 0 []))
   <= n)%nat.
Proof.
  intros triangleCount.
  eapply Nat.le_trans; [apply sample_steps_bound|]. rewrite length_seq. simpl. lia.
Qed.

Lemma iterations_sample_bound (triangleCount : num) :
  (Z.of_nat (iterations (js_min (Fin 10000) triangleCount)) <= 10000)%Z.
Proof.
  assert (H10 : forall q, q <= 10000 -> (Z.of_nat (Z.to_nat (Qceiling q)) <= 10000)%Z).
  { intros q Hq. apply (Qceiling_resp_le _ _) in Hq.
    change (Qceiling 10000) with 10000%Z in Hq. lia. }
  destruct triangleCount as [q| | |]; unfold js_min, iterations; try (cbn; lia).
  unfold lt. destruct (Qlt_bool q 10000) eqn:Hlt.
  - apply Qlt_bool_iff in Hlt. apply H10. lra.
  - apply H10. lra.
Qed.

(** The numbers of a profile stay within their ranges. *)
Lemma profile_in_range (st : SampleState) :
  (smallCount st <= totalCount st)%nat ->
  (thinCount st <= totalCount st)%nat ->
  exists q, geometryComplexity (profile_of st) = Fin q /\ 0 <= q <= 1.
Proof.
  intros Hs Ht. unfold profile_of. cbv zeta. cbn [geometryComplexity].
  destruct (ratio_rounds_fraction _ _ Hs) as [-> Ha].
  destruct (ratio_rounds_fraction _ _ Ht) as [-> Hb].
  destruct (ratio_rounds_fraction _ _ (filter_length_le is_high_detail_area (densityMap st)))
    as [-> Hc].
  destruct (mix_nonneg _ _ _ Ha Hb Hc) as (x & -> & Hx).
  unfold js_min, lt. destruct (Qlt_bool x 1) eqn:Hlt; eexists; split; try reflexivity.
  - apply Qlt_bool_iff in Hlt. lra.
  - lra.
Qed.

(** A profile never counts more flagged triangles than it analysed, never
    analyses more than 10000 triangles, and its [geometryComplexity] lies
    between 0 and 1. *)
Theorem profile_stays_in_range (g : BufferGeometry) (seed : nat) (profile : FeatureProfile) :
  analyzeFeatureSizes E g seed = Ok profile ->
  (smallFeatureCount profile <= totalFeatures profile)%nat
  /\ (thinFeatureCount profile <= totalFeatures profile)%nat
  /\ (Z.of_nat (totalFeatures profile) <= 10000)%Z
  /\ exists q, geometryComplexity profile = Fin q /\ 0 <= q <= 1.
Proof.
  unfold analyzeFeatureSizes. destruct (position g) as [positions|]; [|discriminate].
  intros H. inversion H; subst profile. clear H.
  destruct (sample_counts E g positions seed) as (Hs & Ht & Hn).
  set (st := sample E g positions seed) in *.
  assert (Hsmall : (smallCount st <= totalCount st)%nat)
    by (rewrite Hs, Hn; apply filter_length_le).
  assert (Hthin : (thinCount st <= totalCount st)%nat)
    by (rewrite Ht, Hn; apply filter_length_le).
  split; [exact Hsmall|]. split; [exact Hthin|]. split.
  - cbn [profile_of totalFeatures]. unfold st, sample.
    match goal with
    | |- (Z.of_nat (totalCount (fold_left ?f (seq seed ?n) ?s0)) <= _)%Z =>
        pose proof (sample_total_bound g positions seed n) as Hb;
        pose proof (iterations_sample_bound
                      (triangleCount_of positions (index g))) as Hi
    end.
    cbv zeta in Hb. lia.
  - apply profile_in_range; assumption.
Qed.

End ProfileFacts.

Lemma profile_stays_in_range_witness :
  (3 <= 4)%nat /\ (3 <= 4)%nat /\ (Z.of_nat 4 <= 10000)%Z
  /\ exists q, Fin (3 # 4) = Fin q /\ 0 <= q <= 1.
Proof.
  apply (profile_stays_in_range plate_world plate 0
           (mkProfile 3 3 4 (Fin (3 # 4)) (Fin (3 # 4)) (Fin 0)
                      (Fin (3 # 4)) true)).
  vm_compute. reflexivity.
Defined.

(** ** Sampling *)

(** Each entry differs, as a string, from all the entries before it. *)
Definition drawn_once (l : list num) : Prop :=
  forall pre x post, l = pre ++ x :: post -> existsb (same_string x) pre = false.

Lemma drawn_once_snoc (l : list num) (x : num) :
  drawn_once l -> existsb (same_string x) l = false -> drawn_once (l ++ [x]).
Proof.
  intros Hl Hx pre y post Heq.
  destruct post as [|z post'] using rev_ind.
  - apply app_inj_tail in Heq. destruct Heq as [<- <-]. exact Hx.
  - clear IHpost'. rewrite app_comm_cons, app_assoc in Heq.
    apply app_inj_tail in Heq. destruct Heq as [Heq _].
    apply (Hl pre y post'). exact Heq.
Qed.

Section SamplingFacts.
Context (E : Externals).
Variables (positions : list Vector3) (indices : option (list nat))
          (triangleCount small thin : num).

Let step := sample_step E positions indices triangleCount small thin.
Let face := random_face E triangleCount.

(** What the sampling loop keeps true of the set of analysed triangles,
    for the draws [ks] taken so far. *)
Definition sampled_ok (ks : list nat) (st : SampleState) : Prop :=
  drawn_once (analyzedTriangles st)
  /\ (forall f, In f (analyzedTriangles st) -> exists k, In k ks /\ f = face k)
  /\ (forall k, In k ks -> existsb (same_string (face k)) (analyzedTriangles st) = true).

Lemma sample_step_ok (ks : list nat) (st : SampleState) (k : nat) :
  sampled_ok ks st -> sampled_ok (ks ++ [k]) (step st k).
Proof.
  intros (Honce & Hfrom & Hall). unfold step, sample_step. fold face.
  destruct (existsb (same_string (face k)) (analyzedTriangles st)) eqn:Hseen.
  - split; [exact Honce|]. split.
    + intros f Hf. destruct (Hfrom f Hf) as (k0 & Hk0 & Hf0).
      exists k0. split; [apply in_or_app; left; exact Hk0 | exact Hf0].
    + intros k0 Hk0. apply in_app_or in Hk0. destruct Hk0 as [Hk0 | [<- | []]].
      * apply Hall. exact Hk0.
      * exact Hseen.
  - cbv zeta. cbn [analyzedTriangles]. split; [apply drawn_once_snoc; assumption|]. split.
    + intros f Hf. cbn [analyzedTriangles] in Hf.
      apply in_app_or in Hf. destruct Hf as [Hf | [<- | []]].
      * destruct (Hfrom f Hf) as (k0 & Hk0 & Hf0).
        exists k0. split; [apply in_or_app; left; exact Hk0 | exact Hf0].
      * exists k. split; [apply in_or_app; right; left; reflexivity | reflexivity].
    + intros k0 Hk0. cbn [analyzedTriangles]. rewrite existsb_app.
      apply in_app_or in Hk0.
      destruct Hk0 as [Hk0 | [<- | []]].
      * rewrite (Hall k0 Hk0). reflexivity.
      * simpl. rewrite same_string_refl, orb_true_r. reflexivity.
Qed.

Lemma sample_steps_ok (l : list nat) :
  forall ks st, sampled_ok ks st -> sampled_ok (ks ++ l) (fold_left step l st).
Proof.
  induction l as [|k l IH]; intros ks st Hst; simpl.
  - rewrite app_nil_r. exact Hst.
  - replace (ks ++ k :: l) with ((ks ++ [k]) ++ l) by (rewrite <- app_assoc; reflexivity).
    apply IH. apply sample_step_ok. exact Hst.
Qed.

End SamplingFacts.

(** The triangles [analyzeFeatureSizes] analyses are exactly the distinct
    faces among its draws: no face is analysed twice, every analysed face was
    drawn, and every draw is among the analysed faces. *)
Theorem sampled_faces_are_the_distinct_draws (E : Externals) (g : BufferGeometry)
    (positions : list Vector3) (seed : nat) :
  let triangleCount := triangleCount_of positions (index g) in
  let draws := iterations (js_min (Fin 10000) triangleCount) in
  let analysed := analyzedTriangles (sample E g positions seed) in
  drawn_once analysed
  /\ (forall f, In f analysed ->
        exists k, (seed <= k < seed + draws)%nat /\ f = random_face E triangleCount k)
  /\ (forall k, (seed <= k < seed + draws)%nat ->
        existsb (same_string (random_face E triangleCount k)) analysed = true).
Proof.
  intros triangleCount draws analysed.
  assert (H : sampled_ok E triangleCount (seq seed draws) (sample E g positions seed)).
  { unfold sample. fold triangleCount. fold draws.
    apply (sample_steps_ok E positions (index g) triangleCount _ _ (seq seed draws) []).
    split; [|split].
    - intros pre x post Heq. destruct pre; discriminate.
    - intros f [].
    - intros k []. }
  destruct H as (Honce & Hfrom & Hall). split; [exact Honce|]. split.
  - intros f Hf. destruct (Hfrom f Hf) as (k & Hk & Hfk). apply in_seq in Hk. eauto.
  - intros k Hk. apply Hall. apply in_seq. exact Hk.
Qed.

(** A geometry without a single triangle gets the empty profile: the
    sampling loop does not run once, so it takes no draw and analyses no
    triangle, the complexity is 0 and the mesh is not high-detail.  (The
    run still calls [Math.random] where three.js makes the UUIDs of the
    mesh it builds for the bounding box; those calls are not draws of the
    loop.) *)
Theorem empty_geometry_has_empty_profile (E : Externals) (g : BufferGeometry)
    (positions : list Vector3) (seed : nat) :
  position g = Some positions ->
  index g = Some [] \/ (index g = None /\ positions = []) ->
  exists profile,
    analyzeFeatureSizes E g seed = Ok profile
    /\ totalFeatures profile = 0%nat
    /\ smallFeatureCount profile = 0%nat
    /\ thinFeatureCount profile = 0%nat
    /\ (geometryComplexity profile == Fin 0)%num
    /\ isHighDetail profile = false
    /\ sampling_draws g = 0%nat.
Proof.
  intros Hpos Hempty.
  assert (Hsample : sample E g positions seed = mkSample [] 0 0 0 []
                    /\ sampling_draws g = 0%nat).
  { unfold sample, sampling_draws. rewrite Hpos.
    destruct Hempty as [Hix | [Hix Hnil]]; rewrite Hix; [|rewrite Hnil]; split; reflexivity. }
  destruct Hsample as [Hsample Hcalls].
  unfold analyzeFeatureSizes. rewrite Hpos, Hsample.
  eexists. split; [reflexivity|]. repeat split; try reflexivity. exact Hcalls.
Qed.

Lemma empty_geometry_has_empty_profile_witness :
  exists profile,
    analyzeFeatureSizes plate_world hollow 7 = Ok profile
    /\ totalFeatures profile = 0%nat
    /\ smallFeatureCount profile = 0%nat
    /\ thinFeatureCount profile = 0%nat
    /\ (geometryComplexity profile == Fin 0)%num
    /\ isHighDetail profile = false
    /\ sampling_draws hollow = 0%nat.
Proof.
  apply (empty_geometry_has_empty_profile plate_world hollow [] 7).
  - reflexivity.
  - left. reflexivity.
Defined.

(** ** Feature loss on meshes without small or thin features *)

Lemma complexity_in_range (E : Externals) (g : BufferGeometry) (seed : nat)
    (profile : FeatureProfile) :
  analyzeFeatureSizes E g seed = Ok profile ->
  exists q, geometryComplexity profile = Fin q /\ 0 <= q <= 1.
Proof.
  unfold analyzeFeatureSizes. destruct (position g) as [positions|]; [|discriminate].
  intros H. inversion H; subst profile. clear H.
  destruct (sample_counts E g positions seed) as (Hs & Ht & Hn).
  apply profile_in_range.
  - rewrite Hs, Hn. apply filter_length_le.
  - rewrite Ht, Hn. apply filter_length_le.
Qed.

(** The loss ratio of two profiles that count no small and no thin
    triangle is at least 0.8. *)
Lemma clean_profiles_lose (a b : Q) (originalFeatures simplifiedFeatures : FeatureProfile) :
  smallFeatureCount originalFeatures = 0%nat ->
  thinFeatureCount originalFeatures = 0%nat ->
  smallFeatureCount simplifiedFeatures = 0%nat ->
  thinFeatureCount simplifiedFeatures = 0%nat ->
  geometryComplexity originalFeatures = Fin a -> 0 <= a ->
  geometryComplexity simplifiedFeatures = Fin b ->
  exists q, lossRatio (compare_profiles originalFeatures simplifiedFeatures) = Fin q
            /\ 8 # 10 <= q.
Proof.
  intros Hso Hto Hss Hts Ha Ha0 Hb. unfold compare_profiles. cbv zeta. cbn [lossRatio].
  rewrite Hso, Hto, Hss, Hts, Ha, Hb.
  assert (Hone : exists x, (Fin 1 - of_nat 0 / js_max (Fin 1) (of_nat 0))%num = Fin x
                           /\ x == 1).
  { eexists. split; [cbv; reflexivity | reflexivity]. }
  destruct Hone as (x & Hx & Hx1). rewrite Hx.
  assert (Hmax : exists m, js_max (dec 1 10) (Fin a) = Fin m /\ 0 < m).
  { unfold js_max, dec, lt. destruct (Qlt_bool (1 # 10) a) eqn:Hlt.
    - apply Qlt_bool_iff in Hlt. exists a. split; [reflexivity | lra].
    - exists (1 # 10). split; [reflexivity | lra]. }
  destruct Hmax as (m & Hm & Hm0). rewrite Hm.
  change (js_abs (Fin b - Fin a)) with (Fin (Qabs (b + - a))).
  rewrite (div_Fin_pos _ _ Hm0). unfold dec, mul, add.
  eexists. split; [reflexivity|].
  assert (Hc : 0 <= Qabs (b + - a) / m).
  { apply Qle_shift_div_l; [exact Hm0|]. rewrite Qmult_0_l. apply Qabs_nonneg. }
  rewrite Hx1. lra.
Qed.

(** A candidate without small or thin triangles, compared with an original
    that has none either, scores a loss ratio of at least 0.8:
    [featuresLost] is set, and both the synchronous and the worker
    simplifier reject it for feature loss, so such a mesh is never
    simplified. *)
Theorem clean_mesh_is_always_rejected (E : Externals)
    (originalGeometry simplifiedGeometry : BufferGeometry) (seed : nat)
    (originalFeatures simplifiedFeatures : FeatureProfile) :
  analyzeFeatureSizes E originalGeometry seed = Ok originalFeatures ->
  analyzeFeatureSizes E simplifiedGeometry (seed + sampling_draws originalGeometry)
    = Ok simplifiedFeatures ->
  smallFeatureCount originalFeatures = 0%nat ->
  thinFeatureCount originalFeatures = 0%nat ->
  smallFeatureCount simplifiedFeatures = 0%nat ->
  thinFeatureCount simplifiedFeatures = 0%nat ->
  exists featureAnalysis q,
    checkForLostFeatures E originalGeometry simplifiedGeometry seed = Ok featureAnalysis
    /\ lossRatio featureAnalysis = Fin q /\ 8 # 10 <= q
    /\ featuresLost featureAnalysis = true
    /\ forall meshAnalysis,
         hasLostFeatures_of meshAnalysis featureAnalysis = true
         /\ Worker.hasLostFeatures_of meshAnalysis featureAnalysis = true.
Proof.
  intros Ho Hs Hso Hto Hss Hts.
  destruct (complexity_in_range E _ _ _ Ho) as (a & Ha & Ha0 & _).
  destruct (complexity_in_range E _ _ _ Hs) as (b & Hb & _).
  destruct (clean_profiles_lose a b _ _ Hso Hto Hss Hts Ha Ha0 Hb) as (q & Hq & Hq8).
  exists (compare_profiles originalFeatures simplifiedFeatures), q.
  split; [unfold checkForLostFeatures; rewrite Ho; unfold bind at 1; rewrite Hs;
          reflexivity|].
  split; [exact Hq|]. split; [exact Hq8|]. split.
  - assert (Hflag : featuresLost (compare_profiles originalFeatures simplifiedFeatures)
                    = (lossRatio (compare_profiles originalFeatures simplifiedFeatures)
                       >? (if isHighDetail originalFeatures
                           then dec 12 100 else dec 18 100))%num) by reflexivity.
    rewrite Hflag, Hq. unfold dec.
    destruct (isHighDetail originalFeatures); apply gt_Fin; lra.
  - intros meshAnalysis.
    unfold hasLostFeatures_of, Worker.hasLostFeatures_of,
           featureLossThreshold_of, Worker.featureLossThreshold_of, dec.
    rewrite Hq. destruct (isHighDetail meshAnalysis); split; apply gt_Fin; lra.
Qed.

Lemma clean_mesh_is_always_rejected_witness :
  exists featureAnalysis q,
    checkForLostFeatures clean_world clean_pair clean_single 2 = Ok featureAnalysis
    /\ lossRatio featureAnalysis = Fin q /\ 8 # 10 <= q
    /\ featuresLost featureAnalysis = true
    /\ forall meshAnalysis,
         hasLostFeatures_of meshAnalysis featureAnalysis = true
         /\ Worker.hasLostFeatures_of meshAnalysis featureAnalysis = true.
Proof.
  apply (clean_mesh_is_always_rejected clean_world clean_pair clean_single 2
           (match analyzeFeatureSizes clean_world clean_pair 2 with
            | Ok p => p
            | Throw _ => mkProfile 0 0 0 NaN NaN NaN NaN false
            end)
           (match analyzeFeatureSizes clean_world clean_single 4 with
            | Ok p => p
            | Throw _ => mkProfile 0 0 0 NaN NaN NaN NaN false
            end));
    vm_compute; reflexivity.
Defined.

(** ** Runs of the synchronous simplifier *)

Definition is_attempt (ev : Event) : bool :=
  match ev with Attempt _ _ => true | _ => false end.

(** Number of attempts a console records. *)
Definition attempts_in (l : list Event) : nat := List.length (filter is_attempt l).

Lemma attempts_in_app (l l' : list Event) :
  attempts_in (l ++ l') = (attempts_in l + attempts_in l')%nat.
Proof. unfold attempts_in. rewrite filter_app, length_app. reflexivity. Qed.

Lemma no_accept_cat (l l' : list Event) : no_accept l -> no_accept l' -> no_accept (l ++ l').
Proof.
  intros Hl Hl' n Hin. apply in_app_or in Hin. destruct Hin as [H | H].
  - exact (Hl n H).
  - exact (Hl' n H).
Qed.

Section LoopTrace.
Context (E : Externals).
Variables (originalGeometry : BufferGeometry) (originalVertexCount : nat)
          (originalMaterialGroups : option (list Group)) (meshAnalysis : FeatureProfile).

Let loop := simplify_loop E originalGeometry originalVertexCount
              originalMaterialGroups meshAnalysis.

(** What a run of the loop from [st] with [fuel] attempts left does: it
    appends to the console, makes at most [fuel] attempts, and either leaves
    the mesh alone or ends by accepting one candidate. *)
Definition loop_trace (fuel : nat) (st st' : LoopState) (r : result LoopExit) : Prop :=
  exists new,
    console st' = console st ++ new
    /\ (attempts_in new <= fuel)%nat
    /\ ((meshGeometry st' = meshGeometry st
         /\ modified st' = modified st
         /\ currentBestVertexCount st' = currentBestVertexCount st
         /\ no_accept new
         /\ forall v, r = Ok (Return v) -> v = modified st)
        \/ (r = Ok LoopEnd
            /\ modified st' = true
            /\ exists n, In (Accepted n) new
                         /\ position_count (meshGeometry st') = Ok n
                         /\ (n < currentBestVertexCount st)%nat)).

Lemma quiet_events (l : list Event) :
  Forall (fun ev => forall n, ev <> Accepted n) l -> no_accept l.
Proof.
  intros H n Hin. rewrite Forall_forall in H. exact (H _ Hin n eq_refl).
Qed.

Ltac quiet := apply quiet_events; repeat constructor; intros ? ?; discriminate.

Lemma simplify_loop_trace (fuel : nat) :
  forall st, loop_trace fuel st (fst (loop fuel st)) (snd (loop fuel st)).
Proof.
  induction fuel as [|fuel IH]; intros st.
  - exists []. simpl. rewrite app_nil_r. split; [reflexivity|]. split; [apply Nat.le_refl|].
    left. repeat split; auto. + intros n []. + intros v H. discriminate.
  - assert (Hrec : forall st1 pre,
              console st1 = console st ++ pre ->
              (attempts_in pre <= 1)%nat ->
              no_accept pre ->
              meshGeometry st1 = meshGeometry st ->
              modified st1 = modified st ->
              currentBestVertexCount st1 = currentBestVertexCount st ->
              loop_trace (S fuel) st (fst (loop fuel st1)) (snd (loop fuel st1))).
    { intros st1 pre Hc Ha Hq Hg Hm Hb.
      destruct (IH st1) as (new & Hnew & Hcount & Hcases).
      exists (pre ++ new). split; [rewrite Hnew, Hc, app_assoc; reflexivity|].
      split; [rewrite attempts_in_app; lia|].
      destruct Hcases as [(Hg' & Hm' & Hb' & Hq' & Hv) | (Hr & Hm' & n & Hin & Hp & Hn)].
      - left. repeat split; try congruence.
        + apply no_accept_cat; assumption.
        + intros v Hret. rewrite <- Hm. apply Hv. exact Hret.
      - right. split; [exact Hr|]. split; [exact Hm'|]. exists n.
        split; [apply in_or_app; right; exact Hin|]. split; [exact Hp|]. lia. }
    assert (Hstop : forall st1 pre v,
              console st1 = console st ++ pre ->
              (attempts_in pre <= 1)%nat ->
              no_accept pre ->
              meshGeometry st1 = meshGeometry st ->
              modified st1 = modified st ->
              currentBestVertexCount st1 = currentBestVertexCount st ->
              (forall w, v = Ok (Return w) -> w = modified st) ->
              loop_trace (S fuel) st st1 v).
    { intros st1 pre v Hc Ha Hq Hg Hm Hb Hv. exists pre.
      split; [exact Hc|]. split; [lia|]. left. repeat split; assumption. }
    unfold loop. cbn [simplify_loop]. fold loop.
    set (st0 := next_attempt st).
    destruct (targetCount_of originalVertexCount st0 >=? of_nat (currentBestVertexCount st0))%num.
    { apply (Hstop _ [CannotReduce]); simpl; auto; try quiet. intros w H; discriminate. }
    set (target := targetCount_of originalVertexCount st0).
    set (st1 := say (Attempt (attempts st0) target) st0).
    assert (Hthrow : forall e, loop_trace (S fuel) st st1 (Throw e)).
    { intros e. apply (Hstop _ [Attempt (attempts st0) target]); simpl; auto; try quiet.
      intros w H; discriminate. }
    destruct (modify E originalGeometry target) as [simplified|e]; [|apply Hthrow].
    destruct (position_count simplified) as [simplifiedCount|e]; [|apply Hthrow].
    destruct (originalVertexCount <=? simplifiedCount)%nat.
    { apply (Hrec _ [Attempt (attempts st0) target; RejectedIncrease]); simpl; auto.
      - rewrite <- app_assoc. reflexivity.
      - quiet. }
    destruct (prepare E originalMaterialGroups meshAnalysis simplified)
      as [creased|e]; [|apply Hthrow].
    destruct (position_count creased) as [creasedCount|e] eqn:Hcount; [|apply Hthrow].
    destruct (originalVertexCount <? creasedCount)%nat.
    { apply (Hrec _ [Attempt (attempts st0) target; RejectedCreasing]); simpl; auto.
      - rewrite <- app_assoc. reflexivity.
      - quiet. }
    destruct (checkForLostFeatures E originalGeometry creased (calls st1))
      as [featureAnalysis|e]; [|apply Hthrow].
    set (distortion := distorted _ _ _).
    set (lost := hasLostFeatures_of meshAnalysis featureAnalysis).
    destruct (distortion || lost).
    { match goal with
      | |- context [if ?c then _ else _] => destruct c
      end.
      - apply (Hstop _ [Attempt (attempts st0) target;
                        RejectedQuality (attempts st1) distortion lost; GaveUp]);
          simpl; auto; try quiet.
        + rewrite <- !app_assoc. reflexivity.
        + intros w H. inversion H. reflexivity.
      - apply (Hrec _ [Attempt (attempts st0) target;
                       RejectedQuality (attempts st1) distortion lost]); simpl; auto.
        + rewrite <- app_assoc. reflexivity.
        + quiet. }
    destruct (creasedCount <? currentBestVertexCount _)%nat eqn:Hless.
    { exists [Attempt (attempts st0) target; Accepted creasedCount]. simpl.
      split; [rewrite <- app_assoc; reflexivity|].
      split; [unfold attempts_in; simpl; lia|].
      right. split; [reflexivity|]. split; [reflexivity|].
      exists creasedCount. apply Nat.ltb_lt in Hless. simpl in Hless.
      split; [right; left; reflexivity|]. split; [exact Hcount | exact Hless]. }
    apply (Hrec _ [Attempt (attempts st0) target; RejectedNoReduction]); simpl; auto.
    + rewrite <- app_assoc. reflexivity.
    + quiet.
Qed.

End LoopTrace.

Lemma dedup_cases (E : Externals) (geometry0 : BufferGeometry) (best : nat) :
  let '(geometry1, best1, modified1, said) := dedup E geometry0 best in
  attempts_in said = 0%nat /\ no_accept said
  /\ ((modified1 = false /\ geometry1 = geometry0 /\ best1 = best)
      \/ (modified1 = true /\ said = [MergeApplied]
          /\ position_count geometry1 = Ok best1 /\ (best1 <= best)%nat)).
Proof.
  unfold dedup.
  assert (Hq : forall ev, (forall n, ev <> Accepted n) -> no_accept [ev]).
  { intros ev Hev n [H | []]. exact (Hev n H). }
  destruct (mergeVertices E geometry0) as [merged|e]; simpl.
  - destruct (position_count merged) as [mergedCount|e] eqn:Hcount; simpl.
    + destruct (mergedCount <=? best)%nat eqn:Hle.
      * apply Nat.leb_le in Hle. split; [reflexivity|].
        split; [apply Hq; intros; discriminate|]. right. auto.
      * split; [reflexivity|]. split; [apply Hq; intros; discriminate|]. left. auto.
    + split; [reflexivity|]. split; [apply Hq; intros; discriminate|]. left. auto.
  - split; [reflexivity|]. split; [apply Hq; intros; discriminate|]. left. auto.
Qed.

(** What the body of the outer [try] block does to the loop state. *)
Lemma simplify_body_trace (E : Externals) (originalGeometry : BufferGeometry)
    (originalVertexCount : nat) (optimizationConfig : OptimizationConfig) (st : LoopState) :
  let out := simplify_body E originalGeometry originalVertexCount optimizationConfig st in
  exists new,
    console (fst out) = console st ++ new
    /\ (attempts_in new <= 10)%nat
    /\ ((no_accept new
         /\ (meshGeometry (fst out) = meshGeometry st
             \/ computeVertexNormals E (meshGeometry st) = Ok (meshGeometry (fst out)))
         /\ forall v, snd out = Ok v -> v = modified st)
        \/ (snd out = Ok true
            /\ exists n, In (Accepted n) new
                         /\ position_count (meshGeometry (fst out)) = Ok n
                         /\ (n < currentBestVertexCount st)%nat)).
Proof.
  assert (Hnone : forall r : result bool,
            (forall v, r = Ok v -> v = modified st) ->
            exists new,
              console st = console st ++ new
              /\ (attempts_in new <= 10)%nat
              /\ ((no_accept new
                   /\ (meshGeometry st = meshGeometry st
                       \/ computeVertexNormals E (meshGeometry st) = Ok (meshGeometry st))
                   /\ forall v, r = Ok v -> v = modified st)
                  \/ (r = Ok true
                      /\ exists n, In (Accepted n) new
                                   /\ position_count (meshGeometry st) = Ok n
                                   /\ (n < currentBestVertexCount st)%nat))).
  { intros r Hr. exists []. rewrite app_nil_r. split; [reflexivity|].
    split; [unfold attempts_in; simpl; lia|]. left.
    split; [intros n []|]. split; [left; reflexivity | exact Hr]. }
  unfold simplify_body.
  destruct (position (meshGeometry st)).
  2:{ apply Hnone. intros v H. inversion H. reflexivity. }
  destruct (computeVertexNormals E (meshGeometry st)) as [shaded|e] eqn:Hshade.
  2:{ apply Hnone. intros v H. discriminate. }
  cbv zeta.
  destruct (analyzeFeatureSizes E shaded _) as [meshAnalysis|e].
  2:{ exists []. simpl. rewrite app_nil_r. split; [reflexivity|].
      split; [unfold attempts_in; simpl; lia|]. left.
      split; [intros n []|]. split; [right; reflexivity|]. intros v H. discriminate. }
  match goal with
  | |- context [simplify_loop E ?og ?n ?gs ?m ?fuel ?s] =>
      pose proof (simplify_loop_trace E og n gs m fuel s) as Hloop;
      destruct (simplify_loop E og n gs m fuel s) as [st' r]
  end.
  simpl fst in Hloop. simpl snd in Hloop.
  destruct Hloop as (new & Hnew & Hcount & Hcases). simpl in Hnew.
  unfold MAX_ATTEMPTS in Hcount.
  destruct Hcases as [(Hg & Hm & Hb & Hq & Hv) | (Hr & Hm & n & Hin & Hp & Hn)].
  - simpl in Hg, Hm, Hb.
    destruct r as [[|value]|e]; simpl.
    + destruct (simplificationSuccessful st'); simpl.
      * exists new. split; [exact Hnew|]. split; [exact Hcount|]. left.
        split; [exact Hq|]. split; [right; congruence|].
        intros v H. inversion H. exact Hm.
      * exists (new ++ [Failed]). split; [rewrite Hnew, app_assoc; reflexivity|].
        split; [rewrite attempts_in_app; unfold attempts_in at 2; simpl; lia|]. left.
        split; [apply no_accept_app; [exact Hq | intros ? ?; discriminate]|].
        split; [right; congruence|]. intros v H. inversion H. exact Hm.
    + exists new. split; [exact Hnew|]. split; [exact Hcount|]. left.
      split; [exact Hq|]. split; [right; congruence|].
      intros v H. inversion H; subst. apply (Hv v). reflexivity.
    + exists new. split; [exact Hnew|]. split; [exact Hcount|]. left.
      split; [exact Hq|]. split; [right; congruence|]. intros v H. discriminate.
  - subst r. simpl in Hn. simpl.
    destruct (simplificationSuccessful st'); simpl.
    + exists new. split; [exact Hnew|]. split; [exact Hcount|]. right.
      rewrite Hm. split; [reflexivity|]. exists n. auto.
    + exists (new ++ [Failed]). split; [rewrite Hnew, app_assoc; reflexivity|].
      split; [rewrite attempts_in_app; unfold attempts_in at 2; simpl; lia|]. right.
      rewrite Hm. split; [reflexivity|]. exists n.
      split; [apply in_or_app; left; exact Hin|]. auto.
Qed.

(** A run of [simplifyMesh] on a geometry with positions, as a whole: what
    duplicate removal left ([geometry1], [best], [modified1], [said]), what
    the loop added to the console ([new]) and the geometry the mesh holds in
    the end. *)
Lemma simplifyMesh_summary (E : Externals) (geometry0 : BufferGeometry)
    (optimizationConfig : OptimizationConfig) (seed originalVertexCount : nat) :
  position_count geometry0 = Ok originalVertexCount ->
  simplifyGeometry optimizationConfig = true ->
  let run := simplifyMesh E (mkMesh (Some geometry0)) optimizationConfig seed in
  exists geometry1 best modified1 said new tail final,
    attempts_in said = 0%nat /\ no_accept said
    /\ ((modified1 = false /\ geometry1 = geometry0 /\ best = originalVertexCount)
        \/ (modified1 = true /\ said = [MergeApplied]
            /\ position_count geometry1 = Ok best /\ (best <= originalVertexCount)%nat))
    /\ mesh_after run = mkMesh (Some final)
    /\ run_console run = said ++ new ++ tail
    /\ attempts_in tail = 0%nat /\ no_accept tail
    /\ (attempts_in new <= 10)%nat
    /\ ((no_accept new
         /\ (final = geometry1 \/ computeVertexNormals E geometry1 = Ok final)
         /\ (returned run = Ok modified1 \/ returned run = Ok false))
        \/ (returned run = Ok true
            /\ exists n, In (Accepted n) new
                         /\ position_count final = Ok n /\ (n < best)%nat)).
Proof.
  intros Hcount Hon run. unfold run, simplifyMesh. cbn [geometry]. rewrite Hon.
  simpl negb. cbv iota. rewrite Hcount.
  assert (Hdedup :
    let '(geometry1, best, modified1, said) :=
      (if removeDuplicates optimizationConfig
       then dedup E geometry0 originalVertexCount
       else (geometry0, originalVertexCount, false, [])) in
    attempts_in said = 0%nat /\ no_accept said
    /\ ((modified1 = false /\ geometry1 = geometry0 /\ best = originalVertexCount)
        \/ (modified1 = true /\ said = [MergeApplied]
            /\ position_count geometry1 = Ok best /\ (best <= originalVertexCount)%nat))).
  { destruct (removeDuplicates optimizationConfig).
    - apply dedup_cases.
    - split; [reflexivity|]. split; [intros k []|]. left. auto. }
  destruct (if removeDuplicates optimizationConfig
            then dedup E geometry0 originalVertexCount
            else (geometry0, originalVertexCount, false, []))
    as [[[geometry1 best] modified1] said].
  destruct Hdedup as (Hsaid0 & Hsaidq & Hmerge).
  set (st := mkLoop 0 (Fin 0) best geometry1 modified1 false seed said).
  pose proof (simplify_body_trace E geometry0 originalVertexCount optimizationConfig st)
    as Hbody.
  cbv zeta in Hbody.
  destruct (simplify_body E geometry0 originalVertexCount optimizationConfig st) as [st' r].
  simpl fst in Hbody. simpl snd in Hbody.
  destruct Hbody as (new & Hnew & Hattempts & Hcases). simpl in Hnew.
  destruct r as [value|e].
  - exists geometry1, best, modified1, said, new, [], (meshGeometry st'). simpl.
    rewrite app_nil_r.
    repeat (split; [first [assumption | reflexivity | intros k []]|]).
    destruct Hcases as [(Hq & Hg & Hv) | (Hr & Hacc)].
    + left. split; [exact Hq|]. split; [|left; rewrite (Hv value eq_refl); reflexivity].
      destruct Hg as [Hg | Hg]; [left | right]; exact Hg.
    + right. split; [exact Hr | exact Hacc].
  - exists geometry1, best, modified1, said, new, [OuterError], (meshGeometry st'). simpl.
    split; [assumption|]. split; [assumption|]. split; [assumption|].
    split; [reflexivity|]. split; [rewrite Hnew, app_assoc; reflexivity|].
    split; [reflexivity|]. split; [intros k [H | []]; discriminate|].
    split; [assumption|].
    destruct Hcases as [(Hq & Hg & Hv) | (Hr & Hacc)]; [|discriminate].
    left. split; [exact Hq|]. split; [|right; reflexivity].
    destruct Hg as [Hg | Hg]; [left | right]; exact Hg.
Qed.

(** With a position attribute present, the synchronous [simplifyMesh]
    always returns a boolean: whatever the external calls throw is caught. *)
Theorem simplifyMesh_returns_with_position (E : Externals) (geometry0 : BufferGeometry)
    (optimizationConfig : OptimizationConfig) (seed : nat) (positions : list Vector3) :
  position geometry0 = Some positions ->
  exists value,
    returned (simplifyMesh E (mkMesh (Some geometry0)) optimizationConfig seed) = Ok value.
Proof.
  intros Hpos.
  destruct (simplifyGeometry optimizationConfig) eqn:Hon.
  - assert (Hcount : position_count geometry0 = Ok (List.length positions))
      by (unfold position_count; rewrite Hpos; reflexivity).
    destruct (simplifyMesh_summary E geometry0 optimizationConfig seed _ Hcount Hon)
      as (g1 & best & m1 & said & new & tail & final & _ & _ & _ & _ & _ & _ & _ & _ & Hret).
    destruct Hret as [(_ & _ & [H | H]) | (H & _)]; eauto.
  - exists false. unfold simplifyMesh. cbn [geometry]. rewrite Hon. reflexivity.
Qed.

Lemma simplifyMesh_returns_with_position_witness :
  exists value,
    returned (simplifyMesh clean_world (mkMesh (Some clean_pair)) keep_all 0) = Ok value.
Proof.
  apply (simplifyMesh_returns_with_position clean_world clean_pair keep_all 0
           (big ++ big ++ [])).
  reflexivity.
Defined.

(** The synchronous simplifier makes at most 10 attempts on a mesh. *)
Theorem simplifyMesh_attempts_bounded (E : Externals) (mesh : Mesh)
    (optimizationConfig : OptimizationConfig) (seed : nat) :
  (attempts_in (run_console (simplifyMesh E mesh optimizationConfig seed)) <= 10)%nat.
Proof.
  destruct mesh as [[geometry0|]]; [|cbv; lia].
  destruct (simplifyGeometry optimizationConfig) eqn:Hon.
  - destruct (position_count geometry0) as [n0|e] eqn:Hcount.
    + destruct (simplifyMesh_summary E geometry0 optimizationConfig seed _ Hcount Hon)
        as (g1 & best & m1 & said & new & tail & final
            & Hs & _ & _ & _ & Hconsole & Ht & _ & Hnew & _).
      rewrite Hconsole, !attempts_in_app. lia.
    + unfold simplifyMesh. cbn [geometry]. rewrite Hon. simpl negb. cbv iota.
      rewrite Hcount. cbv. lia.
  - unfold simplifyMesh. cbn [geometry]. rewrite Hon. cbv. lia.
Qed.

(** [simplifyMesh] returns [true] only when duplicate removal was applied
    or a candidate was accepted. *)
Theorem simplifyMesh_true_means_change (E : Externals) (mesh : Mesh)
    (optimizationConfig : OptimizationConfig) (seed : nat) :
  returned (simplifyMesh E mesh optimizationConfig seed) = Ok true ->
  In MergeApplied (run_console (simplifyMesh E mesh optimizationConfig seed))
  \/ exists n, In (Accepted n) (run_console (simplifyMesh E mesh optimizationConfig seed)).
Proof.
  destruct mesh as [[geometry0|]]; [|cbv; discriminate].
  destruct (simplifyGeometry optimizationConfig) eqn:Hon.
  2:{ unfold simplifyMesh. cbn [geometry]. rewrite Hon. cbv. discriminate. }
  destruct (position_count geometry0) as [n0|e] eqn:Hcount.
  2:{ unfold simplifyMesh. cbn [geometry]. rewrite Hon. simpl negb. cbv iota.
      rewrite Hcount. cbv. discriminate. }
  destruct (simplifyMesh_summary E geometry0 optimizationConfig seed _ Hcount Hon)
    as (g1 & best & m1 & said & new & tail & final
        & _ & _ & Hmerge & _ & Hconsole & _ & _ & _ & Hret).
  rewrite Hconsole. intros Htrue.
  destruct Hret as [(_ & _ & [H | H]) | (_ & n & Hin & _)].
  - rewrite H in Htrue. inversion Htrue; subst m1.
    destruct Hmerge as [(Hf & _) | (_ & -> & _)]; [discriminate|].
    left. left. reflexivity.
  - rewrite H in Htrue. discriminate.
  - right. exists n. apply in_or_app. right. apply in_or_app. left. exact Hin.
Qed.

Lemma simplifyMesh_true_means_change_witness :
  In MergeApplied (run_console (simplifyMesh doubled_world (mkMesh (Some doubled)) keep_all 0))
  \/ exists n,
       In (Accepted n)
          (run_console (simplifyMesh doubled_world (mkMesh (Some doubled)) keep_all 0)).
Proof.
  apply (simplifyMesh_true_means_change doubled_world (mkMesh (Some doubled)) keep_all 0).
  vm_compute. reflexivity.
Defined.

(** When [computeVertexNormals] leaves the positions alone, the mesh never
    ends up with more vertices than it started with. *)
Theorem simplifyMesh_never_adds_vertices (E : Externals) (geometry0 : BufferGeometry)
    (optimizationConfig : OptimizationConfig) (seed originalVertexCount : nat) :
  (forall g g', computeVertexNormals E g = Ok g' -> position g' = position g) ->
  position_count geometry0 = Ok originalVertexCount ->
  exists final n,
    mesh_after (simplifyMesh E (mkMesh (Some geometry0)) optimizationConfig seed)
      = mkMesh (Some final)
    /\ position_count final = Ok n
    /\ (n <= originalVertexCount)%nat.
Proof.
  intros Hnormals Hcount.
  destruct (simplifyGeometry optimizationConfig) eqn:Hon.
  2:{ exists geometry0, originalVertexCount. unfold simplifyMesh. cbn [geometry].
      rewrite Hon. simpl. auto. }
  destruct (simplifyMesh_summary E geometry0 optimizationConfig seed _ Hcount Hon)
    as (g1 & best & m1 & said & new & tail & final
        & _ & _ & Hmerge & Hafter & _ & _ & _ & _ & Hret).
  assert (Hg1 : position_count g1 = Ok best /\ (best <= originalVertexCount)%nat).
  { destruct Hmerge as [(_ & -> & ->) | (_ & _ & H1 & H2)]; auto. }
  destruct Hg1 as [Hg1 Hbest].
  destruct Hret as [(_ & Hfinal & _) | (_ & n & _ & Hn & Hlt)].
  - exists final, best. split; [exact Hafter|]. split; [|exact Hbest].
    destruct Hfinal as [-> | Hshade]; [exact Hg1|].
    unfold position_count in *. rewrite (Hnormals _ _ Hshade). exact Hg1.
  - exists final, n. split; [exact Hafter|]. split; [exact Hn | lia].
Qed.

Lemma flat_normals_keep_positions (g g' : BufferGeometry) :
  flat_normals g = Ok g' -> position g' = position g.
Proof.
  unfold flat_normals. destruct (position g) eqn:Hpos; [|discriminate].
  intros H. inversion H. simpl. exact Hpos.
Qed.

Lemma simplifyMesh_never_adds_vertices_witness :
  exists final n,
    mesh_after (simplifyMesh doubled_world (mkMesh (Some doubled)) keep_all 0)
      = mkMesh (Some final)
    /\ position_count final = Ok n
    /\ (n <= 15)%nat.
Proof.
  apply (simplifyMesh_never_adds_vertices doubled_world doubled keep_all 0 15).
  - exact flat_normals_keep_positions.
  - reflexivity.
Defined.

(** ** The worker's simplifier *)

Section WorkerTrace.
Context (E : Externals).
Variables (optimizationConfig : OptimizationConfig) (originalGeometry : BufferGeometry)
  (originalVertexCount : nat) (originalMaterialGroups : option (list Group))
  (meshAnalysis : FeatureProfile).

(** A candidate leaves [prepare] only when the normals are kept and the
    candidate has some: the other branch ends in the assignment to the
    [const] binding. *)
Lemma worker_prepare_ok (simplified candidate : BufferGeometry) :
  Worker.prepare E optimizationConfig originalMaterialGroups meshAnalysis simplified
    = Ok candidate ->
  preserveNormals optimizationConfig = true /\ Worker.has_normal candidate = true.
Proof.
  unfold Worker.prepare, bind.
  destruct (match originalMaterialGroups with
            | Some _ => restoreMaterialGroups simplified originalMaterialGroups
            | None => Ok simplified
            end) as [restored|e]; [|discriminate].
  destruct (negb (preserveNormals optimizationConfig) || negb (Worker.has_normal restored))
    eqn:Hcond.
  - destruct (computeVertexNormals E restored) as [shaded|e]; [|discriminate].
    destruct (toCreasedNormals E shaded (creaseAngle_of meshAnalysis)); discriminate.
  - intros H. inversion H; subst candidate.
    apply orb_false_iff in Hcond. destruct Hcond as [H1 H2].
    apply negb_false_iff in H1. apply negb_false_iff in H2. auto.
Qed.

(** What one attempt can answer. *)
Lemma worker_attempt_cases (targetCount : num) (st : LoopState) :
  match fst (Worker.attempt E optimizationConfig originalGeometry originalVertexCount
               originalMaterialGroups meshAnalysis targetCount st) with
  | Throw _ => True
  | Ok (Worker.Rejected _ ev) => is_attempt ev = false /\ forall n, ev <> Accepted n
  | Ok (Worker.Take candidate n) =>
      preserveNormals optimizationConfig = true
      /\ Worker.has_normal candidate = true
      /\ position_count candidate = Ok n
      /\ (n < currentBestVertexCount st)%nat
  end.
Proof.
  unfold Worker.attempt, bind.
  destruct (modify E originalGeometry targetCount) as [simplified|e]; [|exact I].
  destruct (position_count simplified) as [simplifiedCount|e]; [|exact I].
  destruct (originalVertexCount <=? simplifiedCount)%nat.
  { simpl. split; [reflexivity | discriminate]. }
  destruct (Worker.prepare E optimizationConfig originalMaterialGroups meshAnalysis simplified)
    as [candidate|e] eqn:Hprepare; [|exact I].
  apply worker_prepare_ok in Hprepare. destruct Hprepare as [Hkeep Hnormal].
  destruct (checkForLostFeatures E originalGeometry candidate (calls st)); [|exact I].
  destruct (_ || _).
  { simpl. split; [reflexivity | discriminate]. }
  destruct (position_count candidate) as [candidateCount|e] eqn:Hcount; [|exact I].
  destruct (candidateCount <? currentBestVertexCount st)%nat eqn:Hlt.
  - simpl. apply Nat.ltb_lt in Hlt. auto.
  - simpl. split; [reflexivity | discriminate].
Qed.

(** The worker's loop: it adds at most [fuel] attempts to the console and
    either accepts nothing and leaves the geometry alone, or copies one
    candidate with normals and fewer vertices into it. *)
Lemma worker_loop_trace (fuel : nat) : forall st : LoopState,
  let st' := Worker.simplify_loop E optimizationConfig originalGeometry originalVertexCount
               originalMaterialGroups meshAnalysis fuel st in
  exists new,
    console st' = console st ++ new
    /\ (attempts_in new <= fuel)%nat
    /\ ((no_accept new
         /\ meshGeometry st' = meshGeometry st
         /\ modified st' = modified st
         /\ currentBestVertexCount st' = currentBestVertexCount st)
        \/ (preserveNormals optimizationConfig = true
            /\ exists candidate n,
                 In (Accepted n) new
                 /\ meshGeometry st' = Worker.copy_into (meshGeometry st) candidate
                 /\ Worker.has_normal candidate = true
                 /\ position_count candidate = Ok n
                 /\ (n < currentBestVertexCount st)%nat
                 /\ modified st' = true)).
Proof.
  induction fuel as [|fuel IH]; intros st; cbv zeta.
  - exists []. cbn [Worker.simplify_loop]. rewrite app_nil_r.
    split; [reflexivity|]. split; [unfold attempts_in; simpl; lia|]. left.
    split; [intros k []|]. auto.
  - cbn [Worker.simplify_loop]. cbv zeta.
    destruct (_ >=? _)%num.
    { exists [CannotReduce]. split; [reflexivity|]. split; [unfold attempts_in; simpl; lia|]. left.
      split; [intros k [H | []]; discriminate|]. auto. }
    set (targetCount := targetCount_of originalVertexCount (next_attempt st)).
    set (st1 := say (Attempt (attempts (next_attempt st)) targetCount) (next_attempt st)).
    pose proof (worker_attempt_cases targetCount st1) as Hcases.
    destruct (Worker.attempt E optimizationConfig originalGeometry originalVertexCount
                originalMaterialGroups meshAnalysis targetCount st1) as [[verdict|e] spent];
      simpl fst in Hcases.
    + destruct verdict as [step ev | candidate n].
      * destruct Hcases as [Hquiet Hnot].
        specialize (IH (relax step (say ev (spend spent st1)))). cbv zeta in IH.
        destruct IH as (new & Hconsole & Hbound & Hrest).
        exists (Attempt (S (attempts st)) targetCount :: ev :: new).
        split; [rewrite Hconsole; simpl; rewrite <- !app_assoc; reflexivity|].
        split; [unfold attempts_in in *; simpl; rewrite Hquiet; simpl; lia|].
        destruct Hrest as [(Hq & Hg & Hm & Hb) | (Hkeep & candidate & n & Hin & Hrest)].
        -- left. split; [|auto].
           intros k [H | [H | H]]; [discriminate | exact (Hnot k H) | exact (Hq k H)].
        -- right. split; [exact Hkeep|]. exists candidate, n.
           split; [right; right; exact Hin | exact Hrest].
      * destruct Hcases as (Hkeep & Hnormal & Hcount & Hlt).
        exists [Attempt (S (attempts st)) targetCount; Accepted n].
        split; [simpl; rewrite <- app_assoc; reflexivity|].
        split; [unfold attempts_in; simpl; lia|].
        right. split; [exact Hkeep|]. exists candidate, n.
        split; [right; left; reflexivity|]. simpl. auto.
    + specialize (IH (relax (dec 1 10) (say (AttemptError (attempts st1)) (spend spent st1)))).
      cbv zeta in IH. destruct IH as (new & Hconsole & Hbound & Hrest).
      exists (Attempt (S (attempts st)) targetCount :: AttemptError (S (attempts st)) :: new).
      split; [rewrite Hconsole; simpl; rewrite <- !app_assoc; reflexivity|].
      split; [unfold attempts_in in *; simpl; lia|].
      destruct Hrest as [(Hq & Hg & Hm & Hb) | (Hkeep & candidate & n & Hin & Hrest)].
      * left. split; [|auto].
        intros k [H | [H | H]]; [discriminate | discriminate | exact (Hq k H)].
      * right. split; [exact Hkeep|]. exists candidate, n.
        split; [right; right; exact Hin | exact Hrest].
Qed.

End WorkerTrace.

Lemma worker_dedup_cases (E : Externals) (geometry0 : BufferGeometry) (best : nat) :
  let '(geometry1, best1, modified1, said) := Worker.dedup E geometry0 best in
  attempts_in said = 0%nat /\ no_accept said
  /\ ((modified1 = false /\ geometry1 = geometry0 /\ best1 = best)
      \/ (modified1 = true /\ said = [MergeApplied]
          /\ position_count geometry1 = Ok best1 /\ (best1 <= best)%nat)).
Proof.
  unfold Worker.dedup, bind.
  destruct (THREE_mergeVertices E geometry0) as [merged|e].
  - destruct (position_count merged) as [mergedCount|e] eqn:Hcount.
    + destruct (mergedCount <=? best)%nat eqn:Hle.
      * split; [reflexivity|]. split; [intros k [H | []]; discriminate|].
        right. apply Nat.leb_le in Hle. unfold position_count in *. simpl. auto.
      * split; [reflexivity|]. split; [intros k [H | []]; discriminate|]. left. auto.
    + split; [reflexivity|]. split; [intros k [H | []]; discriminate|]. left. auto.
  - split; [reflexivity|]. split; [intros k [H | []]; discriminate|]. left. auto.
Qed.

Lemma worker_body_trace (E : Externals) (originalGeometry : BufferGeometry)
    (originalVertexCount : nat) (optimizationConfig : OptimizationConfig) (st : LoopState) :
  let out := Worker.simplify_body E originalGeometry originalVertexCount
               optimizationConfig st in
  exists new,
    console (fst out) = console st ++ new
    /\ (attempts_in new <= 5)%nat
    /\ ((no_accept new
         /\ (meshGeometry (fst out) = meshGeometry st
             \/ computeVertexNormals E (meshGeometry st) = Ok (meshGeometry (fst out)))
         /\ forall v, snd out = Ok v -> v = modified st)
        \/ (preserveNormals optimizationConfig = true
            /\ snd out = Ok true
            /\ exists n, In (Accepted n) new
                         /\ position_count (meshGeometry (fst out)) = Ok n
                         /\ Worker.has_normal (meshGeometry (fst out)) = true
                         /\ (n < currentBestVertexCount st)%nat)).
Proof.
  cbv zeta. unfold Worker.simplify_body.
  assert (Hshade :
    forall shaded,
      (if negb (preserveNormals optimizationConfig)
          || negb (Worker.has_normal (meshGeometry st))
       then computeVertexNormals E (meshGeometry st)
       else Ok (meshGeometry st)) = Ok shaded ->
      shaded = meshGeometry st \/ computeVertexNormals E (meshGeometry st) = Ok shaded).
  { intros shaded. destruct (_ || _); intros H; [right; exact H | left; congruence]. }
  destruct (if negb (preserveNormals optimizationConfig)
               || negb (Worker.has_normal (meshGeometry st))
            then computeVertexNormals E (meshGeometry st)
            else Ok (meshGeometry st)) as [shaded|e].
  2:{ exists []. simpl. rewrite app_nil_r. split; [reflexivity|].
      split; [unfold attempts_in; simpl; lia|]. left.
      split; [intros k []|]. split; [left; reflexivity | discriminate]. }
  specialize (Hshade shaded eq_refl). cbv zeta.
  destruct (analyzeFeatureSizes E shaded _) as [meshAnalysis|e].
  2:{ exists []. simpl. rewrite app_nil_r. split; [reflexivity|].
      split; [unfold attempts_in; simpl; lia|]. left.
      split; [intros k []|]. split; [|discriminate].
      destruct Hshade as [-> | H]; [left; reflexivity | right; exact H]. }
  cbv zeta.
  match goal with
  | |- context [Worker.simplify_loop E ?c ?g ?n ?gs ?a ?f ?s] =>
      pose proof (worker_loop_trace E c g n gs a f s) as Hloop;
      cbv zeta in Hloop;
      destruct (Worker.simplify_loop E c g n gs a f s) as [a' r' b' g' m' s' c' l'] eqn:Hrun
  end.
  destruct Hloop as (new & Hconsole & Hbound & Hrest).
  unfold Worker.MAX_ATTEMPTS in Hbound. simpl in Hconsole.
  assert (Hout : forall tail, attempts_in tail = 0%nat -> no_accept tail ->
    (attempts_in (new ++ tail) <= 5)%nat
    /\ ((no_accept (new ++ tail)
         /\ (g' = meshGeometry st \/ computeVertexNormals E (meshGeometry st) = Ok g')
         /\ forall v, Ok m' = Ok v -> v = modified st)
        \/ (preserveNormals optimizationConfig = true
            /\ Ok m' = Ok true
            /\ exists n, In (Accepted n) (new ++ tail)
                         /\ position_count g' = Ok n
                         /\ Worker.has_normal g' = true
                         /\ (n < currentBestVertexCount st)%nat))).
  { intros tail Ht Hq. split; [rewrite attempts_in_app; lia|].
    simpl in Hrest.
    destruct Hrest as [(Hnone & Hg & Hm & _) | (Hkeep & candidate & n & Hin & Hg & Hn & Hc & Hlt & Hm)].
    - left. split; [apply no_accept_cat; assumption|].
      split; [|intros v Hv; injection Hv as <-; exact Hm].
      rewrite Hg. destruct Hshade as [-> | H]; [left; reflexivity | right; exact H].
    - right. split; [exact Hkeep|]. split; [rewrite Hm; reflexivity|].
      exists n. split; [apply in_or_app; left; exact Hin|].
      rewrite Hg. unfold position_count, Worker.has_normal, Worker.copy_into in *. simpl.
      split; [exact Hc|]. split; [|exact Hlt].
      destruct (normal candidate); [reflexivity | discriminate]. }
  destruct (negb _ && _).
  - exists (new ++ [Failed]). simpl.
    split; [rewrite Hconsole, app_assoc; reflexivity|].
    apply Hout; [reflexivity | intros k [H | []]; discriminate].
  - exists new. simpl. split; [exact Hconsole|].
    specialize (Hout [] eq_refl (fun k H => match H with end)).
    rewrite app_nil_r in Hout. exact Hout.
Qed.

(** A run of the worker's [simplifyMesh] on a geometry with positions. *)
Lemma worker_summary (E : Externals) (geometry0 : BufferGeometry)
    (optimizationConfig : OptimizationConfig) (seed originalVertexCount : nat) :
  position_count geometry0 = Ok originalVertexCount ->
  let run := Worker.simplifyMesh E (mkMesh (Some geometry0)) optimizationConfig seed in
  exists geometry1 best modified1 said new tail final,
    attempts_in said = 0%nat /\ no_accept said
    /\ ((modified1 = false /\ geometry1 = geometry0 /\ best = originalVertexCount)
        \/ (modified1 = true /\ In MergeApplied said
            /\ position_count geometry1 = Ok best /\ (best <= originalVertexCount)%nat))
    /\ mesh_after run = mkMesh (Some final)
    /\ run_console run = said ++ new ++ tail
    /\ attempts_in tail = 0%nat /\ no_accept tail
    /\ (attempts_in new <= 5)%nat
    /\ ((no_accept new
         /\ (final = geometry1 \/ computeVertexNormals E geometry1 = Ok final)
         /\ (returned run = Ok modified1 \/ returned run = Ok false))
        \/ (preserveNormals optimizationConfig = true
            /\ returned run = Ok true
            /\ exists n, In (Accepted n) new
                         /\ position_count final = Ok n
                         /\ Worker.has_normal final = true
                         /\ (n < best)%nat)).
Proof.
  intros Hcount run. unfold run, Worker.simplifyMesh. cbn [geometry]. rewrite Hcount.
  assert (Hdedup :
    let '(geometry1, best, modified1, said) :=
      (if removeDuplicates optimizationConfig
       then Worker.dedup E geometry0 originalVertexCount
       else (geometry0, originalVertexCount, false, [])) in
    attempts_in said = 0%nat /\ no_accept said
    /\ ((modified1 = false /\ geometry1 = geometry0 /\ best = originalVertexCount)
        \/ (modified1 = true /\ In MergeApplied said
            /\ position_count geometry1 = Ok best /\ (best <= originalVertexCount)%nat))).
  { destruct (removeDuplicates optimizationConfig).
    - pose proof (worker_dedup_cases E geometry0 originalVertexCount) as H.
      destruct (Worker.dedup E geometry0 originalVertexCount) as [[[g1 b1] m1] said].
      destruct H as (H1 & H2 & [H3 | (H3 & -> & H4)]).
      + split; [exact H1|]. split; [exact H2|]. left. exact H3.
      + split; [exact H1|]. split; [exact H2|]. right.
        split; [exact H3|]. split; [left; reflexivity | exact H4].
    - split; [reflexivity|]. split; [intros k []|]. left. auto. }
  destruct (if removeDuplicates optimizationConfig
            then Worker.dedup E geometry0 originalVertexCount
            else (geometry0, originalVertexCount, false, []))
    as [[[geometry1 best] modified1] said].
  destruct Hdedup as (Hsaid0 & Hsaidq & Hmerge).
  destruct (simplifyGeometry optimizationConfig); simpl negb; cbv iota.
  2:{ exists geometry1, best, modified1, said, [], [], geometry1. simpl.
      rewrite app_nil_r.
      repeat (split; [first [assumption | reflexivity | intros k []]|]).
      split; [unfold attempts_in; simpl; lia|].
      left. split; [intros k []|]. auto. }
  set (st := mkLoop 0 (Fin 0) best geometry1 modified1 false seed said).
  pose proof (worker_body_trace E geometry0 originalVertexCount optimizationConfig st)
    as Hbody.
  cbv zeta in Hbody.
  destruct (Worker.simplify_body E geometry0 originalVertexCount optimizationConfig st)
    as [st' r].
  simpl fst in Hbody. simpl snd in Hbody.
  destruct Hbody as (new & Hnew & Hattempts & Hcases). simpl in Hnew.
  destruct r as [value|e].
  - exists geometry1, best, modified1, said, new, [], (meshGeometry st'). simpl.
    rewrite app_nil_r.
    repeat (split; [first [assumption | reflexivity | intros k []]|]).
    destruct Hcases as [(Hq & Hg & Hv) | (Hkeep & Hr & Hacc)].
    + left. split; [exact Hq|]. split; [|left; rewrite (Hv value eq_refl); reflexivity].
      destruct Hg as [Hg | Hg]; [left | right]; exact Hg.
    + right. split; [exact Hkeep|]. split; [exact Hr | exact Hacc].
  - exists geometry1, best, modified1, said, new, [OuterError], (meshGeometry st'). simpl.
    split; [assumption|]. split; [assumption|]. split; [assumption|].
    split; [reflexivity|]. split; [rewrite Hnew, app_assoc; reflexivity|].
    split; [reflexivity|]. split; [intros k [H | []]; discriminate|].
    split; [assumption|].
    destruct Hcases as [(Hq & Hg & Hv) | (_ & Hr & _)]; [|discriminate].
    left. split; [exact Hq|]. split; [|right; reflexivity].
    destruct Hg as [Hg | Hg]; [left | right]; exact Hg.
Qed.

(** The worker's [simplifyMesh] never throws: it answers [false] for a
    missing geometry or position attribute and catches everything else. *)
Theorem worker_always_returns (E : Externals) (mesh : Mesh)
    (optimizationConfig : OptimizationConfig) (seed : nat) :
  exists value, returned (Worker.simplifyMesh E mesh optimizationConfig seed) = Ok value.
Proof.
  destruct mesh as [[geometry0|]]; [|exists false; reflexivity].
  destruct (position_count geometry0) as [n0|e] eqn:Hcount.
  - destruct (worker_summary E geometry0 optimizationConfig seed n0 Hcount)
      as (g1 & best & m1 & said & new & tail & final & _ & _ & _ & _ & _ & _ & _ & _ & Hret).
    destruct Hret as [(_ & _ & [H | H]) | (_ & H & _)]; eauto.
  - exists false. unfold Worker.simplifyMesh. cbn [geometry]. rewrite Hcount. reflexivity.
Qed.

(** The worker makes at most 5 attempts on a geometry. *)
Theorem worker_attempts_bounded (E : Externals) (mesh : Mesh)
    (optimizationConfig : OptimizationConfig) (seed : nat) :
  (attempts_in (run_console (Worker.simplifyMesh E mesh optimizationConfig seed)) <= 5)%nat.
Proof.
  destruct mesh as [[geometry0|]]; [|cbv; lia].
  destruct (position_count geometry0) as [n0|e] eqn:Hcount.
  - destruct (worker_summary E geometry0 optimizationConfig seed n0 Hcount)
      as (g1 & best & m1 & said & new & tail & final
          & Hs & _ & _ & _ & Hconsole & Ht & _ & Hnew & _).
    rewrite Hconsole, !attempts_in_app. lia.
  - unfold Worker.simplifyMesh. cbn [geometry]. rewrite Hcount. cbv. lia.
Qed.

(** With [preserveNormals] off the worker accepts no candidate: every
    attempt that gets as far as the creased normals ends in the assignment
    to the [const] binding.  It can then report a change only through
    duplicate removal. *)
Theorem worker_needs_preserved_normals (E : Externals) (mesh : Mesh)
    (optimizationConfig : OptimizationConfig) (seed : nat) :
  preserveNormals optimizationConfig = false ->
  no_accept (run_console (Worker.simplifyMesh E mesh optimizationConfig seed))
  /\ (returned (Worker.simplifyMesh E mesh optimizationConfig seed) = Ok true ->
      In MergeApplied (run_console (Worker.simplifyMesh E mesh optimizationConfig seed))).
Proof.
  intros Hoff.
  destruct mesh as [[geometry0|]];
    [|split; [intros k [] | cbv; discriminate]].
  destruct (position_count geometry0) as [n0|e] eqn:Hcount.
  2:{ unfold Worker.simplifyMesh. cbn [geometry]. rewrite Hcount.
      split; [intros k [] | cbv; discriminate]. }
  destruct (worker_summary E geometry0 optimizationConfig seed n0 Hcount)
    as (g1 & best & m1 & said & new & tail & final
        & _ & Hsaid & Hmerge & _ & Hconsole & _ & Htail & _ & Hret).
  destruct Hret as [(Hnew & _ & Hvalue) | (Hon & _)]; [|congruence].
  rewrite Hconsole. split.
  - apply no_accept_cat; [exact Hsaid|]. apply no_accept_cat; assumption.
  - intros Htrue.
    destruct Hvalue as [H | H]; rewrite H in Htrue; [|discriminate].
    injection Htrue as ->.
    destruct Hmerge as [(Hf & _) | (_ & Hin & _)]; [discriminate|].
    apply in_or_app. left. exact Hin.
Qed.

Lemma worker_needs_preserved_normals_witness :
  no_accept (run_console (Worker.simplifyMesh plate_world (mkMesh (Some plate))
                            (mkConfig false false true false (Fin 0) false false) 0))
  /\ (returned (Worker.simplifyMesh plate_world (mkMesh (Some plate))
                  (mkConfig false false true false (Fin 0) false false) 0) = Ok true ->
      In MergeApplied
         (run_console (Worker.simplifyMesh plate_world (mkMesh (Some plate))
                         (mkConfig false false true false (Fin 0) false false) 0))).
Proof.
  apply (worker_needs_preserved_normals plate_world (mkMesh (Some plate))
           (mkConfig false false true false (Fin 0) false false) 0).
  reflexivity.
Defined.

(** When the worker accepts a candidate, the normals were kept, the
    geometry ends up with a normal attribute and with fewer vertices than
    it had, and the call returns [true]. *)
Theorem worker_accepted_geometry (E : Externals) (geometry0 : BufferGeometry)
    (optimizationConfig : OptimizationConfig) (seed originalVertexCount k : nat) :
  position_count geometry0 = Ok originalVertexCount ->
  In (Accepted k)
     (run_console (Worker.simplifyMesh E (mkMesh (Some geometry0)) optimizationConfig seed)) ->
  preserveNormals optimizationConfig = true
  /\ returned (Worker.simplifyMesh E (mkMesh (Some geometry0)) optimizationConfig seed)
     = Ok true
  /\ exists final n,
       mesh_after (Worker.simplifyMesh E (mkMesh (Some geometry0)) optimizationConfig seed)
         = mkMesh (Some final)
       /\ Worker.has_normal final = true
       /\ position_count final = Ok n
       /\ (n < originalVertexCount)%nat.
Proof.
  intros Hcount.
  destruct (worker_summary E geometry0 optimizationConfig seed _ Hcount)
    as (g1 & best & m1 & said & new & tail & final
        & _ & Hsaid & Hmerge & Hafter & Hconsole & _ & Htail & _ & Hret).
  rewrite Hconsole. intros Hin.
  destruct Hret as [(Hnew & _) | (Hon & Hvalue & n & _ & Hn & Hnormal & Hlt)].
  - exfalso. apply in_app_or in Hin. destruct Hin as [H | H]; [exact (Hsaid k H)|].
    apply in_app_or in H. destruct H as [H | H]; [exact (Hnew k H) | exact (Htail k H)].
  - split; [exact Hon|]. split; [exact Hvalue|]. exists final, n.
    split; [exact Hafter|]. split; [exact Hnormal|]. split; [exact Hn|].
    destruct Hmerge as [(_ & _ & ->) | (_ & _ & _ & Hle)]; lia.
Qed.

Lemma worker_accepted_geometry_witness :
  preserveNormals keep_all = true
  /\ returned (Worker.simplifyMesh plate_world (mkMesh (Some plate)) keep_all 0) = Ok true
  /\ exists final n,
       mesh_after (Worker.simplifyMesh plate_world (mkMesh (Some plate)) keep_all 0)
         = mkMesh (Some final)
       /\ Worker.has_normal final = true
       /\ position_count final = Ok n
       /\ (n < 12)%nat.
Proof.
  apply (worker_accepted_geometry plate_world plate keep_all 0 12 9).
  - reflexivity.
  - vm_compute. right. left. reflexivity.
Defined.

(** When [computeVertexNormals] leaves the positions alone, the worker
    never leaves the geometry with more vertices than it had. *)
Theorem worker_never_adds_vertices (E : Externals) (geometry0 : BufferGeometry)
    (optimizationConfig : OptimizationConfig) (seed originalVertexCount : nat) :
  (forall g g', computeVertexNormals E g = Ok g' -> position g' = position g) ->
  position_count geometry0 = Ok originalVertexCount ->
  exists final n,
    mesh_after (Worker.simplifyMesh E (mkMesh (Some geometry0)) optimizationConfig seed)
      = mkMesh (Some final)
    /\ position_count final = Ok n
    /\ (n <= originalVertexCount)%nat.
Proof.
  intros Hnormals Hcount.
  destruct (worker_summary E geometry0 optimizationConfig seed _ Hcount)
    as (g1 & best & m1 & said & new & tail & final
        & _ & _ & Hmerge & Hafter & _ & _ & _ & _ & Hret).
  assert (Hg1 : position_count g1 = Ok best /\ (best <= originalVertexCount)%nat).
  { destruct Hmerge as [(_ & -> & ->) | (_ & _ & H1 & H2)]; auto. }
  destruct Hg1 as [Hg1 Hbest].
  destruct Hret as [(_ & Hfinal & _) | (_ & _ & n & _ & Hn & _ & Hlt)].
  - exists final, best. split; [exact Hafter|]. split; [|exact Hbest].
    destruct Hfinal as [-> | Hshade]; [exact Hg1|].
    unfold position_count in *. rewrite (Hnormals _ _ Hshade). exact Hg1.
  - exists final, n. split; [exact Hafter|]. split; [exact Hn | lia].
Qed.

Lemma worker_never_adds_vertices_witness :
  exists final n,
    mesh_after (Worker.simplifyMesh plate_world (mkMesh (Some plate)) keep_all 0)
      = mkMesh (Some final)
    /\ position_count final = Ok n
    /\ (n <= 12)%nat.
Proof.
  apply (worker_never_adds_vertices plate_world plate keep_all 0 12).
  - exact flat_normals_keep_positions.
  - reflexivity.
Defined.

(** ** The export search *)

Lemma le_num_trans (a b c : num) :
  (a <=? b)%num = true -> (b <=? c)%num = true -> (a <=? c)%num = true.
Proof.
  destruct a as [p| | |], b as [q| | |], c as [r| | |]; simpl;
    try discriminate; try reflexivity.
  intros H1 H2. apply Qle_bool_iff in H1. apply Qle_bool_iff in H2.
  apply Qle_bool_iff. apply (Qle_trans _ _ _ H1 H2).
Qed.

Lemma lt_le_num (p : Q) (b : num) : (Fin p <? b)%num = true -> (Fin p <=? b)%num = true.
Proof.
  destruct b as [q| | |]; simpl; try discriminate; try reflexivity.
  intros H. apply Qlt_bool_iff in H. apply Qle_bool_iff. apply Qlt_le_weak. exact H.
Qed.

Lemma not_lt_le_num (p q : Q) : (Fin p <? Fin q)%num = false -> (Fin q <=? Fin p)%num = true.
Proof. simpl. unfold Qlt_bool. intros H. apply negb_false_iff in H. exact H. Qed.

Section SearchFacts.
Context (B : Browser).
Variables (scene : Scene) (originalSize : num) (all : list ExportConfiguration).

(** The running best is the export of one of the configurations, with its
    measured size and its name. *)
Definition chosen (b : Best) : Prop :=
  exists config r,
    In config all
    /\ bestResult b = Some r
    /\ exporter_parse B scene (options config) = Ok r
    /\ measured_size B r = Ok (bestSize b)
    /\ bestConfigName b = config_name config.

Definition fresh_or_chosen (b : Best) : Prop :=
  (bestResult b = None /\ bestSize b = PInf) \/ chosen b.

Lemma fresh_or_chosen_size (b : Best) :
  fresh_or_chosen b -> bestSize b = PInf \/ exists q, bestSize b = Fin q.
Proof.
  intros [[_ H] | (config & r & _ & _ & _ & Hsize & _)]; [left; exact H|].
  right. destruct (measured_size_finite B r _ Hsize) as [n Hn].
  rewrite Hn. unfold of_nat, of_Z. eauto.
Qed.

Lemma search_smallest (configs : list ExportConfiguration) :
  (forall c, In c configs -> In c all) ->
  forall b, fresh_or_chosen b ->
    fresh_or_chosen (search B scene originalSize configs b)
    /\ (bestSize (search B scene originalSize configs b) <=? bestSize b)%num = true
    /\ forall config r size,
         In config configs ->
         exporter_parse B scene (options config) = Ok r ->
         measured_size B r = Ok size ->
         chosen (search B scene originalSize configs b)
         /\ ((bestSize (search B scene originalSize configs b) <=? size)%num = true
             \/ (bestSize (search B scene originalSize configs b)
                 <? originalSize * dec 7 10)%num = true).
Proof.
  induction configs as [|head rest IH]; intros Hall b Hb.
  - simpl. split; [exact Hb|]. split.
    + destruct (fresh_or_chosen_size b Hb) as [-> | [q ->]]; simpl; [reflexivity|].
      apply Qle_bool_iff. apply Qle_refl.
    + intros config r size [].
  - assert (Hrest : forall c, In c rest -> In c all)
      by (intros c Hc; apply Hall; right; exact Hc).
    cbn [search]. unfold bind.
    destruct (exporter_parse B scene (options head)) as [r0|e] eqn:Hexport.
    2:{ destruct (IH Hrest b Hb) as (H1 & H2 & H3). split; [exact H1|].
        split; [exact H2|]. intros config r size [<- | Hin] Hr Hs; [congruence|].
        exact (H3 config r size Hin Hr Hs). }
    destruct (measured_size B r0) as [size0|e] eqn:Hsize0.
    2:{ destruct (IH Hrest b Hb) as (H1 & H2 & H3). split; [exact H1|].
        split; [exact H2|]. intros config r size [<- | Hin] Hr Hs; [congruence|].
        exact (H3 config r size Hin Hr Hs). }
    destruct (measured_size_finite B r0 _ Hsize0) as [n0 Hn0].
    set (applied := if has_draco (options head) && (size0 <? PInf)%num
                    then true else dracoApplied b).
    assert (Hnew : chosen (mkBest (Some r0) size0 (config_name head) applied)).
    { exists head, r0. simpl. split; [apply Hall; left; reflexivity|]. auto. }
    destruct (size0 <? bestSize b)%num eqn:Hlt.
    + assert (Hle0 : (size0 <=? bestSize b)%num = true).
      { rewrite Hn0 in *. apply lt_le_num. exact Hlt. }
      destruct (size0 <? originalSize * dec 7 10)%num eqn:Hbreak.
      * simpl. split; [right; exact Hnew|]. split; [exact Hle0|].
        intros config r size _ _ _. split; [exact Hnew|]. right. exact Hbreak.
      * destruct (IH Hrest (mkBest (Some r0) size0 (config_name head) applied)
                    (or_intror Hnew)) as (H1 & H2 & H3).
        simpl in H2. split; [exact H1|].
        split; [exact (le_num_trans _ _ _ H2 Hle0)|].
        intros config r size [<- | Hin] Hr Hs.
        -- assert (r = r0) by congruence. subst r.
           assert (size = size0) by congruence. subst size.
           split; [|left; exact H2].
           destruct H1 as [[Hnone _] | H1]; [|exact H1].
           exfalso.
           assert (Hinf : (bestSize (search B scene originalSize rest
                             (mkBest (Some r0) size0 (config_name head) applied))
                           <=? size0)%num = true) by exact H2.
           clear - Hnone Hinf Hn0 IH Hrest Hnew.
           destruct (IH Hrest (mkBest (Some r0) size0 (config_name head) applied)
                       (or_intror Hnew)) as ([[_ Hp] | Hc] & _ & _).
           ++ rewrite Hp, Hn0 in Hinf. discriminate.
           ++ destruct Hc as (c & r & _ & Hsome & _). congruence.
        -- exact (H3 config r size Hin Hr Hs).
    + set (b1 := mkBest (bestResult b) (bestSize b) (bestConfigName b) applied).
      assert (Hb1 : fresh_or_chosen b1).
      { destruct Hb as [Hb | (c & r & Hc)]; [left; exact Hb|].
        right. exists c, r. exact Hc. }
      assert (Hle0 : (bestSize b <=? size0)%num = true).
      { destruct (fresh_or_chosen_size b Hb) as [Hp | [q Hq]].
        - rewrite Hp, Hn0 in Hlt. discriminate.
        - rewrite Hq, Hn0 in *. apply not_lt_le_num. exact Hlt. }
      destruct (IH Hrest b1 Hb1) as (H1 & H2 & H3). simpl in H2.
      split; [exact H1|]. split; [exact H2|].
      intros config r size [<- | Hin] Hr Hs.
      * assert (r = r0) by congruence. subst r.
        assert (size = size0) by congruence. subst size.
        split; [|left; exact (le_num_trans _ _ _ H2 Hle0)].
        destruct H1 as [[Hnone Hp] | H1]; [|exact H1].
        exfalso. pose proof (le_num_trans _ _ _ H2 Hle0) as Hinf.
        rewrite Hp, Hn0 in Hinf. discriminate.
      * exact (H3 config r size Hin Hr Hs).
Qed.

End SearchFacts.

(** As soon as one configuration exports, the search keeps the export of
    one of the configurations, under its name and with its measured size,
    and that size is the smallest of all exports unless the search stopped
    early on a size under 0.7 of the file. *)
Theorem search_keeps_smallest_export (B : Browser) (scene : Scene) (originalSize : num)
    (configs : list ExportConfiguration) (config : ExportConfiguration)
    (r : ExportResult) (size : num) :
  In config configs ->
  exporter_parse B scene (options config) = Ok r ->
  measured_size B r = Ok size ->
  let best := search B scene originalSize configs (mkBest None PInf "" false) in
  (exists config' r',
     In config' configs
     /\ bestResult best = Some r'
     /\ exporter_parse B scene (options config') = Ok r'
     /\ measured_size B r' = Ok (bestSize best)
     /\ bestConfigName best = config_name config')
  /\ ((bestSize best <=? size)%num = true
      \/ (bestSize best <? originalSize * dec 7 10)%num = true).
Proof.
  intros Hin Hr Hs best.
  destruct (search_smallest B scene originalSize configs configs (fun c H => H)
              (mkBest None PInf "" false) (or_introl (conj eq_refl eq_refl)))
    as (_ & _ & H).
  exact (H config r size Hin Hr Hs).
Qed.

Lemma search_keeps_smallest_export_witness :
  (exists config' r',
     In config' (exportConfigurations true false (Fin 0))
     /\ bestResult (search sizing_browser [] (of_nat 100)
                      (exportConfigurations true false (Fin 0))
                      (mkBest None PInf "" false)) = Some r'
     /\ exporter_parse sizing_browser [] (options config') = Ok r'
     /\ measured_size sizing_browser r'
        = Ok (bestSize (search sizing_browser [] (of_nat 100)
                          (exportConfigurations true false (Fin 0))
                          (mkBest None PInf "" false)))
     /\ bestConfigName (search sizing_browser [] (of_nat 100)
                          (exportConfigurations true false (Fin 0))
                          (mkBest None PInf "" false)) = config_name config')
  /\ ((bestSize (search sizing_browser [] (of_nat 100)
                   (exportConfigurations true false (Fin 0))
                   (mkBest None PInf "" false)) <=? of_nat 96)%num = true
      \/ (bestSize (search sizing_browser [] (of_nat 100)
                      (exportConfigurations true false (Fin 0))
                      (mkBest None PInf "" false)) <? of_nat 100 * dec 7 10)%num = true).
Proof.
  apply (search_keeps_smallest_export sizing_browser [] (of_nat 100)
           (exportConfigurations true false (Fin 0))
           (mkExport "Binary encoding without Draco" (full false None))
           (ArrayBuffer (repeat Byte.x01 96)) (of_nat 96)).
  - simpl. right. right. left. reflexivity.
  - reflexivity.
  - reflexivity.
Defined.

(** ** Minimal compression and the reported sizes *)

Lemma truncated_prefix (buffer : list Byte.byte) :
  truncated buffer = firstn (List.length buffer * 98 / 100) buffer.
Proof.
  unfold truncated, of_nat, of_Z, dec, mul, js_floor, of_Z, slice0.
  f_equal.
  rewrite Qfloor_Z.
  change (Qfloor (inject_Z (Z.of_nat (List.length buffer)) * (98 # 100)))
    with ((Z.of_nat (List.length buffer) * 98) / 100)%Z.
  rewrite <- (Nat2Z.id (List.length buffer * 98 / 100)).
  f_equal. rewrite Nat2Z.inj_div, Nat2Z.inj_mul. reflexivity.
Qed.

Section CompressionFacts.
Context (B : Browser).

(** What the [try] block of [applyMinimalCompression] can hand back for a
    file that is not named [.gltf]: a prefix of the buffer. *)
Lemma compress_known_prefix (name : string) (buffer blob : list Byte.byte) :
  endsWith name ".gltf" = false ->
  compress_known B name buffer = Ok (Some blob) ->
  exists k, blob = firstn k buffer.
Proof.
  intros Hname. unfold compress_known, bind. rewrite Hname.
  destruct (endsWith name ".glb").
  - unfold trim_glb, bind.
    destruct (getUint32 buffer 0) as [magic|e]; [|discriminate].
    destruct (magic =? 0x46546C67)%N; [|discriminate].
    destruct (getUint32 buffer 8) as [length|e]; [|discriminate].
    intros H. exists (12 + N.to_nat length)%nat. unfold slice0 in H. congruence.
  - discriminate.
Qed.

(** For a file not named [.gltf], [applyMinimalCompression] does not throw
    once the bytes are read, and what it returns is a prefix of the file:
    nothing is rewritten, bytes are only cut off the end. *)
Theorem minimal_compression_is_a_prefix (file : File) (buffer : list Byte.byte) :
  arrayBuffer B file = Ok buffer ->
  endsWith (file_name file) ".gltf" = false ->
  exists k, applyMinimalCompression B file = Ok (firstn k buffer).
Proof.
  intros Hbuffer Hname. unfold applyMinimalCompression. rewrite Hbuffer. unfold bind at 1.
  rewrite Hname, orb_false_r.
  destruct (endsWith (file_name file) ".glb").
  - destruct (compress_known B (file_name file) buffer) as [[blob|]|e] eqn:Hknown;
      unfold try_catch, bind.
    + destruct (compress_known_prefix _ _ _ Hname Hknown) as [k ->]. eauto.
    + rewrite truncated_prefix. eauto.
    + rewrite truncated_prefix. eauto.
  - unfold bind. rewrite truncated_prefix. eauto.
Qed.

(** A file named neither [.glb] nor [.gltf] comes back as its first
    98% (rounded down): the last bytes of the file are dropped. *)
Theorem other_files_lose_their_tail (file : File) (buffer : list Byte.byte) :
  arrayBuffer B file = Ok buffer ->
  endsWith (file_name file) ".glb" = false ->
  endsWith (file_name file) ".gltf" = false ->
  applyMinimalCompression B file = Ok (firstn (List.length buffer * 98 / 100) buffer)
  /\ List.length (firstn (List.length buffer * 98 / 100) buffer)
     = (List.length buffer * 98 / 100)%nat.
Proof.
  intros Hbuffer Hglb Hgltf. split.
  - unfold applyMinimalCompression. rewrite Hbuffer. unfold bind at 1.
    rewrite Hglb, Hgltf. simpl orb. cbv iota. unfold bind.
    rewrite truncated_prefix. reflexivity.
  - apply firstn_length_le.
    apply Nat.Div0.div_le_upper_bound. lia.
Qed.

Lemma js_min_under_cap (x : num) (c : Q) :
  x <> NaN -> (js_min x (Fin c) <=? Fin c)%num = true.
Proof.
  intros Hx. destruct x as [p| | |]; simpl; [| | |congruence].
  - destruct (Qlt_bool c p) eqn:Hlt; simpl.
    + apply Qle_bool_iff. apply Qle_refl.
    + unfold Qlt_bool in Hlt. apply negb_false_iff in Hlt. exact Hlt.
  - apply Qle_bool_iff. apply Qle_refl.
  - reflexivity.
Qed.

Lemma basic_export_size (scene : Scene) (optimizationConfig : OptimizationConfig)
    (originalSize : num) (anyOptimizationApplied : bool) (blob : list Byte.byte)
    (size : num) :
  basic_export B scene optimizationConfig originalSize anyOptimizationApplied
    = Ok (blob, size) ->
  exists n, size = of_nat n.
Proof.
  unfold basic_export, bind.
  destruct (exporter_parse B scene (basic_options optimizationConfig)) as [basicResult|e];
    [|discriminate].
  destruct (blob_of B basicResult) as [blob0|e]; [|discriminate].
  assert (Hsize : forall size0,
    match basicResult with
    | ArrayBuffer bytes => Ok (of_nat (List.length bytes))
    | JsString text => Ok (of_nat (String.length text))
    | JsObject _ =>
        match JSON_stringify B basicResult with
        | Ok text => Ok (of_nat (String.length text))
        | Throw e => Throw e
        end
    end = Ok size0 -> exists n, size0 = of_nat n).
  { intros size0. destruct basicResult as [bytes|text|id]; intros H.
    - inversion H. eauto.
    - inversion H. eauto.
    - destruct (JSON_stringify B (JsObject id)); inversion H. eauto. }
  destruct (match basicResult with
            | ArrayBuffer bytes => Ok (of_nat (List.length bytes))
            | JsString text => Ok (of_nat (String.length text))
            | JsObject _ =>
                match JSON_stringify B basicResult with
                | Ok text => Ok (of_nat (String.length text))
                | Throw e => Throw e
                end
            end) as [size0|e]; [|discriminate].
  destruct (Hsize size0 eq_refl) as [n0 Hn0].
  destruct ((size0 >=? originalSize)%num && anyOptimizationApplied).
  - destruct (JSON_stringify B basicResult); intros H; inversion H; subst; eauto.
  - intros H. inversion H. subst. eauto.
Qed.

Lemma optimize_loaded_report (file : File) (optimizationConfig : OptimizationConfig)
    (r : OptimizationResult) :
  optimize_loaded B file optimizationConfig = Ok r ->
  originalSize r = of_nat (file_size file)
  /\ ((optimizedSize r <=? originalSize r * dec 98 100)%num = true
      \/ (applyMinimalCompression B file = Ok (optimizedBlob r)
          /\ optimizedSize r = of_nat (List.length (optimizedBlob r)))).
Proof.
  unfold optimize_loaded.
  destruct (load B file) as [loadedScene|e]; [|discriminate]. unfold bind at 1.
  destruct (mesh_pass B loadedScene optimizationConfig) as [[scene any0]|e]; [|discriminate].
  unfold bind at 1. cbv zeta.
  set (best := search B scene (of_nat (file_size file)) _ _).
  assert (Hok : best_ok B best).
  { apply search_keeps_best_ok. split; simpl; [auto | discriminate]. }
  destruct (_ || _).
  - match goal with
    | |- bind ?x _ = _ -> _ => destruct x as [[blob bestSize1]|e] eqn:Hexported
    end; [|discriminate].
    unfold bind. intros H. inversion H; subst r; clear H. simpl.
    split; [reflexivity|]. left.
    unfold of_nat at 2, of_Z, dec, mul.
    apply js_min_under_cap.
    assert (Hsize : exists n, bestSize1 = of_nat n).
    { destruct (bestResult best) as [candidate|] eqn:Hbest.
      - destruct Hok as [_ Hsome]. pose proof (Hsome candidate Hbest) as Hm.
        unfold bind in Hexported. destruct (blob_of B candidate); [|discriminate].
        inversion Hexported; subst. exact (measured_size_finite B candidate _ Hm).
      - exact (basic_export_size _ _ _ _ _ _ Hexported). }
    destruct Hsize as [n ->].
    unfold draco_floor.
    destruct (useDraco optimizationConfig && dracoApplied best && _);
      [|unfold of_nat, of_Z; discriminate].
    destruct (isModelSmall_of _ _); simpl; discriminate.
  - destruct (applyMinimalCompression B file) as [compressedBlob|e]; [|discriminate].
    unfold bind. intros H. inversion H; subst r; clear H. simpl.
    split; [reflexivity|]. right. auto.
Qed.

(** Every record [optimizeModels] builds carries the file's size as
    [originalSize], and its [optimizedSize] is either at most 0.98 of that
    or the byte length of the blob [applyMinimalCompression] returned. *)
Theorem reported_size_is_capped_or_measured (file : File)
    (optimizationConfig : OptimizationConfig) :
  originalSize (optimizeFile B file optimizationConfig) = of_nat (file_size file)
  /\ ((optimizedSize (optimizeFile B file optimizationConfig)
       <=? originalSize (optimizeFile B file optimizationConfig) * dec 98 100)%num = true
      \/ (applyMinimalCompression B file
          = Ok (optimizedBlob (optimizeFile B file optimizationConfig))
          /\ optimizedSize (optimizeFile B file optimizationConfig)
             = of_nat (List.length (optimizedBlob (optimizeFile B file optimizationConfig))))).
Proof.
  unfold optimizeFile.
  destruct (optimize_loaded B file optimizationConfig) as [r|e] eqn:Hrun.
  - exact (optimize_loaded_report _ _ _ Hrun).
  - destruct (applyMinimalCompression B file) as [compressedBlob|e']; simpl.
    + split; [reflexivity|]. right. auto.
    + split; [reflexivity|]. left.
      unfold of_nat, of_Z, dec, mul, le. apply Qle_bool_iff. apply Qle_refl.
Qed.

Lemma optimize_files_nth (files : list File) :
  forall (configs : list OptimizationConfig) (i : nat) (file : File),
    nth_error files i = Some file ->
    nth_error (optimize_files B files configs) i
    = Some (optimizeFile B file (nth i configs default_config)).
Proof.
  induction files as [|first rest IH]; intros configs i file Hi.
  - destruct i; discriminate.
  - destruct i as [|i]; simpl in *.
    + inversion Hi; subst. destruct configs; reflexivity.
    + rewrite (IH (tl configs) i file Hi). destruct configs; [destruct i|]; reflexivity.
Qed.

Lemma optimize_files_length (files : list File) :
  forall configs, List.length (optimize_files B files configs) = List.length files.
Proof.
  induction files as [|first rest IH]; intros configs; simpl; [reflexivity|].
  rewrite IH. reflexivity.
Qed.

(** [optimizeModels] returns one record per file, in the order of the
    files, each made with the configuration at the file's own index, or
    with the default configuration when there is none. *)
Theorem optimizeModels_one_record_per_file (files : list File)
    (configs : list OptimizationConfig) (results : list OptimizationResult) :
  optimizeModels B files configs = Some results ->
  List.length results = List.length files
  /\ forall i file,
       nth_error files i = Some file ->
       nth_error results i = Some (optimizeFile B file (nth i configs default_config)).
Proof.
  unfold optimizeModels. destruct files as [|first rest]; [discriminate|].
  intros H. inversion H; subst results; clear H. split.
  - exact (optimize_files_length (first :: rest) configs).
  - intros i file Hi. exact (optimize_files_nth (first :: rest) configs i file Hi).
Qed.

End CompressionFacts.

Lemma minimal_compression_is_a_prefix_witness :
  exists k,
    applyMinimalCompression rejecting_browser header_only
    = Ok (firstn k (content header_only)).
Proof.
  apply (minimal_compression_is_a_prefix rejecting_browser header_only (content header_only));
    reflexivity.
Defined.

Lemma other_files_lose_their_tail_witness :
  applyMinimalCompression padding_browser fifty_bytes
    = Ok (firstn (List.length (content fifty_bytes) * 98 / 100) (content fifty_bytes))
  /\ List.length (firstn (List.length (content fifty_bytes) * 98 / 100) (content fifty_bytes))
     = (List.length (content fifty_bytes) * 98 / 100)%nat.
Proof.
  apply (other_files_lose_their_tail padding_browser fifty_bytes (content fifty_bytes));
    reflexivity.
Defined.

Lemma optimizeModels_one_record_per_file_witness :
  List.length (optimize_files padding_browser [hundred_bytes; fifty_bytes] [draco_only])
    = List.length [hundred_bytes; fifty_bytes]
  /\ forall i file,
       nth_error [hundred_bytes; fifty_bytes] i = Some file ->
       nth_error (optimize_files padding_browser [hundred_bytes; fifty_bytes] [draco_only]) i
       = Some (optimizeFile padding_browser file (nth i [draco_only] default_config)).
Proof.
  apply (optimizeModels_one_record_per_file padding_browser
           [hundred_bytes; fifty_bytes] [draco_only]).
  reflexivity.
Defined.

(** ** When [toCreasedNormals] succeeds *)

Lemma iterations_thirds (m : nat) :
  iterations (of_nat m / Fin 3) = ((m + 2) / 3)%nat.
Proof.
  unfold of_nat, of_Z, div. change (Qsign 3) with Gt. cbv iota.
  unfold iterations, Qceiling.
  change (Qfloor (- (inject_Z (Z.of_nat m) / 3))) with ((- (Z.of_nat m * 1)) / 3)%Z.
  rewrite <- (Nat2Z.id ((m + 2) / 3)). f_equal.
  rewrite Nat2Z.inj_div, Nat2Z.inj_add. simpl Z.of_nat.
  Z.to_euclidean_division_equations. lia.
Qed.

Lemma whole_thirds (m j : nat) :
  (m mod 3 = 0)%nat -> (j < (m + 2) / 3 * 3)%nat -> (j < m)%nat.
Proof.
  intros Hm Hj.
  pose proof (Nat.div_mod_eq m 3) as Hd.
  pose proof (Nat.div_mod_eq (m + 2) 3) as Hd2.
  pose proof (Nat.mod_upper_bound (m + 2) 3) as Hr.
  lia.
Qed.

Lemma push_at_ok {A} (x : A) (l : list (list A)) :
  forall k, (k < List.length l)%nat -> exists l', push_at k x l = Ok l'.
Proof.
  induction l as [|xs rest IH]; intros k Hk; [simpl in Hk; lia|].
  destruct k as [|k]; [simpl; eauto|].
  simpl in Hk. destruct (IH k) as [rest' Hrest]; [lia|].
  simpl. rewrite Hrest. simpl. eauto.
Qed.

Lemma push_at_out {A} (x : A) (l : list (list A)) :
  forall k, (List.length l <= k)%nat -> push_at k x l = Throw TypeError.
Proof.
  induction l as [|xs rest IH]; intros k Hk; [destruct k; reflexivity|].
  destruct k as [|k]; [simpl in Hk; lia|].
  simpl in Hk. simpl. rewrite (IH k) by lia. reflexivity.
Qed.

Lemma for_each_app {S A} (body : S -> A -> result S) (l l' : list A) :
  forall st, for_each body st (l ++ l') = (st' <- for_each body st l ;; for_each body st' l').
Proof.
  induction l as [|a l IH]; intros st; simpl; [reflexivity|].
  destruct (body st a) as [st1|e]; simpl; [apply IH | reflexivity].
Qed.

Section CreaseRuns.
Context (E : Externals).
Variables (pos : list Vector3) (indices : option (list nat)).

(** Corner [j] of the index stream names a vertex. *)
Definition names_vertex (j : nat) : Prop :=
  exists w, face_vertex indices j = Some w /\ (w < List.length pos)%nat.

Lemma face_pass_ok (i : nat) (faceNormals : list Vector3) (vertexFaces : list (list nat)) :
  List.length vertexFaces = List.length pos ->
  names_vertex (i * 3) -> names_vertex (i * 3 + 1) -> names_vertex (i * 3 + 2) ->
  exists faceNormals' vertexFaces',
    face_pass E pos indices (faceNormals, vertexFaces) i = Ok (faceNormals', vertexFaces')
    /\ List.length vertexFaces' = List.length pos.
Proof.
  intros Hlen (a & Ha & Hal) (b & Hb & Hbl) (c & Hc & Hcl).
  unfold face_pass. rewrite Ha, Hb, Hc. unfold push_face.
  destruct (push_at_ok i vertexFaces a) as [vf1 H1]; [lia|].
  destruct (push_at_spec i vertexFaces a vf1 H1) as [L1 _].
  destruct (push_at_ok i vf1 b) as [vf2 H2]; [lia|].
  destruct (push_at_spec i vf1 b vf2 H2) as [L2 _].
  destruct (push_at_ok i vf2 c) as [vf3 H3]; [lia|].
  destruct (push_at_spec i vf2 c vf3 H3) as [L3 _].
  rewrite H1. unfold bind at 1. rewrite H2. unfold bind at 1. rewrite H3. unfold bind.
  eexists _, vf3. split; [reflexivity | lia].
Qed.

Lemma passes_ok (n : nat) :
  forall a faceNormals vertexFaces,
    List.length vertexFaces = List.length pos ->
    (forall j, (a * 3 <= j < (a + n) * 3)%nat -> names_vertex j) ->
    exists faceNormals' vertexFaces',
      for_each (face_pass E pos indices) (faceNormals, vertexFaces) (seq a n)
        = Ok (faceNormals', vertexFaces')
      /\ List.length vertexFaces' = List.length pos.
Proof.
  induction n as [|n IH]; intros a fn vf Hlen Hall; cbn [seq for_each].
  - eauto.
  - destruct (face_pass_ok a fn vf Hlen) as (fn1 & vf1 & Hstep & Hlen1);
      try (apply Hall; lia).
    rewrite Hstep. unfold bind.
    apply (IH (S a) fn1 vf1 Hlen1). intros j Hj. apply Hall. lia.
Qed.

(** [toCreasedNormals] returns as soon as every corner of every face it
    visits names a vertex. *)
Lemma collect_vertex_normals_ok :
  (forall j, (j < iterations (faceCount_of pos indices) * 3)%nat -> names_vertex j) ->
  exists vertexNormals, collect_vertex_normals E pos indices = Ok vertexNormals.
Proof.
  intros Hall. unfold collect_vertex_normals.
  destruct (passes_ok (iterations (faceCount_of pos indices)) 0 []
              (repeat [] (List.length pos)))
    as (fn & vf & Hrun & _).
  - apply repeat_length.
  - intros j Hj. apply Hall. lia.
  - cbv zeta. rewrite Hrun. unfold bind. eauto.
Qed.

End CreaseRuns.

(** On a well-formed mesh [toCreasedNormals] returns: a non-indexed
    geometry whose vertices come in threes, or an indexed one whose indices
    come in threes and all name a vertex. *)
Theorem creased_normals_of_whole_triangles (E : Externals) (g : BufferGeometry)
    (creaseAngle : num) (pos : list Vector3) :
  position g = Some pos ->
  match index g with
  | Some ix => (List.length ix mod 3 = 0)%nat
               /\ Forall (fun w => (w < List.length pos)%nat) ix
  | None => (List.length pos mod 3 = 0)%nat
  end ->
  exists creased, toCreasedNormals E g creaseAngle = Ok creased.
Proof.
  intros Hpos Hshape. unfold toCreasedNormals. rewrite Hpos.
  destruct (collect_vertex_normals_ok E pos (index g)) as [vertexNormals Hrun].
  - unfold faceCount_of, names_vertex, face_vertex.
    destruct (index g) as [ix|].
    + destruct Hshape as [Hthree Hall]. rewrite iterations_thirds. intros j Hj.
      pose proof (whole_thirds _ _ Hthree Hj) as Hlt.
      destruct (nth_error ix j) as [w|] eqn:Hw.
      * exists w. split; [reflexivity|].
        rewrite Forall_forall in Hall. apply Hall. exact (nth_error_In _ _ Hw).
      * apply nth_error_None in Hw. lia.
    + rewrite iterations_thirds. intros j Hj. exists j. split; [reflexivity|].
      exact (whole_thirds _ _ Hshape Hj).
  - rewrite Hrun. unfold bind. eauto.
Qed.

Lemma creased_normals_of_whole_triangles_witness :
  exists creased, toCreasedNormals plate_world fan (Fin 3) = Ok creased.
Proof.
  apply (creased_normals_of_whole_triangles plate_world fan (Fin 3)
           [pt 0 0; pt 3 0; pt 3 4; pt 0 4; pt 1 2]).
  - reflexivity.
  - simpl. split; [reflexivity|]. repeat constructor.
Defined.

(** A non-indexed geometry whose vertex count is not a multiple of 3 makes
    [toCreasedNormals] throw: the loop runs over the partial last triangle
    and pushes onto [vertexFaces] at a vertex that does not exist. *)
Theorem creased_normals_throw_on_partial_triangle (E : Externals) (g : BufferGeometry)
    (creaseAngle : num) (pos : list Vector3) :
  position g = Some pos ->
  index g = None ->
  (List.length pos mod 3 <> 0)%nat ->
  toCreasedNormals E g creaseAngle = Throw TypeError.
Proof.
  intros Hpos Hindex Hpartial. unfold toCreasedNormals. rewrite Hpos, Hindex.
  unfold collect_vertex_normals, faceCount_of. rewrite iterations_thirds. cbv zeta.
  set (m := List.length pos) in *.
  pose proof (Nat.div_mod_eq m 3) as Hd.
  pose proof (Nat.mod_upper_bound m 3) as Hr.
  set (k := (m / 3)%nat) in *.
  assert (Hfaces : ((m + 2) / 3 = k + 1)%nat).
  { pose proof (Nat.div_mod_eq (m + 2) 3) as Hd2.
    pose proof (Nat.mod_upper_bound (m + 2) 3) as Hr2. lia. }
  rewrite Hfaces, seq_app, for_each_app. simpl seq.
  destruct (passes_ok E pos None k 0 [] (repeat [] m)) as (fn & vf & Hrun & Hlen).
  - apply repeat_length.
  - intros j Hj. exists j. split; [reflexivity | fold m; lia].
  - rewrite Hrun.
    cbv beta iota zeta delta [bind for_each face_pass face_vertex push_face].
    fold m in Hlen.
    destruct (push_at_ok k vf (k * 3)) as [vf1 H1]; [lia|].
    destruct (push_at_spec k vf (k * 3) vf1 H1) as [L1 _].
    rewrite H1. cbv beta iota.
    destruct (Nat.eq_dec (m mod 3) 1) as [Hone | Hnot].
    + rewrite (push_at_out k vf1 (k * 3 + 1)) by lia. reflexivity.
    + destruct (push_at_ok k vf1 (k * 3 + 1)) as [vf2 H2]; [lia|].
      destruct (push_at_spec k vf1 (k * 3 + 1) vf2 H2) as [L2 _].
      rewrite H2. cbv beta iota.
      rewrite (push_at_out k vf2 (k * 3 + 2)) by lia. reflexivity.
Qed.

Lemma creased_normals_throw_on_partial_triangle_witness :
  toCreasedNormals plate_world (mkGeometry (Some [pt 0 0; pt 3 0; pt 0 4; pt 3 4])
                                  None None None []) (Fin 3)
  = Throw TypeError.
Proof.
  apply (creased_normals_throw_on_partial_triangle plate_world
           (mkGeometry (Some [pt 0 0; pt 3 0; pt 0 4; pt 3 4]) None None None [])
           (Fin 3) [pt 0 0; pt 3 0; pt 0 4; pt 3 4]).
  - reflexivity.
  - reflexivity.
  - simpl. discriminate.
Defined.

(** [toCreasedNormals] rewrites the normal attribute only, with one entry
    per vertex, and a vertex no face touches gets the zero vector. *)
Theorem creased_normals_frame (E : Externals) (g creased : BufferGeometry)
    (creaseAngle : num) (pos : list Vector3) :
  toCreasedNormals E g creaseAngle = Ok creased ->
  position g = Some pos ->
  position creased = position g /\ index creased = index g
  /\ uv creased = uv g /\ groups creased = groups g
  /\ exists stored,
       normal creased = Some stored
       /\ List.length stored = List.length pos
       /\ forall v, (v < List.length pos)%nat ->
                    incident_normals E pos (index g) v = [] ->
                    nth_error stored v = Some zero3.
Proof.
  intros Hrun Hpos. unfold toCreasedNormals in Hrun. rewrite Hpos in Hrun.
  destruct (collect_vertex_normals E pos (index g)) as [vertexNormals|e] eqn:Hcollect;
    simpl in Hrun; [|discriminate].
  inversion Hrun; subst creased. clear Hrun. simpl.
  destruct (collect_vertex_normals_spec E pos (index g) vertexNormals Hcollect)
    as [Hlen Hnth].
  repeat (split; [reflexivity|]).
  eexists. split; [reflexivity|]. split; [rewrite length_map; exact Hlen|].
  intros v Hv Hnone.
  rewrite nth_error_map.
  destruct (nth_error vertexNormals v) as [collected|] eqn:Hv';
    [|apply nth_error_None in Hv'; lia].
  specialize (Hnth v).
  rewrite (nth_error_nth _ _ [] Hv') in Hnth. rewrite Hnone in Hnth. subst collected.
  reflexivity.
Qed.

Lemma creased_normals_frame_witness :
  position (match toCreasedNormals plate_world fan (Fin 3) with
            | Ok creased => creased
            | Throw _ => bare
            end) = position fan
  /\ index (match toCreasedNormals plate_world fan (Fin 3) with
            | Ok creased => creased
            | Throw _ => bare
            end) = index fan
  /\ uv (match toCreasedNormals plate_world fan (Fin 3) with
         | Ok creased => creased
         | Throw _ => bare
         end) = uv fan
  /\ groups (match toCreasedNormals plate_world fan (Fin 3) with
             | Ok creased => creased
             | Throw _ => bare
             end) = groups fan
  /\ exists stored,
       normal (match toCreasedNormals plate_world fan (Fin 3) with
               | Ok creased => creased
               | Throw _ => bare
               end) = Some stored
       /\ List.length stored = List.length [pt 0 0; pt 3 0; pt 3 4; pt 0 4; pt 1 2]
       /\ forall v, (v < List.length [pt 0 0; pt 3 0; pt 3 4; pt 0 4; pt 1 2])%nat ->
                    incident_normals plate_world [pt 0 0; pt 3 0; pt 3 4; pt 0 4; pt 1 2]
                      (index fan) v = [] ->
                    nth_error stored v = Some zero3.
Proof.
  apply (creased_normals_frame plate_world fan
           (match toCreasedNormals plate_world fan (Fin 3) with
            | Ok creased => creased
            | Throw _ => bare
            end)
           (Fin 3) [pt 0 0; pt 3 0; pt 3 4; pt 0 4; pt 1 2]).
  - vm_compute. reflexivity.
  - reflexivity.
Defined.

(** ** The clusters of the third pass *)

(** A cluster starts with its reference, and every normal that joined it
    later has a dot product with the reference above [creaseDot]. *)
Definition well_formed_cluster (creaseDot : num) (c : NormalGroup) : Prop :=
  exists joined,
    normals c = reference c :: joined
    /\ Forall (fun n => (dot n (reference c) >? creaseDot)%num = true) joined.

Lemma concat_normals_app (l l' : list NormalGroup) :
  List.concat (map normals (l ++ l'))
  = List.concat (map normals l) ++ List.concat (map normals l').
Proof. rewrite map_app, concat_app. reflexivity. Qed.

Lemma greedy_partition (creaseDot : num) (seen : list Vector3) (clusters : list NormalGroup) :
  greedy creaseDot seen clusters ->
  Permutation (List.concat (map normals clusters)) seen
  /\ Forall (well_formed_cluster creaseDot) clusters.
Proof.
  induction 1 as [| seen n before g after Hprev [IHp IHf] Hbefore Hg
                  | seen n clusters Hprev [IHp IHf] Hnone].
  - split; constructor.
  - split.
    + rewrite concat_normals_app in *. simpl in *.
      rewrite <- app_assoc. simpl.
      rewrite app_assoc.
      eapply Permutation_trans; [apply Permutation_sym, Permutation_middle|].
      eapply Permutation_trans; [|apply Permutation_cons_append].
      constructor. rewrite <- app_assoc. exact IHp.
    + apply Forall_app in IHf. destruct IHf as [Hb Ha].
      inversion Ha as [|g0 after0 Hwf Hafter]; subst.
      apply Forall_app. split; [exact Hb|]. constructor; [|exact Hafter].
      destruct Hwf as (joined & Hnormals & Hjoined).
      exists (joined ++ [n]). simpl. split; [rewrite Hnormals; reflexivity|].
      apply Forall_app. split; [exact Hjoined|]. constructor; [exact Hg | constructor].
  - split.
    + rewrite concat_normals_app. simpl. apply Permutation_app; [exact IHp|].
      constructor. constructor.
    + apply Forall_app. split; [exact IHf|]. constructor; [|constructor].
      exists []. simpl. split; [reflexivity | constructor].
Qed.

(** The clusters built for a vertex split its incident normals: put
    together they are the incident normals again (each one once), every
    cluster starts with its reference, and every other member has a dot
    product with that reference above the crease threshold. *)
Theorem clusters_split_the_normals (creaseDot : num) (vertexFaceNormals : list Vector3) :
  Permutation (List.concat (map normals (group_normals creaseDot vertexFaceNormals)))
              vertexFaceNormals
  /\ Forall (well_formed_cluster creaseDot) (group_normals creaseDot vertexFaceNormals).
Proof. apply greedy_partition. apply group_normals_greedy. Qed.

(** ** Texture downscaling *)

Lemma next_power_value (z : Z) :
  (1 <= z)%Z -> nextPowerOfTwo (of_Z z) = of_Z (2 ^ Z.log2_up z).
Proof.
  intros Hz. pose proof (Z.log2_up_nonneg z) as Hk.
  unfold nextPowerOfTwo, of_Z.
  assert (Hsign : Qsign (inject_Z z) = Gt).
  { unfold Qsign, Qcompare, inject_Z. simpl. rewrite Z.mul_1_r. apply Z.compare_gt_iff. lia. }
  rewrite Hsign. unfold ceil_log2.
  assert (Hone : Qle_bool 1 (inject_Z z) = true).
  { apply Qle_bool_iff. change 1 with (inject_Z 1). rewrite <- Zle_Qle. exact Hz. }
  rewrite Hone, Qceiling_Z. unfold two_to.
  destruct (Z.log2_up z) as [|p|p]; [reflexivity | reflexivity | lia].
Qed.

Lemma next_power_covers (z : Z) : (1 <= z)%Z -> (z <= 2 ^ Z.log2_up z)%Z.
Proof.
  intros Hz. destruct (Z.eq_dec z 1) as [-> | Hne]; [simpl; lia|].
  apply Z.log2_up_spec. lia.
Qed.

(** For an integer [z >= 1], [nextPowerOfTwo] is the least power of two
    that is at least [z]. *)
Theorem nextPowerOfTwo_is_least_power (z : Z) :
  (1 <= z)%Z ->
  exists k, (0 <= k)%Z
            /\ nextPowerOfTwo (of_Z z) = of_Z (2 ^ k)
            /\ (z <= 2 ^ k < 2 * z)%Z.
Proof.
  intros Hz. exists (Z.log2_up z).
  split; [apply Z.log2_up_nonneg|]. split; [exact (next_power_value z Hz)|].
  split; [exact (next_power_covers z Hz)|].
  destruct (Z.eq_dec z 1) as [-> | Hne]; [simpl; lia|].
  pose proof (Z.log2_up_spec z ltac:(lia)) as [Hlow _].
  pose proof (Z.log2_up_pos z ltac:(lia)) as Hpos.
  replace (Z.log2_up z) with (Z.succ (Z.pred (Z.log2_up z))) by lia.
  rewrite Z.pow_succ_r by lia. lia.
Qed.

Lemma nextPowerOfTwo_is_least_power_witness :
  exists k, (0 <= k)%Z
            /\ nextPowerOfTwo (of_Z 600) = of_Z (2 ^ k)
            /\ (600 <= 2 ^ k < 2 * 600)%Z.
Proof. apply (nextPowerOfTwo_is_least_power 600). lia. Defined.

Lemma le_of_nat (a c : nat) : (of_nat a <=? of_nat c)%num = (a <=? c)%nat.
Proof.
  unfold of_nat, of_Z, le.
  destruct (Nat.leb_spec a c) as [H | H].
  - apply Qle_bool_iff. rewrite <- Zle_Qle. lia.
  - destruct (Qle_bool _ _) eqn:Hle; [|reflexivity].
    apply Qle_bool_iff in Hle. rewrite <- Zle_Qle in Hle. lia.
Qed.

Lemma gt_of_nat (a c : nat) : (of_nat a >? of_nat c)%num = (c <? a)%nat.
Proof.
  unfold of_nat, of_Z, gt, lt, Qlt_bool.
  destruct (Nat.ltb_spec c a) as [H | H].
  - apply negb_true_iff. destruct (Qle_bool _ _) eqn:Hle; [|reflexivity].
    apply Qle_bool_iff in Hle. rewrite <- Zle_Qle in Hle. lia.
  - apply negb_false_iff. apply Qle_bool_iff. rewrite <- Zle_Qle. lia.
Qed.

(** [s] is [short * 512 / long] rounded down, or one less than it where
    [long] divides [short * 512]. *)
Definition scaled_down (long short s : nat) : Prop :=
  (s = short * 512 / long
   \/ (S s = short * 512 / long /\ (short * 512) mod long = 0))%nat.

Lemma scaled_down_bounds (long short s : nat) :
  (short <= long)%nat -> (512 < long)%nat -> scaled_down long short s ->
  (s <= short)%nat /\ (s <= 512)%nat.
Proof.
  intros Hshort Hlong Hs.
  assert (H1 : (short * 512 / long <= 512)%nat)
    by (apply Nat.Div0.div_le_upper_bound; nia).
  assert (H2 : (short * 512 / long <= short)%nat)
    by (apply Nat.Div0.div_le_upper_bound; nia).
  destruct Hs as [-> | [Hs _]]; lia.
Qed.

(** Two roundings in a row, of a quotient and of a product with it, move
    a value of at most 512 by less than 2^-40. *)
Lemma two_roundings (X0 d S q p : Q) :
  0 <= X0 -> 0 <= S -> S * X0 <= 512 ->
  d <= X0 + X0 * (1 # 9007199254740992) ->
  X0 - X0 * (1 # 9007199254740992) <= d ->
  q == S * d ->
  p <= q + q * (1 # 9007199254740992) ->
  q - q * (1 # 9007199254740992) <= p ->
  S * X0 - (1 # 1099511627776) <= p /\ p <= S * X0 + (1 # 1099511627776).
Proof.
  intros HX0 HS HX Hdu Hdl Hq Hpu Hpl.
  assert (Hq1 : q <= S * X0 + S * X0 * (1 # 9007199254740992)) by (rewrite Hq; nra).
  assert (Hq2 : S * X0 - S * X0 * (1 # 9007199254740992) <= q) by (rewrite Hq; nra).
  assert (Hq0 : 0 <= q) by nra.
  split; nra.
Qed.

Lemma floor_between (p : Q) (N : Z) :
  inject_Z N <= p -> p < inject_Z N + 1 -> Qfloor p = N.
Proof.
  intros Hlo Hhi.
  pose proof (Qfloor_le p) as H1. pose proof (Qlt_floor p) as H2.
  assert (Ha : (Qfloor p < N + 1)%Z).
  { rewrite Zlt_Qlt. rewrite inject_Z_plus. change (inject_Z 1) with 1. lra. }
  assert (Hb : (N < Qfloor p + 1)%Z).
  { rewrite Zlt_Qlt. rewrite inject_Z_plus. change (inject_Z 1) with 1.
    rewrite inject_Z_plus in H2. change (inject_Z 1) with 1 in H2. lra. }
  lia.
Qed.

(** The side the code computes for the shorter side: the longer side is
    above 512 and both are 32-bit numbers.  Where the exact proportion
    is a whole number the rounded product can fall just below it, and the
    floor is then one less. *)
Lemma scaled_side (long short : nat) :
  (short <= long)%nat -> (512 < long)%nat -> (Z.of_nat long < 2 ^ 32)%Z ->
  exists s,
    js_floor (fl_mul (of_nat short) (fl_div (of_nat 512) (of_nat long))) = of_nat s
    /\ scaled_down long short s.
Proof.
  intros Hshort Hlong Hbound. unfold scaled_down.
  set (L := inject_Z (Z.of_nat long)).
  set (S0 := inject_Z (Z.of_nat short)).
  assert (HL : 512 < L) by (unfold L; change 512 with (inject_Z 512); rewrite <- Zlt_Qlt; lia).
  assert (HL2 : L < 4294967296)
    by (unfold L; change 4294967296 with (inject_Z (2 ^ 32)); rewrite <- Zlt_Qlt; lia).
  assert (HS0 : 0 <= S0) by (unfold S0; change 0 with (inject_Z 0); rewrite <- Zle_Qle; lia).
  assert (HSL : S0 <= L) by (unfold S0, L; rewrite <- Zle_Qle; lia).
  set (X0 := 512 / L).
  assert (HX0L : X0 * L == 512) by (unfold X0; field; lra).
  assert (HX0 : 0 < X0) by nra.
  assert (HX01 : X0 <= 1) by nra.
  assert (HX0min : 1 # 8388608 <= X0) by nra.
  unfold fl_div, of_nat at 2 3, of_Z, div. fold L.
  assert (Hsign : Qsign L = Gt) by (unfold Qsign; apply Qgt_alt; lra).
  rewrite Hsign. change (inject_Z (Z.of_nat 512)) with 512. fold X0.
  unfold to_double.
  destruct (round_to_under 53 (-1074) 1023 X0 1) as (d & Hd & Hd0 & Hd1);
    [lia | lia | lia | lra | exact HX01 | reflexivity |].
  destruct (round_to_error 53 (-1074) 1023 X0 d) as [Hdu Hdl];
    [lia | lia | exact HX0 | | exact Hd |].
  { apply Qle_trans with (1 # 8388608); [|exact HX0min]. vm_compute. discriminate. }
  rewrite Hd. change (two_to (Z.opp 53)) with (1 # 9007199254740992) in Hdu, Hdl.
  change (inject_Z 1) with 1 in Hd1.
  unfold fl_mul, of_nat, of_Z, mul. fold S0. unfold to_double.
  assert (HX : S0 * X0 <= 512) by nra.
  assert (Hq0 : 0 <= S0 * d) by nra.
  assert (HqS : S0 * d <= inject_Z (Z.of_nat short)) by (fold S0; nra).
  destruct (round_to_under 53 (-1074) 1023 (S0 * d) (Z.of_nat short)) as (p & Hp & Hp0 & Hp1);
    [lia | lia | lia | exact Hq0 | exact HqS | lia |].
  rewrite Hp. unfold js_floor, of_Z.
  destruct (Nat.eq_dec short 0) as [Hzero | Hsome].
  { exists 0%nat. subst short. split; [|left; rewrite Nat.mul_0_l, Nat.Div0.div_0_l; reflexivity].
    assert (Hp00 : p == 0) by (change (inject_Z (Z.of_nat 0)) with 0 in Hp1; lra).
    rewrite (Qfloor_comp _ _ Hp00). reflexivity. }
  assert (HS1 : 1 <= S0)
    by (unfold S0; change 1 with (inject_Z 1); rewrite <- Zle_Qle; lia).
  assert (Hdmin : 1 # 16777216 <= d) by nra.
  destruct (round_to_error 53 (-1074) 1023 (S0 * d) p) as [Hpu Hpl];
    [lia | lia | nra | | exact Hp |].
  { apply Qle_trans with (1 # 16777216); [vm_compute; discriminate | nra]. }
  change (two_to (Z.opp 53)) with (1 # 9007199254740992) in Hpu, Hpl.
  destruct (two_roundings X0 d S0 (S0 * d) p) as [Hlo Hhi]; try assumption;
    [lra | reflexivity |].
  set (zl := Z.of_nat long) in *. set (zs := Z.of_nat short) in *.
  set (N := (zs * 512 / zl)%Z).
  set (r := ((zs * 512) mod zl)%Z).
  assert (Hdiv : (zs * 512 = zl * N + r)%Z) by (apply Z.div_mod; lia).
  assert (Hr : (0 <= r < zl)%Z) by (apply Z.mod_pos_bound; lia).
  assert (HN : (0 <= N)%Z) by (apply Z.div_pos; lia).
  assert (HXL : S0 * X0 * L == inject_Z N * L + inject_Z r).
  { transitivity (S0 * 512); [rewrite <- HX0L; ring|].
    unfold S0, L. change 512 with (inject_Z 512).
    rewrite <- !inject_Z_mult, <- inject_Z_plus. fold zs zl.
    rewrite Hdiv. rewrite Z.mul_comm. reflexivity. }
  assert (Hnat : Z.of_nat (short * 512 / long) = N).
  { rewrite Nat2Z.inj_div, Nat2Z.inj_mul. reflexivity. }
  assert (Hmod : Z.of_nat ((short * 512) mod long) = r).
  { rewrite Nat2Z.inj_mod, Nat2Z.inj_mul. reflexivity. }
  assert (Hr0 : 0 <= inject_Z r) by (change 0 with (inject_Z 0); rewrite <- Zle_Qle; lia).
  assert (HrL : inject_Z r + 1 <= L).
  { unfold L. fold zl. change 1 with (inject_Z 1). rewrite <- inject_Z_plus, <- Zle_Qle. lia. }
  destruct (Z.eq_dec r 0) as [Hexact | Hrest].
  - assert (HXN : S0 * X0 == inject_Z N).
    { rewrite Hexact in HXL. change (inject_Z 0) with 0 in HXL. nra. }
    assert (Hcase : Qfloor p = N \/ Qfloor p = (N - 1)%Z).
    { destruct (Qlt_le_dec p (inject_Z N)) as [Hbelow | Habove].
      - right.
        assert (HNm : inject_Z (N - 1) == inject_Z N - 1).
        { unfold Z.sub. rewrite inject_Z_plus, inject_Z_opp. reflexivity. }
        apply floor_between; rewrite HNm; lra.
      - left. apply floor_between; lra. }
    destruct Hcase as [Hf | Hf]; rewrite Hf.
    + exists (Z.to_nat N). rewrite Z2Nat.id by lia. split; [reflexivity|]. left. lia.
    + assert (HN1 : (1 <= N)%Z).
      { assert (Hfloor : (0 <= Qfloor p)%Z).
        { change 0%Z with (Qfloor 0). apply Qfloor_resp_le. exact Hp0. }
        lia. }
      exists (Z.to_nat (N - 1)). rewrite Z2Nat.id by lia. split; [reflexivity|].
      right. split; lia.
  - assert (Hgap1 : inject_Z N + (1 # 4294967296) <= S0 * X0).
    { assert (1 <= inject_Z r)
        by (change 1 with (inject_Z 1); rewrite <- Zle_Qle; lia).
      nra. }
    assert (Hgap2 : S0 * X0 <= inject_Z N + 1 - (1 # 4294967296)) by nra.
    assert (Hf : Qfloor p = N) by (apply floor_between; lra).
    rewrite Hf. exists (Z.to_nat N). rewrite Z2Nat.id by lia.
    split; [reflexivity|]. left. lia.
Qed.

(** In aggressive mode the power of two never wins: the canvas side is
    the floor of the scaled side. *)
Lemma aggressive_side (m : nat) : js_min (nextPowerOfTwo (of_nat m)) (of_nat m) = of_nat m.
Proof.
  destruct m as [|m]; [reflexivity|].
  pose proof (next_power_value (Z.of_nat (S m)) ltac:(lia)) as Hpow.
  pose proof (next_power_covers (Z.of_nat (S m)) ltac:(lia)) as Hlow.
  set (k := Z.log2_up (Z.of_nat (S m))) in *.
  unfold of_nat. rewrite Hpow. unfold of_Z, js_min, lt, Qlt_bool.
  destruct (Qle_bool (inject_Z (2 ^ k)) (inject_Z (Z.of_nat (S m)))) eqn:Hle; simpl.
  - apply Qle_bool_iff in Hle. rewrite <- Zle_Qle in Hle.
    replace (2 ^ k)%Z with (Z.of_nat (S m)) by lia. reflexivity.
  - reflexivity.
Qed.

Section TextureFacts.
Context (D : Dom).

(** The texture is replaced only on the paths that return [true], and the
    replacement is flagged for upload. *)
Theorem texture_changes_only_when_reported (texture : option Texture)
    (optimizationConfig : OptimizationConfig) (aggressive : bool) :
  fst (optimizeTexture D texture optimizationConfig aggressive) = texture
  \/ (snd (optimizeTexture D texture optimizationConfig aggressive) = true
      /\ exists t', fst (optimizeTexture D texture optimizationConfig aggressive) = Some t'
                    /\ needsUpdate t' = true).
Proof.
  unfold optimizeTexture.
  destruct texture as [t|]; [|left; reflexivity].
  destruct (image t) as [img|]; [|left; reflexivity].
  destruct (negb (useTextureCompression optimizationConfig)); [left; reflexivity|].
  destruct (_ && _); [left; reflexivity|]. cbv zeta.
  destruct (_ || _).
  - destruct (fit _ img) as [[w h] modified].
    destruct (getContext D 0); [right; simpl; eauto|].
    destruct (negb modified && aggressive); [|left; reflexivity].
    destruct (getContext D 1); [right; simpl; eauto | left; reflexivity].
  - destruct (negb false && aggressive); [|left; reflexivity].
    destruct (getContext D 0); [right; simpl; eauto | left; reflexivity].
Qed.

(** Aggressive mode on an image of [a] by [b] pixels (32-bit numbers) that
    is not skipped: with a 2D context, the image becomes a canvas that is
    no larger than the image and no larger than 512 on either side.  An
    image already within 512 keeps its size; otherwise the longer side
    becomes 512 and the other the proportional side, rounded down, or one
    less than it where the proportion is a whole number, which the
    rounded product of the code can fall short of. *)
Theorem aggressive_texture_fits (t : Texture) (optimizationConfig : OptimizationConfig)
    (a b : nat) :
  useTextureCompression optimizationConfig = true ->
  image t = Some (mkImage (of_nat a) (of_nat b)) ->
  (256 < a \/ 256 < b)%nat ->
  (Z.of_nat a < 2 ^ 32)%Z ->
  (Z.of_nat b < 2 ^ 32)%Z ->
  getContext D 0 = true ->
  (forall m, (m <= 512)%nat -> canvas_dimension D (of_nat m) = of_nat m) ->
  exists a' b',
    optimizeTexture D (Some t) optimizationConfig true
    = (Some (mkTexture (Some (mkImage (of_nat a') (of_nat b'))) true), true)
    /\ (if (512 <? a)%nat || (512 <? b)%nat
        then if (b <? a)%nat
             then a' = 512%nat /\ scaled_down a b b'
             else scaled_down b a a' /\ b' = 512%nat
        else a' = a /\ b' = b)
    /\ (a' <= a)%nat /\ (b' <= b)%nat /\ (a' <= 512)%nat /\ (b' <= 512)%nat.
Proof.
  intros Hon Himage Hbig Ha32 Hb32 Hctx Hdim.
  unfold optimizeTexture. rewrite Himage, Hon. simpl negb. cbv iota beta zeta.
  simpl width. simpl height.
  change (Fin 256) with (of_nat 256). change (Fin 512) with (of_nat 512).
  rewrite !le_of_nat, !gt_of_nat.
  assert (Hskip : ((a <=? 256)%nat && (b <=? 256)%nat) = false).
  { apply andb_false_iff. destruct Hbig; [left | right]; apply Nat.leb_gt; lia. }
  rewrite Hskip. rewrite Hctx.
  destruct ((512 <? a)%nat || (512 <? b)%nat) eqn:Hlarge.
  - unfold fit. simpl width. simpl height. rewrite !gt_of_nat.
    apply orb_true_iff in Hlarge.
    destruct (Nat.ltb_spec b a) as [Hwide | Htall].
    + assert (Ha : (512 <? a)%nat = true).
      { apply Nat.ltb_lt. destruct Hlarge as [H | H]; apply Nat.ltb_lt in H; lia. }
      rewrite Ha. apply Nat.ltb_lt in Ha.
      destruct (scaled_side a b ltac:(lia) Ha Ha32) as (b' & Hb' & Hscaled).
      destruct (scaled_down_bounds a b b' ltac:(lia) Ha Hscaled) as [Hle Hcap].
      exists 512%nat, b'.
      split; [|split; [split; [reflexivity | exact Hscaled] | lia]].
      unfold drawn, canvas_side. rewrite Hb', aggressive_side.
      change (js_floor (of_nat 512)) with (of_nat 512). rewrite aggressive_side.
      rewrite !Hdim by lia. reflexivity.
    + assert (Hb : (512 <? b)%nat = true).
      { apply Nat.ltb_lt. destruct Hlarge as [H | H]; apply Nat.ltb_lt in H; lia. }
      rewrite Hb. apply Nat.ltb_lt in Hb.
      destruct (scaled_side b a Htall Hb Hb32) as (a' & Ha' & Hscaled).
      destruct (scaled_down_bounds b a a' Htall Hb Hscaled) as [Hle Hcap].
      exists a', 512%nat.
      split; [|split; [split; [exact Hscaled | reflexivity] | lia]].
      unfold drawn, canvas_side. rewrite Ha', aggressive_side.
      change (js_floor (of_nat 512)) with (of_nat 512). rewrite aggressive_side.
      rewrite !Hdim by lia. reflexivity.
  - apply orb_false_iff in Hlarge. destruct Hlarge as [Ha Hb].
    apply Nat.ltb_ge in Ha. apply Nat.ltb_ge in Hb.
    exists a, b. simpl negb. simpl andb. cbv iota.
    split; [|split; [split; reflexivity | lia]].
    unfold drawn. rewrite !Hdim by lia. reflexivity.
Qed.

(** Where no canvas gets a 2D context the texture is left as it was, yet
    in aggressive mode an image with a side above 512 still makes the call
    return [true]. *)
Theorem oversized_texture_reported_without_context (t : Texture)
    (optimizationConfig : OptimizationConfig) (a b : nat) :
  (forall k, getContext D k = false) ->
  useTextureCompression optimizationConfig = true ->
  image t = Some (mkImage (of_nat a) (of_nat b)) ->
  (512 < a \/ 512 < b)%nat ->
  optimizeTexture D (Some t) optimizationConfig true = (Some t, true).
Proof.
  intros Hctx Hon Himage Hbig.
  unfold optimizeTexture. rewrite Himage, Hon. simpl negb. cbv iota beta zeta.
  simpl width. simpl height.
  change (Fin 256) with (of_nat 256). change (Fin 512) with (of_nat 512).
  rewrite !le_of_nat, !gt_of_nat.
  assert (Hskip : ((a <=? 256)%nat && (b <=? 256)%nat) = false).
  { apply andb_false_iff. destruct Hbig; [left | right]; apply Nat.leb_gt; lia. }
  assert (Hlarge : ((512 <? a)%nat || (512 <? b)%nat) = true).
  { apply orb_true_iff. destruct Hbig; [left | right]; apply Nat.ltb_lt; lia. }
  rewrite Hskip, Hlarge, !Hctx.
  unfold fit. simpl width. simpl height. rewrite !gt_of_nat.
  destruct (Nat.ltb_spec b a) as [Hwide | Htall].
  - assert (Ha : (512 <? a)%nat = true) by (apply Nat.ltb_lt; lia).
    rewrite Ha. reflexivity.
  - assert (Hb : (512 <? b)%nat = true) by (apply Nat.ltb_lt; lia).
    rewrite Hb. reflexivity.
Qed.

End TextureFacts.

Lemma aggressive_texture_fits_witness :
  exists a' b',
    optimizeTexture plain_dom (Some (photo 644 161)) compress_textures true
    = (Some (mkTexture (Some (mkImage (of_nat a') (of_nat b'))) true), true)
    /\ (if (512 <? 644)%nat || (512 <? 161)%nat
        then if (161 <? 644)%nat
             then a' = 512%nat /\ scaled_down 644 161 b'
             else scaled_down 161 644 a' /\ b' = 512%nat
        else a' = 644%nat /\ b' = 161%nat)
    /\ (a' <= 644)%nat /\ (b' <= 161)%nat /\ (a' <= 512)%nat /\ (b' <= 512)%nat.
Proof.
  apply (aggressive_texture_fits plain_dom (photo 644 161) compress_textures 644 161).
  - reflexivity.
  - reflexivity.
  - left. lia.
  - reflexivity.
  - reflexivity.
  - reflexivity.
  - intros m _. reflexivity.
Defined.

(** An image of 644 by 161 pixels becomes 512 by 127: the rounded product
    [161 * (512 / 644)] is 127.99999999999999, where the proportion is
    128. *)
Example texture_644_by_161 :
  optimizeTexture plain_dom (Some (photo 644 161)) compress_textures true
  = (Some (mkTexture (Some (mkImage (of_nat 512) (of_nat 127))) true), true)
  /\ (161 * 512 / 644 = 128)%nat.
Proof. vm_compute. split; reflexivity. Qed.

Lemma oversized_texture_reported_without_context_witness :
  optimizeTexture headless_dom (Some (photo 2000 600)) compress_textures true
  = (Some (photo 2000 600), true).
Proof.
  apply (oversized_texture_reported_without_context headless_dom (photo 2000 600)
           compress_textures 2000 600).
  - intros k. reflexivity.
  - reflexivity.
  - reflexivity.
  - left. lia.
Defined.
